(** * TetriX: the piece/grid engine of [TetriX.py], embedded and verified

    The Python program keeps one long-lived [TetrisGame] object and mutates
    it.  Here every method is a function from the object's fields to the
    new fields (explicit state passing).  Python integers are [Z], Python
    lists are [list] with Python's indexing rules written out (negative
    indices wrap, out-of-range indices raise), Python dicts are
    insertion-ordered association lists, and a raised exception is the
    [Raise] branch of the result type [Res].

    Rendering, fonts, sound playback and the particle list are downstream
    observers of the engine and are left out; the counters that the engine
    itself sets for them ([screen_shake], [flash_effect], ...) are kept. *)

From Stdlib Require Import ZArith Lia.
From stdpp Require Import base decidable option list numbers sorting.

Open Scope Z_scope.

(** ** Exceptions and the result monad *)

Inductive Exn := IndexError | KeyError | AttributeError | Diverges.

Inductive Res (A : Type) : Type :=
| Ok (a : A)
| Raise (e : Exn).
Arguments Ok {A} a.
Arguments Raise {A} e.

#[global] Instance Res_ret : MRet Res := λ A a, Ok a.
#[global] Instance Res_bind : MBind Res := λ A B f m,
  match m with Ok a => f a | Raise e => Raise e end.

(** ** Python containers *)

Module Py.

(** [range(n)] as Python integers. *)
Definition range (n : Z) : list Z := Z.of_nat <$> seq 0 (Z.to_nat n).

(** Position designated by a Python index: [0 <= i < len] is itself,
    [-len <= i < 0] counts from the end, anything else raises. *)
Definition index {A} (l : list A) (i : Z) : Res nat :=
  let n := Z.of_nat (length l) in
  if decide (0 ≤ i < n) then Ok (Z.to_nat i)
  else if decide (- n ≤ i < 0) then Ok (Z.to_nat (n + i))
  else Raise IndexError.

(** [l[i]] *)
Definition getitem {A} (l : list A) (i : Z) : Res A :=
  k ← index l i;
  match l !! k with Some a => Ok a | None => Raise IndexError end.

(** [l[i] = v] *)
Definition setitem {A} (l : list A) (i : Z) (v : A) : Res (list A) :=
  k ← index l i; Ok (<[k:=v]> l).

(** [del l[i]] *)
Definition delitem {A} (l : list A) (i : Z) : Res (list A) :=
  k ← index l i; Ok (delete k l).

(** [l.pop(0)] *)
Definition pop_front {A} (l : list A) : Res (A * list A) :=
  match l with
  | [] => Raise IndexError
  | a :: l' => Ok (a, l')
  end.

(** [l.pop()] *)
Definition pop_back {A} (l : list A) : Res (A * list A) :=
  match reverse l with
  | [] => Raise IndexError
  | a :: l' => Ok (a, reverse l')
  end.

(** [zip] applied to the unpacked [rows]: the columns of [rows], cut at the shortest row. *)
Fixpoint zip_star {A} (rows : list (list A)) : list (list A) :=
  match rows with
  | [] => []
  | r :: rs =>
      match rs with
      | [] => (λ v, [v]) <$> r
      | _ :: _ => zip_with cons r (zip_star rs)
      end
  end.

(** [sorted(l, reverse=True)] / [l.sort(reverse=True)] on integers. *)
Definition sorted_desc (l : list Z) : list Z := merge_sort (flip Z.le) l.

(** A dict: association list in insertion order, one entry per key. *)
Definition dict (K V : Type) := list (K * V).

Section dict.
Context {K V : Type} `{EqDecision K}.

(** [d[k]] *)
Fixpoint dict_get (d : dict K V) (k : K) : Res V :=
  match d with
  | [] => Raise KeyError
  | (k', v) :: d' => if decide (k' = k) then Ok v else dict_get d' k
  end.

(** [d[k] = v]: an existing key keeps its place, a new key goes last. *)
Fixpoint dict_set (d : dict K V) (k : K) (v : V) : dict K V :=
  match d with
  | [] => [(k, v)]
  | (k', v') :: d' =>
      if decide (k' = k) then (k', v) :: d' else (k', v') :: dict_set d' k v
  end.

End dict.

End Py.

(** ** Module-level constants of [TetriX.py] *)

Definition SCREEN_WIDTH : Z := 400.
Definition SCREEN_HEIGHT : Z := 800.
Definition BLOCK_SIZE : Z := 40.
Definition GRID_WIDTH : Z := SCREEN_WIDTH `div` BLOCK_SIZE.
Definition GRID_HEIGHT : Z := SCREEN_HEIGHT `div` BLOCK_SIZE.

(** The keys of [SHAPES], in the order the dict literal lists them. *)
Inductive PieceType := kI | kO | kT | kS | kZ | kJ | kL.

#[global] Instance PieceType_eq_dec : EqDecision PieceType.
Proof. solve_decision. Defined.

Definition SHAPES_keys : list PieceType := [kI; kO; kT; kS; kZ; kJ; kL].

Definition SHAPES_shape (t : PieceType) : list (list Z) :=
  match t with
  | kI => [[1; 1; 1; 1]]
  | kO => [[1; 1]; [1; 1]]
  | kT => [[0; 1; 0]; [1; 1; 1]]
  | kS => [[0; 1; 1]; [1; 1; 0]]
  | kZ => [[1; 1; 0]; [0; 1; 1]]
  | kJ => [[1; 0; 0]; [1; 1; 1]]
  | kL => [[0; 0; 1]; [1; 1; 1]]
  end.

Definition SHAPES_color (t : PieceType) : Z :=
  match t with
  | kI => 1 | kO => 4 | kT => 6 | kS => 5 | kZ => 7 | kJ => 2 | kL => 3
  end.

Inductive GameState := MENU | PLAYING | PAUSED | GAME_OVER.

#[global] Instance GameState_eq_dec : EqDecision GameState.
Proof. solve_decision. Defined.

(** ** class Tetrimino *)

Module Tetrimino.

Record t := mk {
  piece_type : PieceType;
  shape : list (list Z);
  color : Z;
  x : Z;
  y : Z;
  rotation_state : Z
}.

(** Attribute assignments [self.shape = v], [self.x = v], [self.y = v]. *)
Definition set_shape (v : list (list Z)) (p : t) : t :=
  let 'mk a0 _ a2 a3 a4 a5 := p in mk a0 v a2 a3 a4 a5.
Definition set_x (v : Z) (p : t) : t :=
  let 'mk a0 a1 a2 _ a4 a5 := p in mk a0 a1 a2 v a4 a5.
Definition set_y (v : Z) (p : t) : t :=
  let 'mk a0 a1 a2 a3 _ a5 := p in mk a0 a1 a2 a3 v a5.

(** [Tetrimino(piece_type)].  [len(self.shape[0])] raises on an empty
    shape; no entry of [SHAPES] is empty. *)
Definition init (pt : PieceType) : t :=
  let sh := SHAPES_shape pt in
  {| piece_type := pt;
     shape := sh;
     color := SHAPES_color pt;
     x := GRID_WIDTH `div` 2 - Z.of_nat (length (default [] (head sh))) `div` 2;
     y := 0;
     rotation_state := 0 |}.

(** [rotate]: the rows of [self.shape] reversed, then [zip] over them unpacked *)
Definition rotate (sh : list (list Z)) : list (list Z) :=
  Py.zip_star (reverse sh).

(** The test of one cell inside [_valid_position]: [true] when the cell
    makes the position invalid.  The [or]/[and] chain is evaluated left to
    right, so the grid is only indexed once the three bounds tests failed
    and [new_y >= 0]. *)
Definition cell_blocked (new_x new_y : Z) (grid : list (list Z)) : Res bool :=
  if decide (new_x < 0) then Ok true
  else if decide (new_x >= GRID_WIDTH) then Ok true
  else if decide (new_y >= GRID_HEIGHT) then Ok true
  else if decide (new_y >= 0) then
    row ← Py.getitem grid new_y;
    c ← Py.getitem row new_x;
    Ok (bool_decide (c ≠ 0))
  else Ok false.

(** Inner loop of [_valid_position]: the cells of one shape row from
    column offset [dx] on.  [Ok false] is the early [return False]. *)
Fixpoint valid_row (x new_y dx : Z) (row : list Z) (grid : list (list Z))
  : Res bool :=
  match row with
  | [] => Ok true
  | value :: rest =>
      if decide (value ≠ 0) then
        b ← cell_blocked (x + dx) new_y grid;
        if b : bool then Ok false else valid_row x new_y (dx + 1) rest grid
      else valid_row x new_y (dx + 1) rest grid
  end.

(** Outer loop of [_valid_position], from row offset [dy] on. *)
Fixpoint valid_rows (x y dy : Z) (sh : list (list Z)) (grid : list (list Z))
  : Res bool :=
  match sh with
  | [] => Ok true
  | row :: rest =>
      ok ← valid_row x (y + dy) 0 row grid;
      if ok : bool then valid_rows x y (dy + 1) rest grid else Ok false
  end.

Definition _valid_position (x y : Z) (sh : list (list Z))
  (grid : list (list Z)) : Res bool :=
  valid_rows x y 0 sh grid.

(** The [while] loop of [get_ghost_y], [ghost_y] being the row reached so
    far.  A round that succeeds moves one row down, so the loop ends
    within [GRID_HEIGHT - y] rounds unless the shape has no occupied
    cell, in which case the Python loop does not end: [Raise Diverges]. *)
Fixpoint ghost_loop (fuel : nat) (p : t) (ghost_y : Z)
  (grid : list (list Z)) : Res Z :=
  match fuel with
  | O => Raise Diverges
  | S fuel' =>
      ok ← _valid_position (x p) (ghost_y + 1) (shape p) grid;
      if ok : bool then ghost_loop fuel' p (ghost_y + 1) grid
      else Ok ghost_y
  end.

Definition get_ghost_y (p : t) (grid : list (list Z)) : Res Z :=
  ghost_loop (S (Z.to_nat (GRID_HEIGHT - y p))) p (y p) grid.

End Tetrimino.

(** ** Input events seen by [handle_events] *)

Inductive Key :=
| K_LEFT | K_RIGHT | K_DOWN | K_UP | K_SPACE | K_c | K_p | K_r | K_q | K_other.

Inductive Event := QUIT | KEYDOWN (k : Key) | OTHER_EVENT.

(** ** class TetrisGame *)

Module TetrisGame.

(** The fields of the game object.  [shuffles] counts the calls of
    [random.shuffle] made so far and [score_file] lists, latest first, what
    [json.dump] was asked to write to [tetris_scores.json]; neither is a
    Python attribute, both record the program's dealings with the outside. *)
Record t := mk {
  state : GameState;
  grid : list (list Z);
  locked_positions : Py.dict (Z * Z) Z;
  current_piece : option Tetrimino.t;
  next_pieces : list Tetrimino.t;
  score : Z;
  lines_cleared : Z;
  level : Z;
  combo : Z;
  hold_piece : option Tetrimino.t;
  can_hold : bool;
  piece_bag : list PieceType;
  stats : Py.dict PieceType Z;
  total_pieces : Z;
  start_time : Z;
  drop_time : Z;
  drop_speed : Z;
  line_clear_animation : Z;
  line_clear_rows : list Z;
  screen_shake : Z;
  flash_effect : Z;
  high_scores : list Z;
  shuffles : nat;
  score_file : list (list Z)
}.

(** Attribute assignment [self.f = v], one function per field. *)
Definition set_state (v : GameState) (g : t) : t :=
  let 'mk _ a1 a2 a3 a4 a5 a6 a7 a8 a9 a10 a11 a12 a13 a14 a15 a16 a17 a18
      a19 a20 a21 a22 a23
    := g in
  mk v a1 a2 a3 a4 a5 a6 a7 a8 a9 a10 a11 a12 a13 a14 a15 a16 a17 a18 a19
    a20 a21 a22 a23.
Definition set_grid (v : list (list Z)) (g : t) : t :=
  let 'mk a0 _ a2 a3 a4 a5 a6 a7 a8 a9 a10 a11 a12 a13 a14 a15 a16 a17 a18
      a19 a20 a21 a22 a23
    := g in
  mk a0 v a2 a3 a4 a5 a6 a7 a8 a9 a10 a11 a12 a13 a14 a15 a16 a17 a18 a19
    a20 a21 a22 a23.
Definition set_locked_positions (v : Py.dict (Z * Z) Z) (g : t) : t :=
  let 'mk a0 a1 _ a3 a4 a5 a6 a7 a8 a9 a10 a11 a12 a13 a14 a15 a16 a17 a18
      a19 a20 a21 a22 a23
    := g in
  mk a0 a1 v a3 a4 a5 a6 a7 a8 a9 a10 a11 a12 a13 a14 a15 a16 a17 a18 a19
    a20 a21 a22 a23.
Definition set_current_piece (v : option Tetrimino.t) (g : t) : t :=
  let 'mk a0 a1 a2 _ a4 a5 a6 a7 a8 a9 a10 a11 a12 a13 a14 a15 a16 a17 a18
      a19 a20 a21 a22 a23
    := g in
  mk a0 a1 a2 v a4 a5 a6 a7 a8 a9 a10 a11 a12 a13 a14 a15 a16 a17 a18 a19
    a20 a21 a22 a23.
Definition set_next_pieces (v : list Tetrimino.t) (g : t) : t :=
  let 'mk a0 a1 a2 a3 _ a5 a6 a7 a8 a9 a10 a11 a12 a13 a14 a15 a16 a17 a18
      a19 a20 a21 a22 a23
    := g in
  mk a0 a1 a2 a3 v a5 a6 a7 a8 a9 a10 a11 a12 a13 a14 a15 a16 a17 a18 a19
    a20 a21 a22 a23.
Definition set_score (v : Z) (g : t) : t :=
  let 'mk a0 a1 a2 a3 a4 _ a6 a7 a8 a9 a10 a11 a12 a13 a14 a15 a16 a17 a18
      a19 a20 a21 a22 a23
    := g in
  mk a0 a1 a2 a3 a4 v a6 a7 a8 a9 a10 a11 a12 a13 a14 a15 a16 a17 a18 a19
    a20 a21 a22 a23.
Definition set_lines_cleared (v : Z) (g : t) : t :=
  let 'mk a0 a1 a2 a3 a4 a5 _ a7 a8 a9 a10 a11 a12 a13 a14 a15 a16 a17 a18
      a19 a20 a21 a22 a23
    := g in
  mk a0 a1 a2 a3 a4 a5 v a7 a8 a9 a10 a11 a12 a13 a14 a15 a16 a17 a18 a19
    a20 a21 a22 a23.
Definition set_level (v : Z) (g : t) : t :=
  let 'mk a0 a1 a2 a3 a4 a5 a6 _ a8 a9 a10 a11 a12 a13 a14 a15 a16 a17 a18
      a19 a20 a21 a22 a23
    := g in
  mk a0 a1 a2 a3 a4 a5 a6 v a8 a9 a10 a11 a12 a13 a14 a15 a16 a17 a18 a19
    a20 a21 a22 a23.
Definition set_combo (v : Z) (g : t) : t :=
  let 'mk a0 a1 a2 a3 a4 a5 a6 a7 _ a9 a10 a11 a12 a13 a14 a15 a16 a17 a18
      a19 a20 a21 a22 a23
    := g in
  mk a0 a1 a2 a3 a4 a5 a6 a7 v a9 a10 a11 a12 a13 a14 a15 a16 a17 a18 a19
    a20 a21 a22 a23.
Definition set_hold_piece (v : option Tetrimino.t) (g : t) : t :=
  let 'mk a0 a1 a2 a3 a4 a5 a6 a7 a8 _ a10 a11 a12 a13 a14 a15 a16 a17 a18
      a19 a20 a21 a22 a23
    := g in
  mk a0 a1 a2 a3 a4 a5 a6 a7 a8 v a10 a11 a12 a13 a14 a15 a16 a17 a18 a19
    a20 a21 a22 a23.
Definition set_can_hold (v : bool) (g : t) : t :=
  let 'mk a0 a1 a2 a3 a4 a5 a6 a7 a8 a9 _ a11 a12 a13 a14 a15 a16 a17 a18
      a19 a20 a21 a22 a23
    := g in
  mk a0 a1 a2 a3 a4 a5 a6 a7 a8 a9 v a11 a12 a13 a14 a15 a16 a17 a18 a19 a20
    a21 a22 a23.
Definition set_piece_bag (v : list PieceType) (g : t) : t :=
  let 'mk a0 a1 a2 a3 a4 a5 a6 a7 a8 a9 a10 _ a12 a13 a14 a15 a16 a17 a18
      a19 a20 a21 a22 a23
    := g in
  mk a0 a1 a2 a3 a4 a5 a6 a7 a8 a9 a10 v a12 a13 a14 a15 a16 a17 a18 a19 a20
    a21 a22 a23.
Definition set_stats (v : Py.dict PieceType Z) (g : t) : t :=
  let 'mk a0 a1 a2 a3 a4 a5 a6 a7 a8 a9 a10 a11 _ a13 a14 a15 a16 a17 a18
      a19 a20 a21 a22 a23
    := g in
  mk a0 a1 a2 a3 a4 a5 a6 a7 a8 a9 a10 a11 v a13 a14 a15 a16 a17 a18 a19 a20
    a21 a22 a23.
Definition set_total_pieces (v : Z) (g : t) : t :=
  let 'mk a0 a1 a2 a3 a4 a5 a6 a7 a8 a9 a10 a11 a12 _ a14 a15 a16 a17 a18
      a19 a20 a21 a22 a23
    := g in
  mk a0 a1 a2 a3 a4 a5 a6 a7 a8 a9 a10 a11 a12 v a14 a15 a16 a17 a18 a19 a20
    a21 a22 a23.
Definition set_start_time (v : Z) (g : t) : t :=
  let 'mk a0 a1 a2 a3 a4 a5 a6 a7 a8 a9 a10 a11 a12 a13 _ a15 a16 a17 a18
      a19 a20 a21 a22 a23
    := g in
  mk a0 a1 a2 a3 a4 a5 a6 a7 a8 a9 a10 a11 a12 a13 v a15 a16 a17 a18 a19 a20
    a21 a22 a23.
Definition set_drop_time (v : Z) (g : t) : t :=
  let 'mk a0 a1 a2 a3 a4 a5 a6 a7 a8 a9 a10 a11 a12 a13 a14 _ a16 a17 a18
      a19 a20 a21 a22 a23
    := g in
  mk a0 a1 a2 a3 a4 a5 a6 a7 a8 a9 a10 a11 a12 a13 a14 v a16 a17 a18 a19 a20
    a21 a22 a23.
Definition set_drop_speed (v : Z) (g : t) : t :=
  let 'mk a0 a1 a2 a3 a4 a5 a6 a7 a8 a9 a10 a11 a12 a13 a14 a15 _ a17 a18
      a19 a20 a21 a22 a23
    := g in
  mk a0 a1 a2 a3 a4 a5 a6 a7 a8 a9 a10 a11 a12 a13 a14 a15 v a17 a18 a19 a20
    a21 a22 a23.
Definition set_line_clear_animation (v : Z) (g : t) : t :=
  let 'mk a0 a1 a2 a3 a4 a5 a6 a7 a8 a9 a10 a11 a12 a13 a14 a15 a16 _ a18
      a19 a20 a21 a22 a23
    := g in
  mk a0 a1 a2 a3 a4 a5 a6 a7 a8 a9 a10 a11 a12 a13 a14 a15 a16 v a18 a19 a20
    a21 a22 a23.
Definition set_line_clear_rows (v : list Z) (g : t) : t :=
  let 'mk a0 a1 a2 a3 a4 a5 a6 a7 a8 a9 a10 a11 a12 a13 a14 a15 a16 a17 _
      a19 a20 a21 a22 a23
    := g in
  mk a0 a1 a2 a3 a4 a5 a6 a7 a8 a9 a10 a11 a12 a13 a14 a15 a16 a17 v a19 a20
    a21 a22 a23.
Definition set_screen_shake (v : Z) (g : t) : t :=
  let 'mk a0 a1 a2 a3 a4 a5 a6 a7 a8 a9 a10 a11 a12 a13 a14 a15 a16 a17 a18
      _ a20 a21 a22 a23
    := g in
  mk a0 a1 a2 a3 a4 a5 a6 a7 a8 a9 a10 a11 a12 a13 a14 a15 a16 a17 a18 v a20
    a21 a22 a23.
Definition set_flash_effect (v : Z) (g : t) : t :=
  let 'mk a0 a1 a2 a3 a4 a5 a6 a7 a8 a9 a10 a11 a12 a13 a14 a15 a16 a17 a18
      a19 _ a21 a22 a23
    := g in
  mk a0 a1 a2 a3 a4 a5 a6 a7 a8 a9 a10 a11 a12 a13 a14 a15 a16 a17 a18 a19 v
    a21 a22 a23.
Definition set_high_scores (v : list Z) (g : t) : t :=
  let 'mk a0 a1 a2 a3 a4 a5 a6 a7 a8 a9 a10 a11 a12 a13 a14 a15 a16 a17 a18
      a19 a20 _ a22 a23
    := g in
  mk a0 a1 a2 a3 a4 a5 a6 a7 a8 a9 a10 a11 a12 a13 a14 a15 a16 a17 a18 a19
    a20 v a22 a23.
Definition set_shuffles (v : nat) (g : t) : t :=
  let 'mk a0 a1 a2 a3 a4 a5 a6 a7 a8 a9 a10 a11 a12 a13 a14 a15 a16 a17 a18
      a19 a20 a21 _ a23
    := g in
  mk a0 a1 a2 a3 a4 a5 a6 a7 a8 a9 a10 a11 a12 a13 a14 a15 a16 a17 a18 a19
    a20 a21 v a23.
Definition set_score_file (v : list (list Z)) (g : t) : t :=
  let 'mk a0 a1 a2 a3 a4 a5 a6 a7 a8 a9 a10 a11 a12 a13 a14 a15 a16 a17 a18
      a19 a20 a21 a22 _
    := g in
  mk a0 a1 a2 a3 a4 a5 a6 a7 a8 a9 a10 a11 a12 a13 a14 a15 a16 a17 a18 a19
    a20 a21 a22 v.

Definition calculate_drop_speed (g : t) : Z :=
  Z.max 50 (500 - (level g - 1) * 50).

(** [line_scores.get(lines_cleared, 0)] *)
Definition line_scores_get (n : Z) : Z :=
  if decide (n = 1) then 100
  else if decide (n = 2) then 300
  else if decide (n = 3) then 500
  else if decide (n = 4) then 800
  else 0.

Definition calculate_score (lines : Z) (g : t) : t :=
  if decide (lines = 0) then set_combo 0 g
  else
    let base_score := line_scores_get lines * level g in
    let combo_bonus :=
      if decide (combo g > 0) then 50 * combo g * level g else 0 in
    let g := set_score (score g + (base_score + combo_bonus)) g in
    let g := set_lines_cleared (lines_cleared g + lines) g in
    let g := set_combo (combo g + 1) g in
    let new_level := lines_cleared g `div` 10 + 1 in
    if decide (new_level > level g) then
      let g := set_level new_level g in
      set_drop_speed (calculate_drop_speed g) g
    else g.

(** [all(self.grid[y][x] != 0 for x in xs)]: stops at the first zero. *)
Fixpoint all_nonzero (grid : list (list Z)) (y : Z) (xs : list Z) : Res bool :=
  match xs with
  | [] => Ok true
  | x :: xs' =>
      row ← Py.getitem grid y;
      c ← Py.getitem row x;
      if decide (c ≠ 0) then all_nonzero grid y xs' else Ok false
  end.

(** The scan of [clear_lines]: the [y] of [ys], in order, whose row is
    full.  The grid is not changed during the scan. *)
Fixpoint scan_lines (grid : list (list Z)) (ys : list Z) : Res (list Z) :=
  match ys with
  | [] => Ok []
  | y :: ys' =>
      full ← all_nonzero grid y (Py.range GRID_WIDTH);
      rest ← scan_lines grid ys';
      Ok (if full : bool then y :: rest else rest)
  end.

(** The removal loop of [clear_lines]: for each [y] in turn,
    [del self.grid[y]] and then [self.grid.insert(0, [0] * GRID_WIDTH)]. *)
Fixpoint remove_lines (ys : list Z) (grid : list (list Z))
  : Res (list (list Z)) :=
  match ys with
  | [] => Ok grid
  | y :: ys' =>
      grid ← Py.delitem grid y;
      remove_lines ys' (replicate (Z.to_nat GRID_WIDTH) 0 :: grid)
  end.

(** The rebuild of [locked_positions] in [clear_lines]. *)
Definition shift_locked (lines : list Z) (locked : Py.dict (Z * Z) Z)
  : Py.dict (Z * Z) Z :=
  foldl (λ new_locked '((x, py), color),
           let lines_below :=
             Z.of_nat (length (filter (λ line_y, line_y > py) lines)) in
           let new_y := py + lines_below in
           if decide (new_y < GRID_HEIGHT)
           then Py.dict_set new_locked (x, new_y) color
           else new_locked)
        [] locked.

Definition create_line_clear_effect (rows : list Z) (g : t) : t :=
  set_flash_effect 10 (set_line_clear_rows rows (set_line_clear_animation 30 g)).

Definition clear_lines (g : t) : Res (Z * t) :=
  lines_to_clear ← scan_lines (grid g) (Py.range GRID_HEIGHT);
  match lines_to_clear with
  | [] => Ok (0, g)
  | _ :: _ =>
      let g := create_line_clear_effect lines_to_clear g in
      let g :=
        if decide (length lines_to_clear = 4%nat)
        then set_screen_shake 8 g else set_screen_shake 4 g in
      grid' ← remove_lines (Py.sorted_desc lines_to_clear) (grid g);
      let g := set_grid grid' g in
      let g := set_locked_positions
                 (shift_locked lines_to_clear (locked_positions g)) g in
      Ok (Z.of_nat (length lines_to_clear), g)
  end.

(** The cell-committing loops of [lock_piece].  The accumulator is the
    grid, [locked_positions], and the list (latest first) of the index
    pairs [(grid_y, grid_x)] used by the assignments
    [self.grid[grid_y][grid_x] = color] that were executed. *)
Definition LockAcc : Type := list (list Z) * Py.dict (Z * Z) Z * list (Z * Z).

Fixpoint lock_row (p : Tetrimino.t) (grid_y dx : Z) (row : list Z)
  (acc : LockAcc) : Res LockAcc :=
  match row with
  | [] => Ok acc
  | value :: rest =>
      if decide (value ≠ 0) then
        let grid_x := Tetrimino.x p + dx in
        if decide (0 ≤ grid_y < GRID_HEIGHT) then
          let '(grid, locked, writes) := acc in
          r ← Py.getitem grid grid_y;
          r ← Py.setitem r grid_x (Tetrimino.color p);
          grid ← Py.setitem grid grid_y r;
          lock_row p grid_y (dx + 1) rest
            (grid, Py.dict_set locked (grid_x, grid_y) (Tetrimino.color p),
             (grid_y, grid_x) :: writes)
        else lock_row p grid_y (dx + 1) rest acc
      else lock_row p grid_y (dx + 1) rest acc
  end.

Fixpoint lock_rows (p : Tetrimino.t) (dy : Z) (sh : list (list Z))
  (acc : LockAcc) : Res LockAcc :=
  match sh with
  | [] => Ok acc
  | row :: rest =>
      acc ← lock_row p (Tetrimino.y p + dy) 0 row acc;
      lock_rows p (dy + 1) rest acc
  end.

Definition lock_cells (p : Tetrimino.t) (g : t) : Res LockAcc :=
  lock_rows p 0 (Tetrimino.shape p) (grid g, locked_positions g, []).

Definition move_piece (g : t) (dx dy : Z) (rotate : bool) : Res (bool * t) :=
  match current_piece g with
  | None => Ok (false, g)
  | Some p =>
      if decide (state g ≠ PLAYING) then Ok (false, g)
      else
        let old_shape := Tetrimino.shape p in
        let p :=
          if rotate
          then Tetrimino.set_shape (Tetrimino.rotate (Tetrimino.shape p)) p
          else p in
        let p := Tetrimino.set_x (Tetrimino.x p + dx) p in
        let p := Tetrimino.set_y (Tetrimino.y p + dy) p in
        ok ← Tetrimino._valid_position (Tetrimino.x p) (Tetrimino.y p)
               (Tetrimino.shape p) (grid g);
        if ok : bool then Ok (true, set_current_piece (Some p) g)
        else
          let p := Tetrimino.set_x (Tetrimino.x p - dx) p in
          let p := Tetrimino.set_y (Tetrimino.y p - dy) p in
          let p := if rotate then Tetrimino.set_shape old_shape p else p in
          Ok (false, set_current_piece (Some p) g)
  end.

(** [save_high_score]: append, sort descending, keep ten, dump. *)
Definition save_high_score (g : t) : t :=
  let hs := take 10 (Py.sorted_desc (high_scores g ++ [score g])) in
  set_score_file (hs :: score_file g) (set_high_scores hs g).

(** What [draw_grid] does to the effect counters. *)
Definition draw_grid (g : t) : t :=
  let g := if decide (screen_shake g > 0)
           then set_screen_shake (screen_shake g - 1) g else g in
  let g := if decide (flash_effect g > 0)
           then set_flash_effect (flash_effect g - 1) g else g in
  if decide (line_clear_animation g > 0) then
    let g := set_line_clear_animation (line_clear_animation g - 1) g in
    if decide (line_clear_animation g = 0) then set_line_clear_rows [] g else g
  else g.

Section WithShuffle.

(** [shuffle n l] is the order in which the [n]-th call of
    [random.shuffle] of a run leaves the list [l]. *)
Variable shuffle : nat → list PieceType → list PieceType.

Definition refill_bag (g : t) : t :=
  set_shuffles (S (shuffles g))
    (set_piece_bag (shuffle (shuffles g) SHAPES_keys) g).

Definition get_next_piece (g : t) : Res (PieceType * t) :=
  let g := match piece_bag g with [] => refill_bag g | _ :: _ => g end in
  '(pt, bag) ← Py.pop_back (piece_bag g);
  Ok (pt, set_piece_bag bag g).

(** The [while len(self.next_pieces) < 3] loop, [n] rounds of it. *)
Fixpoint fill_next_pieces (n : nat) (g : t) : Res t :=
  match n with
  | O => Ok g
  | S n' =>
      '(piece_type, g) ← get_next_piece g;
      fill_next_pieces n'
        (set_next_pieces (next_pieces g ++ [Tetrimino.init piece_type]) g)
  end.

Definition generate_next_pieces (g : t) : Res t :=
  g ← match current_piece g with
      | None =>
          '(pt, g) ← get_next_piece g;
          Ok (set_current_piece (Some (Tetrimino.init pt)) g)
      | Some _ => Ok g
      end;
  fill_next_pieces (3 - length (next_pieces g))%nat g.

(** [reset_game], at clock reading [now].  [drop_time], [drop_speed], the
    effect counters, [high_scores] and [state] are not assigned by it. *)
Definition reset_game (now : Z) (g : t) : Res t :=
  let g := set_grid
             (replicate (Z.to_nat GRID_HEIGHT) (replicate (Z.to_nat GRID_WIDTH) 0))
             g in
  let g := set_locked_positions [] g in
  let g := set_current_piece None g in
  let g := set_next_pieces [] g in
  let g := set_score 0 g in
  let g := set_lines_cleared 0 g in
  let g := set_level 1 g in
  let g := set_combo 0 g in
  let g := set_hold_piece None g in
  let g := set_can_hold true g in
  let g := set_piece_bag [] g in
  let g := set_stats ((λ piece, (piece, 0)) <$> SHAPES_keys) g in
  let g := set_total_pieces 0 g in
  let g := set_start_time now g in
  generate_next_pieces g.

(** [__init__], at clock reading [now], with [stored] what
    [load_high_scores] returns (the file's list, or [[]] when the file is
    missing or unreadable).  A score file that holds JSON other than a
    list of numbers is not covered: [high_scores] is a list of integers
    here. *)
Definition init (now : Z) (stored : list Z) : Res t :=
  g ← reset_game now
        {| state := MENU; grid := []; locked_positions := [];
           current_piece := None; next_pieces := []; score := 0;
           lines_cleared := 0; level := 0; combo := 0; hold_piece := None;
           can_hold := false; piece_bag := []; stats := [];
           total_pieces := 0; start_time := 0; drop_time := 0;
           drop_speed := 0; line_clear_animation := 0;
           line_clear_rows := []; screen_shake := 0; flash_effect := 0;
           high_scores := []; shuffles := 0; score_file := [] |};
  let g := set_drop_time 0 g in
  let g := set_drop_speed 500 g in
  let g := set_line_clear_animation 0 g in
  let g := set_line_clear_rows [] g in
  let g := set_screen_shake 0 g in
  let g := set_flash_effect 0 g in
  let g := set_total_pieces 0 g in
  let g := set_start_time now g in
  Ok (set_high_scores stored g).

Definition spawn_next_piece (g : t) : Res t :=
  '(p, rest) ← Py.pop_front (next_pieces g);
  let g := set_next_pieces rest (set_current_piece (Some p) g) in
  g ← generate_next_pieces g;
  let g := set_can_hold true g in
  let g := set_total_pieces (total_pieces g + 1) g in
  match current_piece g with
  | None => Raise AttributeError
  | Some p =>
      ok ← Tetrimino._valid_position (Tetrimino.x p) (Tetrimino.y p)
             (Tetrimino.shape p) (grid g);
      if ok : bool then Ok g else Ok (set_state GAME_OVER g)
  end.

Definition lock_piece (g : t) : Res t :=
  match current_piece g with
  | None => Ok g
  | Some p =>
      '(grid', locked', _) ← lock_cells p g;
      let g := set_locked_positions locked' (set_grid grid' g) in
      n ← Py.dict_get (stats g) (Tetrimino.piece_type p);
      let g := set_stats
                 (Py.dict_set (stats g) (Tetrimino.piece_type p) (n + 1)) g in
      '(lines_cleared, g) ← clear_lines g;
      let g := calculate_score lines_cleared g in
      spawn_next_piece g
  end.

(** The [while self.move_piece(0, 1)] loop of [hard_drop].  A round that
    succeeds moves the piece one row down, so the loop ends within
    [GRID_HEIGHT - y] rounds unless the shape has no occupied cell, in
    which case the Python loop does not end: [Raise Diverges]. *)
Fixpoint drop_loop (fuel : nat) (drop_distance : Z) (g : t) : Res (Z * t) :=
  match fuel with
  | O => Raise Diverges
  | S fuel' =>
      '(moved, g) ← move_piece g 0 1 false;
      if moved : bool then drop_loop fuel' (drop_distance + 1) g
      else Ok (drop_distance, g)
  end.

Definition hard_drop (g : t) : Res t :=
  match current_piece g with
  | None => Ok g
  | Some p =>
      '(drop_distance, g) ←
        drop_loop (S (Z.to_nat (GRID_HEIGHT - Tetrimino.y p))) 0 g;
      let g := set_score (score g + drop_distance * 2) g in
      lock_piece g
  end.

Definition hold_current_piece (g : t) : Res t :=
  if negb (can_hold g) then Ok g
  else
    match current_piece g with
    | None => Ok g
    | Some p =>
        g ← match hold_piece g with
            | None =>
                let g := set_hold_piece
                           (Some (Tetrimino.init (Tetrimino.piece_type p))) g in
                spawn_next_piece g
            | Some h =>
                let temp_type := Tetrimino.piece_type p in
                let g := set_current_piece
                           (Some (Tetrimino.init (Tetrimino.piece_type h))) g in
                Ok (set_hold_piece (Some (Tetrimino.init temp_type)) g)
            end;
        Ok (set_can_hold false g)
    end.

(** One [KEYDOWN] event in [handle_events]; the boolean is [false] where
    the Python code returns [False] (quit). *)
Definition handle_key (now : Z) (k : Key) (g : t) : Res (bool * t) :=
  match state g with
  | MENU =>
      match k with
      | K_SPACE => g ← reset_game now (set_state PLAYING g); Ok (true, g)
      | _ => Ok (true, g)
      end
  | PLAYING =>
      match k with
      | K_LEFT => '(_, g) ← move_piece g (-1) 0 false; Ok (true, g)
      | K_RIGHT => '(_, g) ← move_piece g 1 0 false; Ok (true, g)
      | K_DOWN =>
          '(moved, g) ← move_piece g 0 1 false;
          Ok (true, if moved : bool then set_score (score g + 1) g else g)
      | K_UP => '(_, g) ← move_piece g 0 0 true; Ok (true, g)
      | K_SPACE => g ← hard_drop g; Ok (true, g)
      | K_c => g ← hold_current_piece g; Ok (true, g)
      | K_p => Ok (true, set_state PAUSED g)
      | _ => Ok (true, g)
      end
  | PAUSED =>
      match k with
      | K_p => Ok (true, set_state PLAYING g)
      | _ => Ok (true, g)
      end
  | GAME_OVER =>
      match k with
      | K_r => g ← reset_game now (set_state PLAYING g); Ok (true, g)
      | K_q => Ok (false, g)
      | _ => Ok (true, g)
      end
  end.

Fixpoint handle_events (now : Z) (events : list Event) (g : t)
  : Res (bool * t) :=
  match events with
  | [] => Ok (true, g)
  | QUIT :: _ => Ok (false, g)
  | KEYDOWN k :: rest =>
      '(running, g) ← handle_key now k g;
      if running : bool then handle_events now rest g else Ok (false, g)
  | OTHER_EVENT :: rest => handle_events now rest g
  end.

(** [update], at clock reading [current_time]. *)
Definition update (current_time : Z) (g : t) : Res t :=
  if decide (state g ≠ PLAYING) then Ok g
  else if decide (current_time - drop_time g > drop_speed g) then
    '(moved, g) ← move_piece g 0 1 false;
    g ← (if moved : bool then Ok g else lock_piece g);
    Ok (set_drop_time current_time g)
  else Ok g.

(** One round of the [while running] loop of [run]: the events of the
    frame, the update, and the drawing branch (of which only
    [save_high_score] and the effect counters touch the game object).
    The pygame calls of the drawing methods, [draw_side_panel] among
    them, are not modelled, nor is anything they may raise. *)
Definition frame (now : Z) (events : list Event) (g : t) : Res (bool * t) :=
  '(running, g) ← handle_events now events g;
  g ← update now g;
  let g :=
    match state g with
    | MENU => g
    | PAUSED | PLAYING => draw_grid g
    | GAME_OVER => save_high_score (draw_grid g)
    end in
  Ok (running, g).

(** [run] over the frames given by [inputs] (clock reading and events of
    each frame); it stops after the frame in which [running] became false. *)
Fixpoint run (inputs : list (Z * list Event)) (g : t) : Res t :=
  match inputs with
  | [] => Ok g
  | (now, events) :: rest =>
      '(running, g) ← frame now events g;
      if running : bool then run rest g else Ok g
  end.

End WithShuffle.

End TetrisGame.

(** * Vocabulary of the properties *)

Import TetrisGame.

(** A board as [reset_game] builds it: [GRID_HEIGHT] rows of
    [GRID_WIDTH] cells. *)
Definition wf_grid (grid : list (list Z)) : Prop :=
  length grid = Z.to_nat GRID_HEIGHT ∧
  Forall (λ row, length row = Z.to_nat GRID_WIDTH) grid.

(** The content of the board at column [col], row [row], when the cell
    exists. *)
Definition board_cell (grid : list (list Z)) (col row : Z) : option Z :=
  if decide (0 ≤ row ∧ 0 ≤ col)
  then grid !! Z.to_nat row ≫= λ r, r !! Z.to_nat col
  else None.

(** Cell [(dr, dc)] of the shape matrix is occupied. *)
Definition occupied (sh : list (list Z)) (dr dc : nat) : Prop :=
  ∃ row v, sh !! dr = Some row ∧ row !! dc = Some v ∧ v ≠ 0.

(** What makes one board coordinate unusable for a piece cell. *)
Definition blocked (grid : list (list Z)) (col row : Z) : Prop :=
  col < 0 ∨ col >= GRID_WIDTH ∨ row >= GRID_HEIGHT ∨
  (row >= 0 ∧ ∃ v, board_cell grid col row = Some v ∧ v ≠ 0).

(** The empty board of a fresh game. *)
Definition empty_grid : list (list Z) :=
  replicate (Z.to_nat GRID_HEIGHT) (replicate (Z.to_nat GRID_WIDTH) 0).

(** An index pair [(grid_y, grid_x)] inside the board. *)
Definition in_board (w : Z * Z) : Prop :=
  0 ≤ w.1 < GRID_HEIGHT ∧ 0 ≤ w.2 < GRID_WIDTH.

(** What the cell loop keeps true of its accumulator, [grid0] being the
    board it started from. *)
Definition lock_inv (grid0 : list (list Z)) (color : Z) (acc : LockAcc)
  : Prop :=
  let '(grid, _, writes) := acc in
  wf_grid grid ∧ Forall in_board writes ∧
  (∀ c r, (r, c) ∈ writes → board_cell grid c r = Some color) ∧
  (∀ c r, (r, c) ∉ writes → board_cell grid c r = board_cell grid0 c r).

(** A concrete running game: the empty board, a T piece falling, three
    pieces queued, three left in the bag. *)
Definition sample_game : TetrisGame.t :=
  {| state := PLAYING; grid := empty_grid; locked_positions := [];
     current_piece := Some (Tetrimino.init kT);
     next_pieces := [Tetrimino.init kJ; Tetrimino.init kZ; Tetrimino.init kS];
     score := 0; lines_cleared := 0; level := 1; combo := 0;
     hold_piece := None; can_hold := true; piece_bag := [kI; kO; kL];
     stats := (λ piece, (piece, 0)) <$> SHAPES_keys;
     total_pieces := 0; start_time := 0; drop_time := 0; drop_speed := 500;
     line_clear_animation := 0; line_clear_rows := []; screen_shake := 0;
     flash_effect := 0; high_scores := []; shuffles := 1; score_file := [] |}.

(** The piece [move_piece] tries: rotated when asked, then shifted. *)
Definition moved_piece (p : Tetrimino.t) (dx dy : Z) (rotate : bool)
  : Tetrimino.t :=
  {| Tetrimino.piece_type := Tetrimino.piece_type p;
     Tetrimino.shape :=
       if rotate then Tetrimino.rotate (Tetrimino.shape p)
       else Tetrimino.shape p;
     Tetrimino.color := Tetrimino.color p;
     Tetrimino.x := Tetrimino.x p + dx;
     Tetrimino.y := Tetrimino.y p + dy;
     Tetrimino.rotation_state := Tetrimino.rotation_state p |}.

(** [level] is the one the lines cleared so far call for. *)
Definition level_ok (g : TetrisGame.t) : Prop :=
  level g = lines_cleared g `div` 10 + 1.

(** A run of the program in which [random.shuffle] always leaves the bag
    in the order of [SHAPES]. *)
Definition fixed_shuffle : nat → list PieceType → list PieceType := λ _ l, l.

(** The sample game, paused, with the T piece half-way down. *)
Definition paused_game : TetrisGame.t :=
  set_state PAUSED
    (set_current_piece (Some (Tetrimino.set_y 10 (Tetrimino.init kT)))
       sample_game).

(** The bag and the shuffle count, the only fields [get_next_piece]
    assigns. *)
Definition with_bag (bag : list PieceType) (n : nat) (g : TetrisGame.t)
  : TetrisGame.t :=
  set_shuffles n (set_piece_bag bag g).

(** Events that do not ask for a restart. *)
Definition no_restart (events : list Event) : Prop := KEYDOWN K_r ∉ events.

(** A board on which the next piece of [sample_game] cannot spawn. *)
Definition blocked_game : TetrisGame.t :=
  set_grid (<[1%nat:=[0; 0; 0; 0; 7; 0; 0; 0; 0; 0]]> empty_grid) sample_game.

(** The [KEYDOWN] events of one frame. *)
Definition keys (ks : list Key) : list Event := KEYDOWN <$> ks.

(** Eleven frames of play from the menu: the start key, then ten pieces
    placed. *)
Definition double_clear_prefix : list (Z * list Event) :=
  [(17, keys [K_SPACE]);
   (34, keys [K_RIGHT; K_RIGHT; K_RIGHT; K_SPACE]);
   (51, keys [K_LEFT; K_LEFT; K_LEFT; K_LEFT; K_LEFT; K_LEFT; K_SPACE]);
   (68, keys [K_LEFT; K_LEFT; K_LEFT; K_LEFT; K_LEFT; K_LEFT; K_SPACE]);
   (85, keys [K_RIGHT; K_RIGHT; K_RIGHT; K_SPACE]);
   (102, keys [K_LEFT; K_SPACE]);
   (119, keys [K_LEFT; K_LEFT; K_LEFT; K_LEFT; K_LEFT; K_LEFT; K_SPACE]);
   (136, keys [K_UP; K_LEFT; K_SPACE]);
   (153, keys [K_UP; K_LEFT; K_LEFT; K_LEFT; K_LEFT; K_LEFT; K_LEFT; K_SPACE]);
   (170, keys [K_UP; K_UP; K_UP; K_RIGHT; K_RIGHT; K_RIGHT; K_RIGHT; K_SPACE]);
   (187, keys [K_UP; K_LEFT; K_SPACE])].

(** A whole game from the menu: ten lines cleared (level 2), then pieces
    piled up until the spawn is blocked. *)
Definition level2_inputs : list (Z * list Event) :=
  [(17, keys [K_SPACE]);
   (34, keys [K_RIGHT; K_RIGHT; K_RIGHT; K_SPACE]);
   (51, keys [K_LEFT; K_LEFT; K_LEFT; K_LEFT; K_LEFT; K_LEFT; K_SPACE]);
   (68, keys [K_LEFT; K_LEFT; K_LEFT; K_LEFT; K_LEFT; K_LEFT; K_SPACE]);
   (85, keys [K_RIGHT; K_RIGHT; K_RIGHT; K_SPACE]);
   (102, keys [K_LEFT; K_SPACE]);
   (119, keys [K_LEFT; K_LEFT; K_LEFT; K_LEFT; K_LEFT; K_LEFT; K_SPACE]);
   (136, keys [K_UP; K_RIGHT; K_RIGHT; K_RIGHT; K_SPACE]);
   (153, keys [K_UP; K_UP; K_RIGHT; K_RIGHT; K_RIGHT; K_SPACE]);
   (170, keys [K_RIGHT; K_RIGHT; K_RIGHT; K_SPACE]);
   (187, keys [K_RIGHT; K_RIGHT; K_RIGHT; K_SPACE]);
   (204, keys [K_UP; K_LEFT; K_LEFT; K_SPACE]);
   (221, keys [K_UP; K_UP; K_UP; K_SPACE]);
   (238, keys [K_RIGHT; K_SPACE]);
   (255, keys [K_UP; K_RIGHT; K_RIGHT; K_RIGHT; K_RIGHT; K_RIGHT; K_RIGHT; K_SPACE]);
   (272, keys [K_LEFT; K_LEFT; K_SPACE]);
   (289, keys [K_UP; K_UP; K_UP; K_RIGHT; K_RIGHT; K_RIGHT; K_SPACE]);
   (306, keys [K_UP; K_LEFT; K_SPACE]);
   (323, keys [K_UP; K_RIGHT; K_SPACE]);
   (340, keys [K_LEFT; K_LEFT; K_LEFT; K_LEFT; K_LEFT; K_LEFT; K_SPACE]);
   (357, keys [K_RIGHT; K_RIGHT; K_SPACE]);
   (374, keys [K_LEFT; K_LEFT; K_LEFT; K_LEFT; K_LEFT; K_LEFT; K_SPACE]);
   (391, keys [K_UP; K_UP; K_LEFT; K_LEFT; K_SPACE]);
   (408, keys [K_UP; K_UP; K_UP; K_LEFT; K_LEFT; K_LEFT; K_LEFT; K_LEFT; K_LEFT; K_SPACE]);
   (425, keys [K_LEFT; K_LEFT; K_SPACE]);
   (442, keys [K_UP; K_LEFT; K_SPACE]);
   (459, keys [K_RIGHT; K_RIGHT; K_RIGHT; K_SPACE]);
   (476, keys [K_LEFT; K_LEFT; K_LEFT; K_SPACE]);
   (493, keys [K_UP; K_LEFT; K_LEFT; K_LEFT; K_LEFT; K_LEFT; K_LEFT; K_SPACE]);
   (510, keys [K_UP; K_RIGHT; K_SPACE]);
   (527, keys [K_UP; K_UP; K_LEFT; K_LEFT; K_SPACE]);
   (544, keys [K_UP; K_LEFT; K_LEFT; K_LEFT; K_LEFT; K_LEFT; K_LEFT; K_SPACE]);
   (561, keys [K_RIGHT; K_RIGHT; K_SPACE]);
   (578, keys [K_UP; K_UP; K_RIGHT; K_SPACE]);
   (595, keys [K_RIGHT; K_RIGHT; K_RIGHT; K_RIGHT; K_SPACE]);
   (612, keys [K_SPACE]);
   (629, keys [K_SPACE]);
   (646, keys [K_SPACE]);
   (663, keys [K_SPACE]);
   (680, keys [K_SPACE]);
   (697, keys [K_SPACE]);
   (714, keys [K_SPACE]);
   (731, keys [K_SPACE]);
   (748, keys [K_SPACE])].

(** The program started at clock reading 0 with no score file, then run
    over the frames [inputs]. *)
Definition run_program (inputs : list (Z * list Event)) : Res TetrisGame.t :=
  g ← init fixed_shuffle 0 []; run fixed_shuffle inputs g.

(** A row with no empty cell. *)
Definition row_is_full (row : list Z) : bool :=
  forallb (λ c, bool_decide (c ≠ 0)) row.

(** [clearFullRows] as the specification words it: the rows that are not
    full stay in their order, the full ones go, and as many empty rows
    come in at the top; the result is the new board and the count. *)
Definition clearFullRows_spec (board : list (list Z)) : list (list Z) * Z :=
  let remaining := filter (λ row, ¬ row_is_full row) board in
  let n := (length board - length remaining)%nat in
  (replicate n (replicate (Z.to_nat GRID_WIDTH) 0) ++ remaining, Z.of_nat n).

(** The board [clear_lines] is called on in the twelfth frame of the run
    [double_clear_prefix ++ [(204, keys [K_UP; K_RIGHT; K_SPACE])]]: an S
    piece has just completed rows 18 and 19; row 17 has two gaps. *)
Definition double_clear_board : list (list Z) :=
  replicate 12 (replicate 10 0) ++
  [[3; 0; 0; 0; 0; 0; 0; 0; 0; 0];
   [3; 0; 0; 0; 0; 0; 0; 0; 0; 0];
   [3; 3; 1; 0; 0; 0; 0; 0; 0; 2];
   [4; 4; 1; 0; 0; 0; 0; 0; 0; 2];
   [4; 4; 1; 0; 7; 0; 0; 0; 2; 2];
   [7; 7; 1; 7; 7; 5; 0; 0; 5; 5];
   [2; 7; 7; 7; 6; 5; 5; 5; 5; 3];
   [2; 2; 2; 6; 6; 6; 5; 3; 3; 3]].

Definition double_clear_game : TetrisGame.t :=
  set_grid double_clear_board sample_game.

(** The indices, counted from [a], of the full rows among [rows]. *)
Fixpoint full_indices (a : nat) (rows : list (list Z)) : list Z :=
  match rows with
  | [] => []
  | row :: rows' =>
      if row_is_full row
      then Z.of_nat a :: full_indices (S a) rows'
      else full_indices (S a) rows'
  end.

(** The shape of [p] is the base shape of its type, turned some number
    of times. *)
Definition rotation_of_base (p : Tetrimino.t) : Prop :=
  ∃ k, Tetrimino.shape p
       = Nat.iter k Tetrimino.rotate (SHAPES_shape (Tetrimino.piece_type p)).

(** A piece as [Tetrimino(piece_type)] makes it. *)
Definition fresh_piece (p : Tetrimino.t) : Prop :=
  ∃ pt, p = Tetrimino.init pt.

(** What holds of the game object between frames. *)
Definition game_inv (g : TetrisGame.t) : Prop :=
  wf_grid (grid g) ∧ level_ok g ∧
  (∃ p, current_piece g = Some p ∧ rotation_of_base p) ∧
  length (next_pieces g) = 3%nat ∧ Forall fresh_piece (next_pieces g).

(** The fields [game_inv] reads. *)
Definition core (g : TetrisGame.t) :=
  (grid g, level g, lines_cleared g, current_piece g, next_pieces g).

(** The states the program passes through between frames, for a given
    behaviour of [random.shuffle]. *)
Inductive reachable (shuffle : nat → list PieceType → list PieceType)
  : TetrisGame.t → Prop :=
| reachable_init now stored g :
    init shuffle now stored = Ok g → reachable shuffle g
| reachable_frame now events g running g' :
    reachable shuffle g →
    frame shuffle now events g = Ok (running, g') →
    reachable shuffle g'.

(** A game in which the hold slot is taken and the spawn place of the
    held O piece is occupied. *)
Definition hold_swap_game : TetrisGame.t :=
  set_hold_piece (Some (Tetrimino.init kO))
    (set_current_piece (Some (Tetrimino.set_x 0 (Tetrimino.init kT)))
       blocked_game).

(** Some cell of the shape matrix is occupied. *)
Definition has_cell (sh : list (list Z)) : bool :=
  existsb (existsb (λ v, bool_decide (v ≠ 0))) sh.

(** A matrix of [R] rows of [C] cells. *)
Definition rect (R C : nat) (m : list (list Z)) : Prop :=
  length m = R ∧ Forall (λ row, length row = C) m.

(** Cell [j] of row [i] of a matrix, when it exists. *)
Definition matrix_cell (m : list (list Z)) (i j : nat) : option Z :=
  m !! i ≫= λ row, row !! j.

(** [n] calls of [get_next_piece] in a row: the piece types they return,
    in order, and the game object after the last. *)
Fixpoint draw_pieces (shuffle : nat → list PieceType → list PieceType)
  (n : nat) (g : TetrisGame.t) : Res (list PieceType * TetrisGame.t) :=
  match n with
  | O => Ok ([], g)
  | S n' =>
      '(pt, g) ← get_next_piece shuffle g;
      '(pts, g) ← draw_pieces shuffle n' g;
      Ok (pt :: pts, g)
  end.

(** Every occupied cell of the piece is between the side walls. *)
Definition in_columns (p : Tetrimino.t) : Prop :=
  ∀ dr dc : nat, occupied (Tetrimino.shape p) dr dc →
    0 ≤ Tetrimino.x p + Z.of_nat dc < GRID_WIDTH.

(** [stats] has an entry for every piece type. *)
Definition stats_ok (g : TetrisGame.t) : Prop :=
  ∀ pt, ∃ n, Py.dict_get (stats g) pt = Ok n.

(** [game_inv], and what the loops and lookups of a frame need besides. *)
Definition safe_inv (g : TetrisGame.t) : Prop :=
  game_inv g ∧ stats_ok g ∧
  ∀ p, current_piece g = Some p → in_columns p.

(** [drop_speed] is what [calculate_drop_speed] gives, and a game still
    in the menu is at level 1. *)
Definition speed_inv (g : TetrisGame.t) : Prop :=
  drop_speed g = calculate_drop_speed g ∧ (state g = MENU → level g = 1).

(** The game object right after the program has started, in a run where
    [random.shuffle] keeps the order of [SHAPES]. *)
Definition start_game : TetrisGame.t :=
  {| state := MENU; grid := empty_grid; locked_positions := [];
     current_piece := Some (Tetrimino.init kL);
     next_pieces := [Tetrimino.init kJ; Tetrimino.init kZ; Tetrimino.init kS];
     score := 0; lines_cleared := 0; level := 1; combo := 0;
     hold_piece := None; can_hold := true; piece_bag := [kI; kO; kT];
     stats := (λ piece, (piece, 0)) <$> SHAPES_keys;
     total_pieces := 0; start_time := 0; drop_time := 0; drop_speed := 500;
     line_clear_animation := 0; line_clear_rows := []; screen_shake := 0;
     flash_effect := 0; high_scores := []; shuffles := 1; score_file := [] |}.

(** Board coordinate [(r, c)] is covered by a cell of the piece. *)
Definition piece_cell (p : Tetrimino.t) (r c : Z) : Prop :=
  ∃ dr dc : nat, occupied (Tetrimino.shape p) dr dc ∧
    r = Tetrimino.y p + Z.of_nat dr ∧ c = Tetrimino.x p + Z.of_nat dc.

(** The counters of the game object. *)
Definition counters (g : TetrisGame.t) :=
  (score g, lines_cleared g, level g, combo g, total_pieces g, drop_speed g,
   screen_shake g, flash_effect g, line_clear_animation g, line_clear_rows g).

(** The ranges the counters stay in. *)
Definition counters_inv (g : TetrisGame.t) : Prop :=
  0 ≤ score g ∧ 0 ≤ lines_cleared g ∧ 1 ≤ level g ∧ 0 ≤ combo g ∧
  0 ≤ total_pieces g ∧ 50 ≤ drop_speed g ≤ 500 ∧
  0 ≤ screen_shake g ≤ 8 ∧ 0 ≤ flash_effect g ≤ 10 ∧
  0 ≤ line_clear_animation g ≤ 30 ∧
  (line_clear_animation g = 0 → line_clear_rows g = []).

(** From [g] to [g'] nothing the player has earned is lost. *)
Definition no_loss (g g' : TetrisGame.t) : Prop :=
  score g ≤ score g' ∧ lines_cleared g ≤ lines_cleared g' ∧
  level g ≤ level g' ∧ total_pieces g ≤ total_pieces g'.

(** Every field of the game object but [current_piece]. *)
Definition other_fields (g : TetrisGame.t) :=
  (state g, grid g, locked_positions g, next_pieces g, score g,
   lines_cleared g, level g, combo g, hold_piece g, can_hold g, piece_bag g,
   stats g, total_pieces g, start_time g, drop_time g, drop_speed g,
   line_clear_animation g, line_clear_rows g, screen_shake g, flash_effect g,
   high_scores g, shuffles g, score_file g).

(** Fourteen frames of play from the menu: the start key, the hold key
    (the first piece, an L, goes to the hold slot), eleven pieces piled up
    into a tower that reaches row 1 in column 6, and the hold key again
    while an O piece is falling. *)
Definition hold_swap_inputs : list (Z * list Event) :=
  [(17, keys [K_SPACE]);
   (34, keys [K_c]);
   (51, keys [K_UP; K_UP; K_UP; K_RIGHT; K_SPACE]);
   (68, keys [K_UP; K_RIGHT; K_SPACE]);
   (85, keys [K_UP; K_RIGHT; K_SPACE]);
   (102, keys [K_UP; K_UP; K_UP; K_RIGHT; K_SPACE]);
   (119, keys [K_RIGHT; K_SPACE]);
   (136, keys [K_UP; K_RIGHT; K_RIGHT; K_RIGHT; K_SPACE]);
   (153, keys [K_SPACE]);
   (170, keys [K_LEFT; K_LEFT; K_LEFT; K_LEFT; K_SPACE]);
   (187, keys [K_LEFT; K_LEFT; K_LEFT; K_LEFT; K_SPACE]);
   (204, keys [K_UP; K_LEFT; K_LEFT; K_LEFT; K_SPACE]);
   (221, keys [K_UP; K_UP; K_RIGHT; K_RIGHT; K_SPACE]);
   (238, keys [K_c])].

(** * Properties *)

(** ** Board size *)

Lemma GRID_WIDTH_eq : GRID_WIDTH = 10.
Proof. reflexivity. Qed.

Lemma GRID_HEIGHT_eq : GRID_HEIGHT = 20.
Proof. reflexivity. Qed.

(** ** Inverting a bind that returned *)

Lemma bind_Ok {A B} (m : Res A) (f : A → Res B) (b : B) :
  m ≫= f = Ok b → ∃ a, m = Ok a ∧ f a = Ok b.
Proof. destruct m as [a|e]; [|done]. intros. by exists a. Qed.

Tactic Notation "inv_bind" hyp(H) "as" simple_intropattern(x) ident(Hx) :=
  apply bind_Ok in H as (x & Hx & H).

(** ** Python indexing inside the bounds *)

Lemma index_in_range {A} (l : list A) (i : Z) :
  0 ≤ i < Z.of_nat (length l) → Py.index l i = Ok (Z.to_nat i).
Proof.
  intros Hi. unfold Py.index. rewrite decide_True by done. done.
Qed.

Lemma getitem_in_range {A} (l : list A) (i : Z) :
  0 ≤ i < Z.of_nat (length l) →
  ∃ a, l !! Z.to_nat i = Some a ∧ Py.getitem l i = Ok a.
Proof.
  intros Hi. unfold Py.getitem. rewrite index_in_range by done. simpl.
  destruct (lookup_lt_is_Some_2 l (Z.to_nat i)) as [a Ha]; [lia|].
  exists a. by rewrite Ha.
Qed.

Lemma wf_grid_row grid (r : Z) :
  wf_grid grid → 0 ≤ r < GRID_HEIGHT →
  ∃ row, grid !! Z.to_nat r = Some row ∧ Py.getitem grid r = Ok row ∧
         length row = Z.to_nat GRID_WIDTH.
Proof.
  intros [Hlen Hrows] Hr.
  destruct (getitem_in_range grid r) as (row & Hrow & Hget); [lia|].
  exists row. split_and!; [done..|].
  eapply Forall_lookup_1 in Hrows; eauto.
Qed.

Lemma wf_grid_cell grid (c r : Z) :
  wf_grid grid → 0 ≤ r < GRID_HEIGHT → 0 ≤ c < GRID_WIDTH →
  ∃ row v, Py.getitem grid r = Ok row ∧ Py.getitem row c = Ok v ∧
           board_cell grid c r = Some v.
Proof.
  intros Hwf Hr Hc.
  destruct (wf_grid_row grid r) as (row & Hrow & Hget & Hlen); [done..|].
  destruct (getitem_in_range row c) as (v & Hv & Hgetv); [lia|].
  exists row, v. split_and!; [done..|].
  unfold board_cell. rewrite decide_True by lia. rewrite Hrow. done.
Qed.

(** ** [_valid_position] *)

Lemma cell_blocked_spec grid (new_x new_y : Z) :
  wf_grid grid →
  ∃ b, Tetrimino.cell_blocked new_x new_y grid = Ok b ∧
       (b = true ↔ blocked grid new_x new_y).
Proof.
  intros Hwf. unfold Tetrimino.cell_blocked, blocked.
  destruct (decide (new_x < 0)); [exists true; naive_solver|].
  destruct (decide (new_x >= GRID_WIDTH)); [exists true; naive_solver|].
  destruct (decide (new_y >= GRID_HEIGHT)); [exists true; naive_solver|].
  destruct (decide (new_y >= 0)) as [Hy|Hy].
  - destruct (wf_grid_cell grid new_x new_y) as (row & v & -> & Hv & Hc);
      [done|lia..|].
    simpl. rewrite Hv. simpl. eexists; split; [done|].
    rewrite bool_decide_eq_true. split.
    + intros Hne. do 3 right. eauto.
    + intros [?|[?|[?|[_ (v' & Hc' & Hne)]]]]; [lia..|]. congruence.
  - exists false. split; [done|]. split; [done|].
    intros [?|[?|[?|[? _]]]]; lia.
Qed.

Lemma valid_row_spec grid (x new_y dx : Z) (row : list Z) :
  wf_grid grid →
  ∃ b, Tetrimino.valid_row x new_y dx row grid = Ok b ∧
       (b = false ↔
        ∃ (dc : nat) v, row !! dc = Some v ∧ v ≠ 0 ∧
                        blocked grid (x + dx + Z.of_nat dc) new_y).
Proof.
  intros Hwf. revert dx. induction row as [|value rest IH]; intros dx; simpl.
  - exists true. split; [done|]. split; [done|].
    intros (dc & v & Hl & _). by rewrite lookup_nil in Hl.
  - destruct (IH (dx + 1)) as (b & Hb & Hiff). clear IH.
    assert (Hshift : ∀ dc : nat,
      x + (dx + 1) + Z.of_nat dc = x + dx + Z.of_nat (S dc)) by (intros; lia).
    destruct (decide (value ≠ 0)) as [Hv|Hv].
    + destruct (cell_blocked_spec grid (x + dx) new_y Hwf) as (c & -> & Hc).
      simpl. destruct c.
      * exists false. split; [done|]. split; [|done]. intros _.
        exists 0%nat, value. split_and!; [done..|].
        replace (x + dx + Z.of_nat 0) with (x + dx) by lia. by apply Hc.
      * exists b. split; [done|]. rewrite Hiff. split.
        -- intros (dc & v & Hl & Hne & Hbl). exists (S dc), v.
           rewrite <- Hshift. done.
        -- intros ([|dc] & v & Hl & Hne & Hbl).
           ++ replace (x + dx + Z.of_nat 0) with (x + dx) in Hbl by lia.
              apply Hc in Hbl. done.
           ++ exists dc, v. rewrite Hshift. done.
    + exists b. split; [done|]. rewrite Hiff. split.
      * intros (dc & v & Hl & Hne & Hbl). exists (S dc), v.
        rewrite <- Hshift. done.
      * intros ([|dc] & v & Hl & Hne & Hbl).
        -- simplify_eq/=. done.
        -- exists dc, v. rewrite Hshift. done.
Qed.

Lemma valid_rows_spec grid (x y dy : Z) (sh : list (list Z)) :
  wf_grid grid →
  ∃ b, Tetrimino.valid_rows x y dy sh grid = Ok b ∧
       (b = false ↔
        ∃ dr dc : nat, occupied sh dr dc ∧
                       blocked grid (x + Z.of_nat dc) (y + dy + Z.of_nat dr)).
Proof.
  intros Hwf. revert dy. induction sh as [|row rest IH]; intros dy; simpl.
  - exists true. split; [done|]. split; [done|].
    intros (dr & dc & (r & v & Hl & _) & _). by rewrite lookup_nil in Hl.
  - destruct (IH (dy + 1)) as (b & Hb & Hiff). clear IH.
    destruct (valid_row_spec grid x (y + dy) 0 row Hwf) as (ok & -> & Hok).
    assert (Hshift : ∀ dr : nat,
      y + (dy + 1) + Z.of_nat dr = y + dy + Z.of_nat (S dr)) by (intros; lia).
    simpl. destruct ok.
    + exists b. split; [done|]. rewrite Hiff. split.
      * intros (dr & dc & (r & v & Hl & Hv & Hne) & Hbl).
        exists (S dr), dc. rewrite <- Hshift. split; [|done].
        exists r, v. done.
      * intros ([|dr] & dc & (r & v & Hl & Hv & Hne) & Hbl).
        -- simplify_eq/=. assert (true = false); [|done]. apply Hok.
           exists dc, v. split_and!; [done..|].
           replace (x + 0 + Z.of_nat dc) with (x + Z.of_nat dc) by lia.
           replace (y + dy) with (y + dy + Z.of_nat 0) by lia. done.
        -- exists dr, dc. rewrite Hshift. split; [|done]. exists r, v. done.
    + exists false. split; [done|]. split; [|done]. intros _.
      destruct Hok as [Hok _]. destruct Hok as (dc & v & Hl & Hne & Hbl); [done|].
      exists 0%nat, dc. split; [exists row, v; done|].
      replace (x + 0 + Z.of_nat dc) with (x + Z.of_nat dc) in Hbl by lia.
      replace (y + dy + Z.of_nat 0) with (y + dy) by lia. done.
Qed.

Lemma wf_grid_empty : wf_grid empty_grid.
Proof. split; [done|]. unfold empty_grid. by apply Forall_replicate. Qed.

(** [_valid_position] on a well-shaped board: it returns, and the answer
    is [False] exactly when some occupied cell is blocked. *)
Lemma valid_position_total (col row : Z) (sh grid : list (list Z)) :
  wf_grid grid →
  ∃ b, Tetrimino._valid_position col row sh grid = Ok b ∧
    (b = false ↔
     ∃ dr dc : nat, occupied sh dr dc ∧
       blocked grid (col + Z.of_nat dc) (row + Z.of_nat dr)).
Proof.
  intros Hwf. unfold Tetrimino._valid_position.
  destruct (valid_rows_spec grid col row 0 sh Hwf) as (b & Hb & Hiff).
  assert (Hz : ∀ dr : nat, row + 0 + Z.of_nat dr = row + Z.of_nat dr)
    by (intros; lia).
  setoid_rewrite Hz in Hiff. by exists b.
Qed.

(** C2: on a board of [GRID_HEIGHT] rows of [GRID_WIDTH] cells,
    [_valid_position] returns, and it returns [False] exactly when some
    occupied cell [(dr, dc)] of the shape lands on a column outside
    [[0, GRID_WIDTH)], or on a row [>= GRID_HEIGHT], or on a row [>= 0]
    whose board cell is non-empty.  Occupied cells above the board
    (row [< 0]) are accepted whatever the board holds. *)
Theorem valid_position_false_iff (col row : Z) (sh grid : list (list Z)) :
  wf_grid grid →
  ∃ b, Tetrimino._valid_position col row sh grid = Ok b ∧
    (b = false ↔
     ∃ dr dc : nat, occupied sh dr dc ∧
       (col + Z.of_nat dc < 0 ∨ col + Z.of_nat dc >= GRID_WIDTH ∨
        row + Z.of_nat dr >= GRID_HEIGHT ∨
        (row + Z.of_nat dr >= 0 ∧
         ∃ v, board_cell grid (col + Z.of_nat dc) (row + Z.of_nat dr) = Some v
              ∧ v ≠ 0))) ∧
    ((∀ dr dc : nat, occupied sh dr dc →
        0 ≤ col + Z.of_nat dc < GRID_WIDTH ∧ row + Z.of_nat dr < 0) →
     b = true).
Proof.
  intros Hwf.
  destruct (valid_position_total col row sh grid Hwf) as (b & Hb & Hiff).
  unfold blocked in Hiff.
  exists b. split_and!; [done..|].
  intros Hup. destruct b; [done|].
  destruct Hiff as [(dr & dc & Hocc & Hbl) _]; [done|].
  destruct (Hup dr dc Hocc). pose proof GRID_HEIGHT_eq.
  destruct Hbl as [?|[?|[?|[? _]]]]; lia.
Qed.

Lemma valid_position_false_iff_witness :
  ∃ b, Tetrimino._valid_position 4 0 (SHAPES_shape kT) empty_grid = Ok b ∧
    (b = false ↔
     ∃ dr dc : nat, occupied (SHAPES_shape kT) dr dc ∧
       (4 + Z.of_nat dc < 0 ∨ 4 + Z.of_nat dc >= GRID_WIDTH ∨
        0 + Z.of_nat dr >= GRID_HEIGHT ∨
        (0 + Z.of_nat dr >= 0 ∧
         ∃ v, board_cell empty_grid (4 + Z.of_nat dc) (0 + Z.of_nat dr) = Some v
              ∧ v ≠ 0))) ∧
    ((∀ dr dc : nat, occupied (SHAPES_shape kT) dr dc →
        0 ≤ 4 + Z.of_nat dc < GRID_WIDTH ∧ 0 + Z.of_nat dr < 0) →
     b = true).
Proof.
  apply (valid_position_false_iff 4 0 (SHAPES_shape kT) empty_grid).
  split; [reflexivity|]. vm_compute. repeat constructor.
Defined.

(** A valid position keeps every occupied cell between the side walls and
    above the floor. *)
Lemma valid_position_bounds (col row : Z) (sh grid : list (list Z)) :
  wf_grid grid →
  Tetrimino._valid_position col row sh grid = Ok true →
  ∀ dr dc : nat, occupied sh dr dc →
    0 ≤ col + Z.of_nat dc < GRID_WIDTH ∧ row + Z.of_nat dr < GRID_HEIGHT.
Proof.
  intros Hwf Hv dr dc Hocc.
  destruct (valid_position_total col row sh grid Hwf) as (b & Hb & Hiff).
  rewrite Hv in Hb. simplify_eq.
  destruct (decide (0 ≤ col + Z.of_nat dc < GRID_WIDTH ∧
                    row + Z.of_nat dr < GRID_HEIGHT)) as [|Hn]; [done|].
  assert (true = false); [|done]. apply Hiff. exists dr, dc. split; [done|].
  unfold blocked. lia.
Qed.

(** ** Rotation *)

(** Four rotations of a base shape give the base shape. *)
Lemma rotate_base_four_times (pt : PieceType) :
  Nat.iter 4 Tetrimino.rotate (SHAPES_shape pt) = SHAPES_shape pt.
Proof. destruct pt; reflexivity. Qed.

(** C9: for each of the seven piece types and every number [k] of
    rotations already applied to its base shape, four more rotations give
    back the same shape matrix. *)
Theorem rotate_four_times (pt : PieceType) (k : nat) :
  Nat.iter 4 Tetrimino.rotate (Nat.iter k Tetrimino.rotate (SHAPES_shape pt))
  = Nat.iter k Tetrimino.rotate (SHAPES_shape pt).
Proof.
  rewrite <- Nat.iter_add, Nat.add_comm, Nat.iter_add.
  by rewrite rotate_base_four_times.
Qed.

(** ** Committing a piece: [lock_piece]'s cell loop *)

Lemma setitem_in_range {A} (l : list A) (i : Z) (v : A) :
  0 ≤ i < Z.of_nat (length l) → Py.setitem l i v = Ok (<[Z.to_nat i:=v]> l).
Proof. intros Hi. unfold Py.setitem. by rewrite index_in_range. Qed.

(** The assignment [self.grid[grid_y][grid_x] = color] with both indices
    inside the board: it succeeds, writes that one cell, and keeps the
    board's shape. *)
Lemma grid_assign grid (gy gx color : Z) :
  wf_grid grid → in_board (gy, gx) →
  ∃ r r' grid',
    Py.getitem grid gy = Ok r ∧ Py.setitem r gx color = Ok r' ∧
    Py.setitem grid gy r' = Ok grid' ∧ wf_grid grid' ∧
    board_cell grid' gx gy = Some color ∧
    (∀ c r0, (r0, c) ≠ (gy, gx) → board_cell grid' c r0 = board_cell grid c r0).
Proof.
  intros Hwf [Hy Hx]; simpl in *.
  destruct (wf_grid_row grid gy Hwf Hy) as (r & Hr & Hget & Hlen).
  destruct Hwf as [Hh Hrows].
  exists r, (<[Z.to_nat gx:=color]> r),
    (<[Z.to_nat gy:=<[Z.to_nat gx:=color]> r]> grid).
  split_and!.
  - done.
  - apply setitem_in_range. lia.
  - apply setitem_in_range. lia.
  - split; [by rewrite length_insert|].
    apply Forall_insert; [done|]. by rewrite length_insert.
  - unfold board_cell. rewrite decide_True by lia.
    rewrite list_lookup_insert_eq by lia. simpl.
    apply list_lookup_insert_eq. lia.
  - intros c r0 Hne. unfold board_cell.
    destruct (decide (0 ≤ r0 ∧ 0 ≤ c)) as [[Hr0 Hc]|]; [|done].
    destruct (decide (Z.to_nat r0 = Z.to_nat gy)) as [Heq|Hneq].
    + rewrite Heq, list_lookup_insert_eq by lia. rewrite Hr. simpl.
      apply list_lookup_insert_ne. intros Hc'.
      apply Hne. f_equal; lia.
    + by rewrite list_lookup_insert_ne.
Qed.

Lemma lock_row_spec grid0 p (grid_y dx : Z) (row : list Z) (acc : LockAcc) :
  lock_inv grid0 (Tetrimino.color p) acc →
  (∀ (dc : nat) v, row !! dc = Some v → v ≠ 0 →
     0 ≤ Tetrimino.x p + dx + Z.of_nat dc < GRID_WIDTH) →
  ∃ acc', lock_row p grid_y dx row acc = Ok acc' ∧
          lock_inv grid0 (Tetrimino.color p) acc'.
Proof.
  revert dx acc. induction row as [|value rest IH]; intros dx acc Hinv Hb.
  { exists acc. done. }
  assert (Hrest : ∀ (dc : nat) v, rest !! dc = Some v → v ≠ 0 →
     0 ≤ Tetrimino.x p + (dx + 1) + Z.of_nat dc < GRID_WIDTH).
  { intros dc v Hl Hv. specialize (Hb (S dc) v Hl Hv). lia. }
  simpl. destruct (decide (value ≠ 0)) as [Hv|Hv]; [|by apply IH].
  destruct (decide (0 ≤ grid_y < GRID_HEIGHT)) as [Hy|Hy]; [|by apply IH].
  destruct acc as [[grid locked] writes].
  destruct Hinv as (Hwf & Hin & Hset & Hframe).
  assert (Hw : in_board (grid_y, Tetrimino.x p + dx)).
  { split; [done|]. specialize (Hb 0%nat value eq_refl Hv). simpl. lia. }
  destruct (grid_assign grid grid_y (Tetrimino.x p + dx) (Tetrimino.color p)
              Hwf Hw) as (r & r' & grid' & -> & Hr' & Hg' & Hwf' & Hnew & Hold).
  simpl. rewrite Hr'. simpl. rewrite Hg'. simpl.
  apply IH; [|done]. split_and!.
  - done.
  - by constructor.
  - intros c r0 [Heq|Hel]%elem_of_cons.
    + by simplify_eq.
    + destruct (decide ((r0, c) = (grid_y, Tetrimino.x p + dx))) as [Heq|Hne].
      * by simplify_eq.
      * rewrite Hold by done. by apply Hset.
  - intros c r0 Hnel. apply not_elem_of_cons in Hnel as [Hne Hnel].
    rewrite Hold by done. by apply Hframe.
Qed.

Lemma lock_rows_spec grid0 p (dy : Z) (sh : list (list Z)) (acc : LockAcc) :
  lock_inv grid0 (Tetrimino.color p) acc →
  (∀ dr dc : nat, occupied sh dr dc →
     0 ≤ Tetrimino.x p + Z.of_nat dc < GRID_WIDTH) →
  ∃ acc', lock_rows p dy sh acc = Ok acc' ∧
          lock_inv grid0 (Tetrimino.color p) acc'.
Proof.
  revert dy acc. induction sh as [|row rest IH]; intros dy acc Hinv Hb.
  { exists acc. done. }
  simpl.
  destruct (lock_row_spec grid0 p (Tetrimino.y p + dy) 0 row acc Hinv)
    as (acc1 & -> & Hinv1).
  { intros dc v Hl Hv. specialize (Hb 0%nat dc). 
    replace (Tetrimino.x p + 0 + Z.of_nat dc)
      with (Tetrimino.x p + Z.of_nat dc) by lia.
    apply Hb. exists row, v. done. }
  simpl. apply IH; [done|].
  intros dr dc (r & v & Hl & Hv & Hne). apply (Hb (S dr) dc).
  exists r, v. done.
Qed.

(** C10: when the falling piece's position passes [_valid_position]
    against the board, the cell loop of [lock_piece] raises no
    [IndexError], every assignment [self.grid[grid_y][grid_x] = color] it
    executes has [0 <= grid_y < GRID_HEIGHT] and [0 <= grid_x < GRID_WIDTH],
    the cells it wrote hold the piece's colour, every other cell is as
    before, and the board keeps its shape. *)
Theorem lock_writes_in_bounds (p : Tetrimino.t) (g : TetrisGame.t) :
  wf_grid (grid g) →
  Tetrimino._valid_position (Tetrimino.x p) (Tetrimino.y p)
    (Tetrimino.shape p) (grid g) = Ok true →
  ∃ grid' locked' writes,
    lock_cells p g = Ok (grid', locked', writes) ∧
    Forall (λ w, 0 ≤ w.1 < GRID_HEIGHT ∧ 0 ≤ w.2 < GRID_WIDTH) writes ∧
    wf_grid grid' ∧
    (∀ c r, (r, c) ∈ writes → board_cell grid' c r = Some (Tetrimino.color p)) ∧
    (∀ c r, (r, c) ∉ writes → board_cell grid' c r = board_cell (grid g) c r).
Proof.
  intros Hwf Hvalid. unfold lock_cells.
  destruct (lock_rows_spec (grid g) p 0 (Tetrimino.shape p)
              (grid g, locked_positions g, [])) as ([[grid' locked'] writes] & Hrun & Hinv).
  - split_and!; [done|constructor|intros ?? []%elem_of_nil|done].
  - intros dr dc Hocc.
    by destruct (valid_position_bounds _ _ _ _ Hwf Hvalid dr dc Hocc).
  - exists grid', locked', writes. destruct Hinv as (? & ? & ? & ?). done.
Qed.

Lemma lock_writes_in_bounds_witness :
  ∃ grid' locked' writes,
    lock_cells (Tetrimino.set_y 18 (Tetrimino.init kT)) sample_game
      = Ok (grid', locked', writes) ∧
    Forall (λ w, 0 ≤ w.1 < GRID_HEIGHT ∧ 0 ≤ w.2 < GRID_WIDTH) writes ∧
    wf_grid grid' ∧
    (∀ c r, (r, c) ∈ writes →
       board_cell grid' c r = Some (Tetrimino.color (Tetrimino.init kT))) ∧
    (∀ c r, (r, c) ∉ writes →
       board_cell grid' c r = board_cell empty_grid c r).
Proof.
  apply (lock_writes_in_bounds (Tetrimino.set_y 18 (Tetrimino.init kT))
           sample_game).
  - apply wf_grid_empty.
  - reflexivity.
Defined.

(** ** Moves: [move_piece] *)

(** [move_piece] with a falling piece in the Playing phase: the test of
    the tentative piece decides between committing it and undoing the
    three assignments. *)
Lemma move_piece_unfold (g : TetrisGame.t) (p : Tetrimino.t) (dx dy : Z)
  (rotate : bool) :
  state g = PLAYING →
  current_piece g = Some p →
  move_piece g dx dy rotate =
    (let q := moved_piece p dx dy rotate in
     ok ← Tetrimino._valid_position (Tetrimino.x q) (Tetrimino.y q)
            (Tetrimino.shape q) (grid g);
     Ok (ok, if ok : bool then set_current_piece (Some q) g else g)).
Proof.
  intros Hst Hcur. unfold move_piece. rewrite Hcur, Hst.
  rewrite decide_False by (intros Hne; by apply Hne).
  destruct p as [pt sh col px py rs], rotate; cbn -[Tetrimino._valid_position].
  all: match goal with
       | |- context [Tetrimino._valid_position ?a ?b ?c ?d] =>
           destruct (Tetrimino._valid_position a b c d) as [[|]|]
       end; cbn; try done.
  all: do 2 f_equal; replace (px + dx - dx) with px by lia;
       replace (py + dy - dy) with py by lia;
       destruct g; simpl in *; by subst.
Qed.

(** C4: in the Playing phase, with a falling piece [p], [move_piece]
    tests the rotated-and-shifted piece against the board.  If that
    position is invalid it returns [False] and the whole game object,
    falling piece included, is exactly as before; if it is valid it
    returns [True], the falling piece read back from the game object is
    the rotated-and-shifted one, and every other field reads as
    before. *)
Theorem move_piece_commit_or_revert (g : TetrisGame.t) (p : Tetrimino.t)
  (dx dy : Z) (rotate : bool) :
  state g = PLAYING →
  current_piece g = Some p →
  wf_grid (grid g) →
  let q := moved_piece p dx dy rotate in
  ∃ ok g',
    Tetrimino._valid_position (Tetrimino.x q) (Tetrimino.y q)
      (Tetrimino.shape q) (grid g) = Ok ok ∧
    move_piece g dx dy rotate = Ok (ok, g') ∧
    (ok = false → g' = g) ∧
    (ok = true → current_piece g' = Some q) ∧
    other_fields g' = other_fields g ∧
    g' = (if ok then set_current_piece (Some q) g else g).
Proof.
  intros Hst Hcur Hwf q.
  destruct (valid_position_total (Tetrimino.x q) (Tetrimino.y q)
              (Tetrimino.shape q) (grid g) Hwf) as (ok & Hok & _).
  exists ok, (if ok then set_current_piece (Some q) g else g).
  split; [done|]. split.
  { rewrite (move_piece_unfold g p dx dy rotate Hst Hcur).
    cbv zeta. fold q. rewrite Hok. by destruct ok. }
  clear Hok. destruct ok; split_and!; try done; by destruct g.
Qed.

Lemma move_piece_commit_or_revert_witness :
  ∃ ok g',
    Tetrimino._valid_position
      (Tetrimino.x (moved_piece (Tetrimino.init kT) (-1) 0 true))
      (Tetrimino.y (moved_piece (Tetrimino.init kT) (-1) 0 true))
      (Tetrimino.shape (moved_piece (Tetrimino.init kT) (-1) 0 true))
      (grid sample_game) = Ok ok ∧
    move_piece sample_game (-1) 0 true = Ok (ok, g') ∧
    (ok = false → g' = sample_game) ∧
    (ok = true →
     current_piece g'
     = Some (moved_piece (Tetrimino.init kT) (-1) 0 true)) ∧
    other_fields g' = other_fields sample_game ∧
    g' = (if ok
          then set_current_piece
                 (Some (moved_piece (Tetrimino.init kT) (-1) 0 true))
                 sample_game
          else sample_game).
Proof.
  apply (move_piece_commit_or_revert sample_game (Tetrimino.init kT) (-1) 0 true).
  - reflexivity.
  - reflexivity.
  - apply wf_grid_empty.
Defined.

(** ** Scoring: [calculate_score] *)

(** C3: a lock that clears [n] lines, [0 <= n <= 4], in a game whose
    level is [lines_cleared // 10 + 1] (as it is from [reset_game] on):
    with [n = 0] the combo becomes 0 and score, lines and level stay; with
    [n > 0] the score grows by [{1:100, 2:300, 3:500, 4:800}[n] * level]
    plus [50 * combo * level] when [combo > 0], the lines by [n], the combo
    by 1, and the level becomes [lines_cleared // 10 + 1] for the new
    total. *)
Theorem calculate_score_spec (g : TetrisGame.t) (n : Z) :
  0 ≤ n ≤ 4 →
  level_ok g →
  let g' := calculate_score n g in
  (n = 0 →
     combo g' = 0 ∧ score g' = score g ∧
     lines_cleared g' = lines_cleared g ∧ level g' = level g) ∧
  (n > 0 →
     score g' = score g
                + (if decide (n = 1) then 100 else if decide (n = 2) then 300
                   else if decide (n = 3) then 500 else 800) * level g
                + (if decide (combo g > 0) then 50 * combo g * level g else 0) ∧
     lines_cleared g' = lines_cleared g + n ∧
     combo g' = combo g + 1) ∧
  level g' = lines_cleared g' `div` 10 + 1.
Proof.
  intros Hn Hlvl g'. subst g'. unfold calculate_score, level_ok in *.
  destruct (decide (n = 0)) as [->|Hn0].
  { destruct g; simpl in *. split_and!; [done|lia|done]. }
  assert (Hdiv : lines_cleared g `div` 10 ≤ (lines_cleared g + n) `div` 10)
    by (apply Z.div_le_mono; lia).
  split_and!; [done| |].
  - intros _. unfold line_scores_get.
    destruct g; simpl in *.
    repeat case_decide; simpl; split_and!; lia.
  - destruct g; simpl in *. case_decide; simpl; lia.
Qed.

Lemma calculate_score_spec_witness :
  let g' := calculate_score 4 sample_game in
  (4 = 0 →
     combo g' = 0 ∧ score g' = score sample_game ∧
     lines_cleared g' = lines_cleared sample_game ∧
     level g' = level sample_game) ∧
  (4 > 0 →
     score g' = score sample_game
                + (if decide (4 = 1) then 100 else if decide (4 = 2) then 300
                   else if decide (4 = 3) then 500 else 800) * level sample_game
                + (if decide (combo sample_game > 0)
                   then 50 * combo sample_game * level sample_game else 0) ∧
     lines_cleared g' = lines_cleared sample_game + 4 ∧
     combo g' = combo sample_game + 1) ∧
  level g' = lines_cleared g' `div` 10 + 1.
Proof.
  apply (calculate_score_spec sample_game 4).
  - lia.
  - reflexivity.
Defined.

(** ** Outside the Playing phase *)

(** [move_piece] tests the phase itself. *)
Lemma move_piece_not_playing (g : TetrisGame.t) (dx dy : Z) (rotate : bool) :
  state g ≠ PLAYING → move_piece g dx dy rotate = Ok (false, g).
Proof.
  intros Hst. unfold move_piece.
  destruct (current_piece g); [|done]. by rewrite decide_True.
Qed.

(** C5, as stated, fails: [hard_drop] and [hold_current_piece] do not test
    the phase.  Called on a paused game, [hard_drop] locks the falling
    piece into the board and spawns the next one, and
    [hold_current_piece] fills the hold slot and spawns the next piece. *)
Lemma hard_drop_and_hold_ignore_phase :
  state paused_game ≠ PLAYING ∧
  (∃ g', hard_drop fixed_shuffle paused_game = Ok g' ∧
         grid g' ≠ grid paused_game ∧
         current_piece g' ≠ current_piece paused_game ∧
         next_pieces g' ≠ next_pieces paused_game) ∧
  (∃ g', hold_current_piece fixed_shuffle paused_game = Ok g' ∧
         hold_piece g' ≠ hold_piece paused_game ∧
         current_piece g' ≠ current_piece paused_game).
Proof.
  split; [done|]. split.
  - eexists. split; [vm_compute; reflexivity|]. split_and!; discriminate.
  - eexists. split; [vm_compute; reflexivity|]. split_and!; discriminate.
Qed.

(** C5, amended: outside the Playing phase [move_piece] returns [False]
    and changes nothing, and [handle_events] does not pass the move,
    rotate, soft-drop and hold keys on: the game object is unchanged by
    them, and by the hard-drop key too in the Paused and GameOver phases
    (in the Menu phase that key starts a game). *)
Theorem not_playing_intents_ignored
  (shuffle : nat → list PieceType → list PieceType)
  (g : TetrisGame.t) (now : Z) :
  state g ≠ PLAYING →
  (∀ dx dy rotate, move_piece g dx dy rotate = Ok (false, g)) ∧
  (∀ k, k ∈ [K_LEFT; K_RIGHT; K_UP; K_DOWN; K_c] →
        handle_key shuffle now k g = Ok (true, g)) ∧
  (state g ≠ MENU → handle_key shuffle now K_SPACE g = Ok (true, g)).
Proof.
  intros Hst. split_and!.
  - intros. by apply move_piece_not_playing.
  - intros k Hk. unfold handle_key.
    destruct (state g); [|done| |];
      repeat (apply elem_of_cons in Hk as [->|Hk]; [done|]);
      by apply elem_of_nil in Hk.
  - intros Hm. unfold handle_key. by destruct (state g).
Qed.

Lemma not_playing_intents_ignored_witness :
  (∀ dx dy rotate, move_piece paused_game dx dy rotate = Ok (false, paused_game)) ∧
  (∀ k, k ∈ [K_LEFT; K_RIGHT; K_UP; K_DOWN; K_c] →
        handle_key fixed_shuffle 0 k paused_game = Ok (true, paused_game)) ∧
  (state paused_game ≠ MENU →
   handle_key fixed_shuffle 0 K_SPACE paused_game = Ok (true, paused_game)).
Proof.
  apply (not_playing_intents_ignored fixed_shuffle paused_game 0).
  discriminate.
Defined.

(** ** Spawning and the end of the game *)

Lemma pop_back_nonempty {A} (l : list A) :
  l ≠ [] → ∃ a l', Py.pop_back l = Ok (a, l').
Proof.
  intros Hl. unfold Py.pop_back.
  destruct (reverse l) as [|a l'] eqn:Hr; [|by eauto].
  apply (f_equal reverse) in Hr. rewrite reverse_involutive in Hr. done.
Qed.

Section spawning.

Variable shuffle : nat → list PieceType → list PieceType.

(** [random.shuffle] permutes its argument. *)
Hypothesis shuffle_perm : ∀ n, shuffle n SHAPES_keys ≡ₚ SHAPES_keys.

Lemma get_next_piece_ok (g : TetrisGame.t) :
  ∃ pt bag n, get_next_piece shuffle g = Ok (pt, with_bag bag n g).
Proof.
  unfold get_next_piece.
  destruct (piece_bag g) as [|pt0 bag0] eqn:Hbag.
  - destruct (pop_back_nonempty (piece_bag (refill_bag shuffle g)))
      as (pt & bag & Hpop).
    { pose proof (shuffle_perm (shuffles g)) as Hperm.
      destruct g; simpl in *. intros Hnil. rewrite Hnil in Hperm.
      by apply Permutation_nil_l in Hperm. }
    rewrite Hpop. simpl. exists pt, bag, (S (shuffles g)).
    by destruct g.
  - destruct (pop_back_nonempty (piece_bag g)) as (pt & bag & Hpop).
    { by rewrite Hbag. }
    rewrite Hpop. simpl. exists pt, bag, (shuffles g). by destruct g.
Qed.

Lemma fill_next_pieces_ok (k : nat) (g : TetrisGame.t) :
  ∃ new bag n,
    fill_next_pieces shuffle k g
      = Ok (set_next_pieces (next_pieces g ++ new) (with_bag bag n g)).
Proof.
  revert g. induction k as [|k IH]; intros g; simpl.
  - exists [], (piece_bag g), (shuffles g).
    rewrite app_nil_r. by destruct g.
  - destruct (get_next_piece_ok g) as (pt & bag & n & ->). simpl.
    destruct (IH (set_next_pieces
                    (next_pieces (with_bag bag n g) ++ [Tetrimino.init pt])
                    (with_bag bag n g))) as (new & bag' & n' & ->).
    exists (Tetrimino.init pt :: new), bag', n'.
    destruct g; simpl. by rewrite <- app_assoc.
Qed.

(** [spawn_next_piece] with a non-empty queue returns: the head of the
    queue is the falling piece, the board is untouched, and the phase
    becomes GameOver exactly when the piece does not fit. *)
Lemma spawn_next_piece_ok (g : TetrisGame.t) (p : Tetrimino.t)
  (rest : list Tetrimino.t) :
  wf_grid (grid g) →
  next_pieces g = p :: rest →
  ∃ ok g',
    Tetrimino._valid_position (Tetrimino.x p) (Tetrimino.y p)
      (Tetrimino.shape p) (grid g) = Ok ok ∧
    spawn_next_piece shuffle g = Ok g' ∧
    current_piece g' = Some p ∧ grid g' = grid g ∧
    state g' = (if ok then state g else GAME_OVER).
Proof.
  intros Hwf Hnext.
  destruct (valid_position_total (Tetrimino.x p) (Tetrimino.y p)
              (Tetrimino.shape p) (grid g) Hwf) as (ok & Hok & _).
  unfold spawn_next_piece, generate_next_pieces. rewrite Hnext. simpl.
  set (g1 := set_next_pieces rest (set_current_piece (Some p) g)).
  assert (Hcur : current_piece g1 = Some p) by (by destruct g).
  rewrite Hcur. simpl.
  destruct (fill_next_pieces_ok (3 - length (next_pieces g1)) g1)
    as (new & bag & n & ->). simpl.
  assert (Hg : grid g1 = grid g) by (by destruct g).
  assert (Hs : state g1 = state g) by (by destruct g).
  destruct g1; simpl in *. subst. rewrite Hok. simpl.
  exists ok. destruct ok; eexists; split_and!; done.
Qed.

End spawning.

Section game_over.

Variable shuffle : nat → list PieceType → list PieceType.

Lemma handle_events_game_over (now : Z) (events : list Event) (g : TetrisGame.t) :
  state g = GAME_OVER → no_restart events →
  ∃ running, handle_events shuffle now events g = Ok (running, g).
Proof.
  intros Hst. unfold no_restart.
  induction events as [|e events IH]; intros Hno; simpl.
  - by exists true.
  - apply not_elem_of_cons in Hno as [Hne Hno].
    destruct e as [|k|]; [by exists false| |by apply IH].
    unfold handle_key. rewrite Hst.
    destruct k; simpl; try (by apply IH); [done|by exists false].
Qed.

(** In the GameOver phase a frame without the restart key leaves the
    phase, the board and the falling piece alone. *)
Lemma frame_game_over (now : Z) (events : list Event) (g : TetrisGame.t) :
  state g = GAME_OVER → no_restart events →
  ∃ running g', frame shuffle now events g = Ok (running, g') ∧
    state g' = GAME_OVER ∧ grid g' = grid g ∧
    current_piece g' = current_piece g.
Proof.
  intros Hst Hno. unfold frame.
  destruct (handle_events_game_over now events g Hst Hno) as (running & ->).
  simpl. unfold update. rewrite decide_True by (by rewrite Hst). simpl.
  rewrite Hst. exists running. eexists. split; [done|].
  unfold save_high_score, draw_grid.
  destruct g; simpl in *. repeat case_decide; simpl; done.
Qed.

Lemma run_game_over (inputs : list (Z * list Event)) (g : TetrisGame.t) :
  state g = GAME_OVER → Forall (λ i, no_restart i.2) inputs →
  ∃ g', run shuffle inputs g = Ok g' ∧
    state g' = GAME_OVER ∧ grid g' = grid g ∧
    current_piece g' = current_piece g.
Proof.
  intros Hst Hno. revert g Hst.
  induction Hno as [|[now events] inputs Hev Hno IH]; intros g Hst; simpl.
  - by exists g.
  - destruct (frame_game_over now events g Hst Hev)
      as (running & g1 & -> & Hst1 & Hg1 & Hc1). simpl.
    destruct running; [|by exists g1].
    destruct (IH g1 Hst1) as (g' & -> & ? & ? & ?).
    exists g'. split_and!; congruence.
Qed.

End game_over.

(** At its spawn place every occupied cell of a fresh piece is inside the
    board. *)
Lemma fresh_piece_in_board (pt : PieceType) (dr dc : nat) :
  occupied (SHAPES_shape pt) dr dc →
  0 ≤ Tetrimino.x (Tetrimino.init pt) + Z.of_nat dc < GRID_WIDTH ∧
  0 ≤ Tetrimino.y (Tetrimino.init pt) + Z.of_nat dr < GRID_HEIGHT.
Proof.
  intros (row & v & Hrow & Hv & _).
  destruct pt; simpl in *;
    repeat (destruct dr as [|dr]; simplify_eq/=);
    repeat (destruct dc as [|dc]; simplify_eq/=);
    vm_compute; done.
Qed.

(** For a fresh piece the spawn position is invalid exactly when one of
    its cells lies on a non-empty board cell. *)
Lemma spawn_invalid_iff_overlap (pt : PieceType) (grid : list (list Z)) :
  wf_grid grid →
  let p := Tetrimino.init pt in
  Tetrimino._valid_position (Tetrimino.x p) (Tetrimino.y p)
    (Tetrimino.shape p) grid = Ok false ↔
  ∃ dr dc : nat, occupied (Tetrimino.shape p) dr dc ∧
    ∃ v, board_cell grid (Tetrimino.x p + Z.of_nat dc)
           (Tetrimino.y p + Z.of_nat dr) = Some v ∧ v ≠ 0.
Proof.
  intros Hwf p.
  destruct (valid_position_total (Tetrimino.x p) (Tetrimino.y p)
              (Tetrimino.shape p) grid Hwf) as (b & -> & Hiff).
  split.
  - intros Hb. simplify_eq. destruct Hiff as [(dr & dc & Hocc & Hbl) _]; [done|].
    exists dr, dc. split; [done|].
    pose proof (fresh_piece_in_board pt dr dc Hocc) as [Hx Hy].
    destruct Hbl as [?|[?|[?|[_ ?]]]]; [subst p; lia..|done].
  - intros (dr & dc & Hocc & Hv). f_equal. apply Hiff.
    exists dr, dc. split; [done|]. do 3 right. split; [|done].
    pose proof (fresh_piece_in_board pt dr dc Hocc) as [_ Hy]. subst p. lia.
Qed.

(** Through [spawn_next_piece] the end of the game is as expected:
    spawning the head [p] of the queue onto a board where its spawn
    position does not pass [_valid_position] makes [p] the falling piece
    and puts the game in the GameOver phase; from there on, whatever
    frames follow (move, rotate, soft-drop, hard-drop keys, clock ticks),
    as long as none carries the restart key, the phase stays GameOver and
    the board and the falling piece stay as they were. *)
Theorem spawn_collision_is_game_over
  (shuffle : nat → list PieceType → list PieceType)
  (g : TetrisGame.t) (p : Tetrimino.t) (rest : list Tetrimino.t)
  (inputs : list (Z * list Event)) :
  (∀ n, shuffle n SHAPES_keys ≡ₚ SHAPES_keys) →
  wf_grid (grid g) →
  next_pieces g = p :: rest →
  Tetrimino._valid_position (Tetrimino.x p) (Tetrimino.y p)
    (Tetrimino.shape p) (grid g) = Ok false →
  Forall (λ i, no_restart i.2) inputs →
  ∃ g', spawn_next_piece shuffle g = Ok g' ∧
    state g' = GAME_OVER ∧ current_piece g' = Some p ∧ grid g' = grid g ∧
    ∃ g'', run shuffle inputs g' = Ok g'' ∧
      state g'' = GAME_OVER ∧ grid g'' = grid g ∧ current_piece g'' = Some p.
Proof.
  intros Hperm Hwf Hnext Hbad Hno.
  destruct (spawn_next_piece_ok shuffle Hperm g p rest Hwf Hnext)
    as (ok & g' & Hok & Hsp & Hcur & Hgrid & Hst).
  rewrite Hbad in Hok. simplify_eq.
  exists g'. split_and!; [done..|].
  destruct (run_game_over shuffle inputs g' Hst Hno) as (g'' & ? & ? & ? & ?).
  exists g''. split_and!; congruence.
Qed.

Lemma spawn_collision_is_game_over_witness :
  ∃ g', spawn_next_piece fixed_shuffle blocked_game = Ok g' ∧
    state g' = GAME_OVER ∧ current_piece g' = Some (Tetrimino.init kJ) ∧
    grid g' = grid blocked_game ∧
    ∃ g'', run fixed_shuffle
             [(0, [KEYDOWN K_LEFT; KEYDOWN K_UP]);
              (600, [KEYDOWN K_DOWN; KEYDOWN K_SPACE])] g' = Ok g'' ∧
      state g'' = GAME_OVER ∧ grid g'' = grid blocked_game ∧
      current_piece g'' = Some (Tetrimino.init kJ).
Proof.
  apply (spawn_collision_is_game_over fixed_shuffle blocked_game
           (Tetrimino.init kJ) [Tetrimino.init kZ; Tetrimino.init kS]).
  - intros n. reflexivity.
  - split; [reflexivity|]. vm_compute. repeat constructor.
  - reflexivity.
  - reflexivity.
  - repeat constructor; unfold no_restart; simpl;
      intros Hel; repeat (apply elem_of_cons in Hel as [Hel|Hel]; [discriminate|]);
      by apply elem_of_nil in Hel.
Defined.

(** The swap branch of [hold_current_piece] puts a new piece at the spawn
    place without the test [spawn_next_piece] makes: here the new falling
    piece overlaps the board and the phase stays Playing. *)
Lemma hold_swap_skips_spawn_test :
  (g ← hold_current_piece fixed_shuffle hold_swap_game;
   match current_piece g with
   | Some p =>
       ok ← Tetrimino._valid_position (Tetrimino.x p) (Tetrimino.y p)
              (Tetrimino.shape p) (grid g);
       Ok (state g, Tetrimino.piece_type p, ok)
   | None => Raise AttributeError
   end) = Ok (PLAYING, kO, false).
Proof. vm_compute. reflexivity. Qed.

(** C6 fails on the code: a piece is also put at the spawn place by the
    swap branch of [hold_current_piece], and that branch does not make
    the test [spawn_next_piece] makes.  In the recorded game an L piece is
    in the hold slot and the tower has reached row 1 in column 6 (a T
    cell, colour 6) while an O piece falls at a valid place.  The hold
    key makes a new L piece the falling piece at the spawn place
    [(4, 0)]: its cell [(1, 2)] is on the occupied board cell (row 1,
    column 6), [_valid_position] says [False], and the phase is still
    Playing.  The game goes on: a left key in the next frame moves the
    piece, and without any key the next clock tick locks the piece where
    it is, overwriting the T cell with the L colour 3, and only the
    spawn after that ends the game. *)
Theorem hold_swap_spawns_onto_occupied_cell :
  (g ← run_program (take 13 hold_swap_inputs);
   match current_piece g with
   | Some p =>
       ok ← Tetrimino._valid_position (Tetrimino.x p) (Tetrimino.y p)
              (Tetrimino.shape p) (grid g);
       Ok (state g, p, ok, Tetrimino.piece_type <$> hold_piece g, can_hold g,
           board_cell (grid g) 6 1)
   | None => Raise AttributeError
   end)
  = Ok (PLAYING, Tetrimino.init kO, true, Some kL, true, Some 6) ∧
  (g ← run_program hold_swap_inputs;
   match current_piece g with
   | Some p =>
       ok ← Tetrimino._valid_position (Tetrimino.x p) (Tetrimino.y p)
              (Tetrimino.shape p) (grid g);
       Ok (state g, p, ok, matrix_cell (Tetrimino.shape p) 1 2,
           board_cell (grid g) (Tetrimino.x p + 2) (Tetrimino.y p + 1))
   | None => Raise AttributeError
   end)
  = Ok (PLAYING, Tetrimino.init kL, false, Some 1, Some 6) ∧
  (g ← run_program (hold_swap_inputs ++ [(255, keys [K_LEFT])]);
   Ok (state g, (λ p, (Tetrimino.x p, Tetrimino.y p)) <$> current_piece g))
  = Ok (PLAYING, Some (3, 0)) ∧
  (g ← run_program (hold_swap_inputs ++ [(600, [])]);
   Ok (state g, board_cell (grid g) 6 1))
  = Ok (GAME_OVER, Some 3).
Proof. repeat split; vm_compute; reflexivity. Qed.

(** ** Line clearing: [clear_lines] *)

(** The generator inside [all]: over the cells of row [y] from column [a]
    on, it is the test that the rest of the row has no empty cell. *)
Lemma all_nonzero_spec grid (y : Z) (row : list Z) (a n : nat) :
  Py.getitem grid y = Ok row →
  (a + n)%nat = length row →
  all_nonzero grid y (Z.of_nat <$> seq a n) = Ok (row_is_full (drop a row)).
Proof.
  intros Hrow. revert a. induction n as [|n IH]; intros a Hlen; simpl.
  - rewrite drop_ge by lia. done.
  - rewrite Hrow. simpl.
    destruct (getitem_in_range row (Z.of_nat a)) as (c & Hc & ->); [lia|].
    simpl. rewrite Nat2Z.id in Hc.
    rewrite (drop_S _ _ _ Hc). simpl.
    destruct (decide (c ≠ 0)) as [Hne|Heq].
    + rewrite bool_decide_eq_true_2 by done. simpl. apply IH. lia.
    + by rewrite bool_decide_eq_false_2.
Qed.

Lemma scan_lines_cons grid (y : Z) (ys : list Z) :
  scan_lines grid (y :: ys)
  = (full ← all_nonzero grid y (Py.range GRID_WIDTH);
     rest ← scan_lines grid ys;
     Ok (if full : bool then y :: rest else rest)).
Proof. reflexivity. Qed.

Lemma scan_lines_spec (pre rows : list (list Z)) :
  Forall (λ row, length row = Z.to_nat GRID_WIDTH) rows →
  scan_lines (pre ++ rows) (Z.of_nat <$> seq (length pre) (length rows))
  = Ok (full_indices (length pre) rows).
Proof.
  revert pre. induction rows as [|row rows IH]; intros pre Hw; [done|].
  apply Forall_cons in Hw as [Hrow Hw].
  assert (Hget : Py.getitem (pre ++ row :: rows) (Z.of_nat (length pre)) = Ok row).
  { destruct (getitem_in_range (pre ++ row :: rows) (Z.of_nat (length pre)))
      as (r & Hr & ->).
    - rewrite length_app. simpl. lia.
    - rewrite Nat2Z.id, list_lookup_middle in Hr by done. by simplify_eq. }
  change (length (row :: rows)) with (S (length rows)).
  rewrite <- cons_seq, fmap_cons, scan_lines_cons.
  replace (Py.range GRID_WIDTH) with (Z.of_nat <$> seq 0 (length row))
    by (by rewrite Hrow).
  rewrite (all_nonzero_spec _ _ row 0 (length row) Hget) by done.
  rewrite drop_0.
  specialize (IH (pre ++ [row]) Hw).
  rewrite <- app_assoc, length_app in IH. simpl in IH.
  rewrite Nat.add_1_r in IH. rewrite IH. simpl.
  by destruct (row_is_full row).
Qed.

Lemma full_indices_range (a : nat) (rows : list (list Z)) :
  Forall (λ y, Z.of_nat a ≤ y < Z.of_nat (a + length rows)) (full_indices a rows).
Proof.
  revert a. induction rows as [|row rows IH]; intros a; simpl; [constructor|].
  specialize (IH (S a)).
  assert (Forall (λ y, Z.of_nat a ≤ y < Z.of_nat (a + S (length rows)))
            (full_indices (S a) rows)).
  { eapply Forall_impl; [done|]. simpl. intros. lia. }
  destruct (row_is_full row); [|done]. constructor; [lia|done].
Qed.

Lemma full_indices_count (a : nat) (rows : list (list Z)) :
  (length (full_indices a rows)
   + length (filter (λ row, ¬ row_is_full row) rows))%nat = length rows.
Proof.
  revert a. induction rows as [|row rows IH]; intros a; simpl; [done|].
  specialize (IH (S a)).
  destruct (row_is_full row) eqn:Hfull.
  - rewrite filter_cons_False by (rewrite Hfull; intros Hn; by apply Hn).
    simpl. lia.
  - rewrite filter_cons_True by (rewrite Hfull; intros []). simpl. lia.
Qed.

Lemma filter_keeps_all {A} (P : A → Prop) `{∀ x, Decision (P x)} (l : list A) :
  length (filter P l) = length l → filter P l = l.
Proof.
  induction l as [|x l IH]; [done|]. intros Hlen.
  destruct (decide (P x)) as [Hx|Hx].
  - rewrite filter_cons_True in * by done. simpl in Hlen. f_equal. apply IH. lia.
  - rewrite filter_cons_False in Hlen by done.
    pose proof (length_filter P l). simpl in Hlen. lia.
Qed.

Lemma full_indices_single (a : nat) (rows : list (list Z)) (y : Z) :
  full_indices a rows = [y] →
  ∃ i : nat, y = Z.of_nat (a + i) ∧ (i < length rows)%nat ∧
    filter (λ row, ¬ row_is_full row) rows = delete i rows.
Proof.
  revert a. induction rows as [|row rows IH]; intros a; simpl; [done|].
  destruct (row_is_full row) eqn:Hfull.
  - intros Heq. injection Heq as <- Hnil. exists 0%nat.
    rewrite filter_cons_False by (rewrite Hfull; intros Hn; by apply Hn).
    split_and!; [f_equal; lia|lia|]. simpl.
    pose proof (full_indices_count (S a) rows) as Hc.
    rewrite Hnil in Hc. by apply filter_keeps_all.
  - intros Heq. destruct (IH (S a) Heq) as (i & -> & Hi & Hdel).
    exists (S i). rewrite filter_cons_True by (rewrite Hfull; intros []).
    split_and!; [f_equal; lia|lia|]. simpl. by rewrite Hdel.
Qed.

Lemma delitem_in_range {A} (l : list A) (i : Z) :
  0 ≤ i < Z.of_nat (length l) → Py.delitem l i = Ok (delete (Z.to_nat i) l).
Proof. intros Hi. unfold Py.delitem. by rewrite index_in_range. Qed.

(** The removal loop returns and keeps the board's shape whenever the
    indices it is given are row indices of the board. *)
Lemma remove_lines_ok (ys : list Z) (grid : list (list Z)) :
  Forall (λ y, 0 ≤ y < GRID_HEIGHT) ys → wf_grid grid →
  ∃ grid', remove_lines ys grid = Ok grid' ∧ wf_grid grid'.
Proof.
  intros Hys. revert grid. induction Hys as [|y ys Hy Hys IH]; intros grid Hwf.
  { by exists grid. }
  simpl. destruct Hwf as [Hlen Hrows].
  rewrite delitem_in_range by lia. simpl. apply IH. split.
  - simpl. rewrite length_delete; [lia|]. apply lookup_lt_is_Some_2. lia.
  - constructor; [reflexivity|].
    by apply Forall_delete.
Qed.

Lemma grid_line_clear_effect (v : Z) (rows : list Z) (g : TetrisGame.t) :
  grid (set_screen_shake v (create_line_clear_effect rows g)) = grid g.
Proof. by destruct g. Qed.

(** On a well-shaped board [clear_lines] returns, the count it returns is
    the number of full rows (the count of the specification's
    [clearFullRows]), and the board keeps its 20 rows of 10 cells. *)
Lemma clear_lines_count_and_height (g : TetrisGame.t) :
  wf_grid (grid g) →
  ∃ g', clear_lines g = Ok ((clearFullRows_spec (grid g)).2, g') ∧
        wf_grid (grid g').
Proof.
  intros Hwf. pose proof Hwf as [Hlen Hrows]. unfold clear_lines.
  replace (Py.range GRID_HEIGHT) with (Z.of_nat <$> seq 0 (length (grid g)))
    by (by rewrite Hlen).
  pose proof (scan_lines_spec [] (grid g) Hrows) as Hscan.
  simpl in Hscan. rewrite Hscan. clear Hscan. simpl.
  pose proof (full_indices_count 0 (grid g)) as Hcount.
  pose proof (full_indices_range 0 (grid g)) as Hrange.
  assert (Hn : (length (grid g)
                - length (filter (λ row, ¬ row_is_full row) (grid g)))%nat
               = length (full_indices 0 (grid g))) by lia.
  rewrite Hn.
  destruct (full_indices 0 (grid g)) as [|y ys] eqn:Hfi.
  { exists g. done. }
  destruct (remove_lines_ok (Py.sorted_desc (y :: ys)) (grid g)) as (grid' & Hrm & Hwf').
  { unfold Py.sorted_desc. rewrite merge_sort_Permutation.
    eapply Forall_impl; [done|]. simpl. intros z Hz. rewrite Hlen in Hz.
    pose proof GRID_HEIGHT_eq. lia. }
  { done. }
  case_decide; rewrite grid_line_clear_effect, Hrm; simpl;
    (eexists; split; [done|]); by destruct g.
Qed.

(** With at most one full row, [clear_lines] leaves the board the
    specification's [clearFullRows] describes. *)
Lemma clear_lines_at_most_one (g : TetrisGame.t) :
  wf_grid (grid g) →
  (clearFullRows_spec (grid g)).2 ≤ 1 →
  ∃ g', clear_lines g = Ok ((clearFullRows_spec (grid g)).2, g') ∧
        grid g' = (clearFullRows_spec (grid g)).1.
Proof.
  intros Hwf. pose proof Hwf as [Hlen Hrows]. unfold clear_lines.
  replace (Py.range GRID_HEIGHT) with (Z.of_nat <$> seq 0 (length (grid g)))
    by (by rewrite Hlen).
  pose proof (scan_lines_spec [] (grid g) Hrows) as Hscan.
  simpl in Hscan. rewrite Hscan. clear Hscan. simpl.
  pose proof (full_indices_count 0 (grid g)) as Hcount.
  assert (Hn : (length (grid g)
                - length (filter (λ row, ¬ row_is_full row) (grid g)))%nat
               = length (full_indices 0 (grid g))) by lia.
  rewrite Hn. intros Hle.
  destruct (full_indices 0 (grid g)) as [|y [|y' ys]] eqn:Hfi; simpl in *.
  - exists g. split; [done|]. symmetry. apply filter_keeps_all. lia.
  - destruct (full_indices_single 0 (grid g) y Hfi) as (i & -> & Hi & Hdel).
    change (Py.sorted_desc [Z.of_nat (0 + i)]) with [Z.of_nat (0 + i)].
    simpl. rewrite grid_line_clear_effect, delitem_in_range by lia. simpl.
    eexists. split; [done|]. rewrite Hdel, Nat2Z.id. by destruct g.
  - lia.
Qed.

(** The run reaches [clear_lines] with that board: after the eleven
    frames, the keys Up and Right turn and shift the S piece, the drop loop
    takes it down, and the cell loop of [lock_piece] yields the board. *)
Lemma double_clear_board_reached :
  (g ← run_program double_clear_prefix;
   '(_, g) ← handle_events fixed_shuffle 204 (keys [K_UP; K_RIGHT]) g;
   '(_, g) ← drop_loop 21 0 g;
   match current_piece g with
   | Some p => '(board, _, _) ← lock_cells p g; Ok (state g, board)
   | None => Raise AttributeError
   end) = Ok (PLAYING, double_clear_board).
Proof. vm_compute. reflexivity. Qed.

(** C1 fails on the code: with rows 18 and 19 full, [clear_lines] returns
    2 and keeps 20 rows, but after deleting row 19 and inserting the empty
    row on top, index 18 holds what was row 17, and that is what the
    second [del] removes.  The row with gaps is gone, the full row 18 is
    still on the board (now as row 19).  The specification's
    [clearFullRows] keeps the row with gaps and removes both full rows. *)
Theorem clear_lines_removes_wrong_row :
  (r ← clear_lines double_clear_game; Ok (r.1, grid r.2))
  = Ok (2, replicate 14 (replicate 10 0) ++
           [[3; 0; 0; 0; 0; 0; 0; 0; 0; 0];
            [3; 0; 0; 0; 0; 0; 0; 0; 0; 0];
            [3; 3; 1; 0; 0; 0; 0; 0; 0; 2];
            [4; 4; 1; 0; 0; 0; 0; 0; 0; 2];
            [4; 4; 1; 0; 7; 0; 0; 0; 2; 2];
            [2; 7; 7; 7; 6; 5; 5; 5; 5; 3]]) ∧
  clearFullRows_spec double_clear_board
  = (replicate 14 (replicate 10 0) ++
       [[3; 0; 0; 0; 0; 0; 0; 0; 0; 0];
        [3; 0; 0; 0; 0; 0; 0; 0; 0; 0];
        [3; 3; 1; 0; 0; 0; 0; 0; 0; 2];
        [4; 4; 1; 0; 0; 0; 0; 0; 0; 2];
        [4; 4; 1; 0; 7; 0; 0; 0; 2; 2];
        [7; 7; 1; 7; 7; 5; 0; 0; 5; 5]], 2).
Proof. split; vm_compute; reflexivity. Qed.

(** The same in the run itself: after the twelfth frame the bottom row of
    the board is a full row. *)
Lemma double_clear_run_leaves_full_row :
  (g ← run_program
         (double_clear_prefix ++ [(204, keys [K_UP; K_RIGHT; K_SPACE])]);
   Ok (state g, lines_cleared g, grid g !! 19%nat))
  = Ok (PLAYING, 2, Some [2; 7; 7; 7; 6; 5; 5; 5; 5; 3]).
Proof. vm_compute. reflexivity. Qed.

(** ** What every state of a run satisfies *)

Lemma game_inv_core (g g' : TetrisGame.t) :
  core g' = core g → game_inv g → game_inv g'.
Proof.
  unfold core, game_inv, level_ok. intros Hc. simplify_eq.
  by repeat match goal with H : _ = _ |- _ => rewrite H; clear H end.
Qed.

Lemma fresh_rotation_of_base (p : Tetrimino.t) :
  fresh_piece p → rotation_of_base p.
Proof. intros [pt ->]. by exists 0%nat. Qed.

Section invariant.

Variable shuffle : nat → list PieceType → list PieceType.

Lemma get_next_piece_fields (g g' : TetrisGame.t) (pt : PieceType) :
  get_next_piece shuffle g = Ok (pt, g') → ∃ bag n, g' = with_bag bag n g.
Proof.
  unfold get_next_piece. intros H. inv_bind H as [pt' bag] Hpop.
  simplify_eq/=. destruct (piece_bag g).
  - exists bag, (S (shuffles g)). by destruct g.
  - exists bag, (shuffles g). by destruct g.
Qed.

Lemma fill_next_pieces_fields (k : nat) (g g' : TetrisGame.t) :
  fill_next_pieces shuffle k g = Ok g' →
  ∃ new bag n,
    g' = set_next_pieces (next_pieces g ++ new) (with_bag bag n g) ∧
    length new = k ∧ Forall fresh_piece new.
Proof.
  revert g. induction k as [|k IH]; intros g H; simpl in H.
  - simplify_eq. exists [], (piece_bag g'), (shuffles g').
    rewrite app_nil_r. split_and!; [by destruct g'|done|constructor].
  - inv_bind H as [pt g1] Hget.
    apply get_next_piece_fields in Hget as (bag & n & ->).
    apply IH in H as (new & bag' & n' & -> & Hlen & Hnew).
    exists (Tetrimino.init pt :: new), bag', n'. split_and!.
    + destruct g; simpl. by rewrite <- app_assoc.
    + simpl. by rewrite Hlen.
    + constructor; [by exists pt|done].
Qed.

Lemma generate_next_pieces_fields (g g' : TetrisGame.t) (p : Tetrimino.t) :
  current_piece g = Some p →
  generate_next_pieces shuffle g = Ok g' →
  ∃ new bag n,
    g' = set_next_pieces (next_pieces g ++ new) (with_bag bag n g) ∧
    length new = (3 - length (next_pieces g))%nat ∧ Forall fresh_piece new.
Proof.
  unfold generate_next_pieces. intros -> H. simpl in H.
  by apply fill_next_pieces_fields.
Qed.


(** [reset_game] leaves a fresh game: empty board, level 1, a falling
    piece and three queued pieces; the phase and [drop_speed] are the old
    ones. *)
Lemma reset_game_inv (now : Z) (g g' : TetrisGame.t) :
  reset_game shuffle now g = Ok g' →
  game_inv g' ∧ grid g' = empty_grid ∧ level g' = 1 ∧
  lines_cleared g' = 0 ∧ state g' = state g ∧ drop_speed g' = drop_speed g.
Proof.
  unfold reset_game, generate_next_pieces. intros H.
  destruct g; simpl in H. inv_bind H as g2 Hcur. inv_bind Hcur as [pt g1] Hget.
  apply get_next_piece_fields in Hget as (bag & n & ->). simplify_eq.
  apply fill_next_pieces_fields in H as (new & bag' & n' & -> & Hlen & Hnew).
  simpl in *. unfold game_inv, level_ok; simpl.
  split_and!; try done.
  - apply wf_grid_empty.
  - eexists. split; [done|]. by exists 0%nat.
Qed.

(** [move_piece] either leaves the game object as it is or replaces the
    falling piece by the turned and shifted one. *)
Lemma move_piece_cases (g g' : TetrisGame.t) (dx dy : Z) (rotate ok : bool) :
  move_piece g dx dy rotate = Ok (ok, g') →
  g' = g ∨
  ∃ p, current_piece g = Some p ∧
       g' = set_current_piece (Some (moved_piece p dx dy rotate)) g.
Proof.
  intros H. destruct (current_piece g) as [p|] eqn:Hcur.
  - destruct (decide (state g = PLAYING)) as [Hst|Hst].
    + rewrite (move_piece_unfold g p dx dy rotate Hst Hcur) in H.
      cbv zeta in H. inv_bind H as b Hb. simplify_eq.
      destruct ok; [right; by exists p|by left].
    + rewrite move_piece_not_playing in H by done. left. by simplify_eq.
  - unfold move_piece in H. rewrite Hcur in H. left. by simplify_eq.
Qed.

Lemma moved_piece_rotation_of_base (p : Tetrimino.t) (dx dy : Z) (rotate : bool) :
  rotation_of_base p → rotation_of_base (moved_piece p dx dy rotate).
Proof.
  intros [k Hk]. destruct rotate; simpl.
  - exists (S k). simpl. by rewrite Hk.
  - by exists k.
Qed.

Lemma move_piece_inv (g g' : TetrisGame.t) (dx dy : Z) (rotate ok : bool) :
  move_piece g dx dy rotate = Ok (ok, g') → game_inv g →
  game_inv g' ∧ state g' = state g.
Proof.
  intros H Hinv. apply move_piece_cases in H as [->|(p & Hcur & ->)]; [done|].
  destruct Hinv as (Hwf & Hlvl & (p' & Hp' & Hrot) & Hlen & Hnext).
  simplify_eq. destruct g; simpl in *. split; [|done].
  unfold game_inv, level_ok; simpl. split_and!; try done.
  eexists. split; [done|]. by apply moved_piece_rotation_of_base.
Qed.

Lemma spawn_next_piece_inv (g g' : TetrisGame.t) :
  spawn_next_piece shuffle g = Ok g' → game_inv g → game_inv g'.
Proof.
  unfold spawn_next_piece. intros H Hinv.
  destruct Hinv as (Hwf & Hlvl & _ & Hlen & Hnext).
  destruct (next_pieces g) as [|p rest] eqn:Hq; [done|]. simpl in H.
  apply Forall_cons in Hnext as [Hp Hrest].
  inv_bind H as g1 Hgen.
  apply (generate_next_pieces_fields _ _ p) in Hgen
    as (new & bag & n & -> & Hlnew & Hnew); [|by destruct g].
  assert (Hg' : core g' = core
            (set_current_piece (Some p) (set_next_pieces (rest ++ new) g))).
  { destruct g; simpl in *.
    destruct (Tetrimino._valid_position _ _ _ _) as [[|]|]; by simplify_eq/=. }
  apply (game_inv_core _ _ Hg').
  destruct g; simpl in *. unfold game_inv, level_ok; simpl.
  split_and!; try done.
  - eexists. split; [done|]. by apply fresh_rotation_of_base.
  - rewrite length_app, Hlnew. simpl in Hlen. lia.
  - by apply Forall_app.
Qed.

Lemma setitem_length {A} (l l' : list A) (i : Z) (v : A) :
  Py.setitem l i v = Ok l' → length l' = length l.
Proof.
  unfold Py.setitem. intros H. inv_bind H as k Hk. simplify_eq.
  by rewrite length_insert.
Qed.

Lemma getitem_elem_of {A} (l : list A) (i : Z) (a : A) :
  Py.getitem l i = Ok a → a ∈ l.
Proof.
  unfold Py.getitem. intros H. inv_bind H as k Hk.
  destruct (l !! k) eqn:Hl; [|done]. simplify_eq.
  by eapply list_elem_of_lookup_2.
Qed.

(** Whatever the piece's position, when the cell loop returns the board
    has kept its shape: an index that Python accepts designates an
    existing cell. *)
Lemma lock_row_wf p (grid_y dx : Z) (row : list Z) (acc acc' : LockAcc) :
  lock_row p grid_y dx row acc = Ok acc' →
  wf_grid acc.1.1 → wf_grid acc'.1.1.
Proof.
  revert dx acc. induction row as [|value rest IH]; intros dx acc H Hwf;
    simpl in H; [by simplify_eq|].
  destruct (decide (value ≠ 0)); [|by eapply IH].
  destruct (decide (0 ≤ grid_y < GRID_HEIGHT)); [|by eapply IH].
  destruct acc as [[grid locked] writes]. simpl in *.
  inv_bind H as r Hr. inv_bind H as r' Hr'. inv_bind H as grid' Hg'.
  apply IH in H; [done|]. simpl.
  destruct Hwf as [Hlen Hrows].
  apply getitem_elem_of in Hr.
  apply setitem_length in Hr'.
  unfold Py.setitem in Hg'. inv_bind Hg' as k Hk. simplify_eq. split.
  - by rewrite length_insert.
  - apply Forall_insert; [done|].
    rewrite Hr'. by eapply Forall_forall in Hrows.
Qed.

Lemma lock_rows_wf p (dy : Z) (sh : list (list Z)) (acc acc' : LockAcc) :
  lock_rows p dy sh acc = Ok acc' →
  wf_grid acc.1.1 → wf_grid acc'.1.1.
Proof.
  revert dy acc. induction sh as [|row rest IH]; intros dy acc H Hwf;
    simpl in H; [by simplify_eq|].
  inv_bind H as acc1 Hrow. apply lock_row_wf in Hrow; [|done]. by eapply IH.
Qed.

Lemma clear_lines_fields (g g' : TetrisGame.t) (n : Z) :
  clear_lines g = Ok (n, g') →
  0 ≤ n ∧ level g' = level g ∧ lines_cleared g' = lines_cleared g ∧
  current_piece g' = current_piece g ∧ next_pieces g' = next_pieces g ∧
  state g' = state g.
Proof.
  unfold clear_lines. intros H.
  inv_bind H as lines Hscan.
  destruct lines as [|y ys]; [simplify_eq; split; [lia|done]|].
  inv_bind H as grid' Hrm. simplify_eq. split; [lia|].
  clear Hscan Hrm. destruct g; simpl; by case_decide.
Qed.

Lemma calculate_score_inv (g : TetrisGame.t) (n : Z) :
  0 ≤ n → level_ok g →
  level_ok (calculate_score n g) ∧
  grid (calculate_score n g) = grid g ∧
  current_piece (calculate_score n g) = current_piece g ∧
  next_pieces (calculate_score n g) = next_pieces g ∧
  state (calculate_score n g) = state g.
Proof.
  intros Hn Hlvl. unfold calculate_score, level_ok in *.
  destruct (decide (n = 0)); [by destruct g|].
  assert (lines_cleared g `div` 10 ≤ (lines_cleared g + n) `div` 10)
    by (apply Z.div_le_mono; lia).
  destruct g; simpl in *. case_decide; simpl; split_and!; try done; lia.
Qed.

Lemma lock_piece_inv (g g' : TetrisGame.t) :
  lock_piece shuffle g = Ok g' → game_inv g → game_inv g'.
Proof.
  unfold lock_piece. intros H Hinv.
  destruct Hinv as (Hwf & Hlvl & (p & Hp & Hrot) & Hlen & Hnext).
  rewrite Hp in H. inv_bind H as [[grid' locked'] writes] Hlock.
  inv_bind H as n Hstat. inv_bind H as [lines g2] Hclear.
  apply lock_rows_wf in Hlock; [|done]. simpl in Hlock.
  set (g1 := set_stats _ _) in Hclear.
  assert (Hwf1 : wf_grid (grid g1)) by (by destruct g).
  destruct (clear_lines_count_and_height g1 Hwf1) as (g2' & Hcl & Hwf2).
  revert Hcl. generalize ((clearFullRows_spec (grid g1)).2). intros cnt Hcl.
  rewrite Hcl in Hclear. simplify_eq.
  apply clear_lines_fields in Hcl as (Hn & Hl & Hlc & Hc & Hq & _).
  assert (Hlvl2 : level_ok g2).
  { unfold level_ok. rewrite Hl, Hlc. by destruct g. }
  destruct (calculate_score_inv g2 _ Hn Hlvl2) as (Hlvl3 & Hg3 & Hc3 & Hq3 & _).
  apply spawn_next_piece_inv in H; [done|].
  unfold game_inv. rewrite Hg3, Hc3, Hq3, Hc, Hq.
  split_and!; [done..| | |]; destruct g; simpl; eauto.
Qed.

Lemma drop_loop_inv (fuel : nat) (d d' : Z) (g g' : TetrisGame.t) :
  drop_loop fuel d g = Ok (d', g') → game_inv g →
  game_inv g' ∧ state g' = state g.
Proof.
  revert d g. induction fuel as [|fuel IH]; intros d g H Hinv; [done|].
  simpl in H. inv_bind H as [moved g1] Hmove.
  apply move_piece_inv in Hmove as [Hinv1 Hst1]; [|done].
  destruct moved; [|by simplify_eq].
  apply IH in H as [? ?]; [|done]. split; congruence.
Qed.

Lemma hard_drop_inv (g g' : TetrisGame.t) :
  hard_drop shuffle g = Ok g' → game_inv g → game_inv g'.
Proof.
  unfold hard_drop. intros H Hinv.
  destruct (current_piece g); [|by simplify_eq].
  inv_bind H as [d g1] Hdrop.
  apply drop_loop_inv in Hdrop as [Hinv1 _]; [|done].
  apply lock_piece_inv in H; [done|].
  apply (game_inv_core g1); [by destruct g1|done].
Qed.

Lemma hold_current_piece_inv (g g' : TetrisGame.t) :
  hold_current_piece shuffle g = Ok g' → game_inv g → game_inv g'.
Proof.
  unfold hold_current_piece. intros H Hinv.
  destruct (can_hold g); simpl in H; [|by simplify_eq].
  destruct (current_piece g) as [p|] eqn:Hp; [|by simplify_eq].
  inv_bind H as g1 Hg1. simplify_eq.
  apply (game_inv_core g1); [by destruct g1|].
  destruct (hold_piece g) as [h|].
  - simplify_eq.
    destruct Hinv as (Hwf & Hlvl & _ & Hlen & Hnext).
    destruct g; simpl in *. unfold game_inv, level_ok; simpl.
    split_and!; try done. eexists. split; [done|]. by exists 0%nat.
  - apply spawn_next_piece_inv in Hg1; [done|].
    apply (game_inv_core g); [by destruct g|done].
Qed.

Lemma handle_key_inv (now : Z) (k : Key) (g g' : TetrisGame.t) (running : bool) :
  handle_key shuffle now k g = Ok (running, g') → game_inv g → game_inv g'.
Proof.
  unfold handle_key. intros H Hinv.
  assert (Hreset : ∀ st g1, reset_game shuffle now (set_state st g) = Ok g1 →
                            game_inv g1).
  { intros st g1 Hr. by apply reset_game_inv in Hr as [? _]. }
  destruct (state g), k; simplify_eq; try done;
    try (apply (game_inv_core g); [by destruct g|done]);
    try (inv_bind H as g1 Hg1; simplify_eq;
         by eauto using hard_drop_inv, hold_current_piece_inv).
  all: inv_bind H as [b g1] Hmove; simplify_eq;
       apply move_piece_inv in Hmove as [? _]; [|done]; try done.
  destruct b; [|done]. apply (game_inv_core g1); [by destruct g1|done].
Qed.

Lemma handle_events_inv (now : Z) (events : list Event) (g g' : TetrisGame.t)
  (running : bool) :
  handle_events shuffle now events g = Ok (running, g') →
  game_inv g → game_inv g'.
Proof.
  revert g. induction events as [|e events IH]; intros g H Hinv; simpl in H.
  - by simplify_eq.
  - destruct e as [|k|]; [by simplify_eq| |by eapply IH].
    inv_bind H as [r g1] Hkey.
    apply handle_key_inv in Hkey; [|done].
    destruct r; [by eapply IH|by simplify_eq].
Qed.

Lemma update_inv (now : Z) (g g' : TetrisGame.t) :
  update shuffle now g = Ok g' → game_inv g → game_inv g'.
Proof.
  unfold update. intros H Hinv.
  destruct (decide (state g ≠ PLAYING)); [by simplify_eq|].
  case_decide; [|by simplify_eq].
  inv_bind H as [moved g1] Hmove. inv_bind H as g2 Hg2. simplify_eq.
  apply move_piece_inv in Hmove as [Hinv1 _]; [|done].
  apply (game_inv_core g2); [by destruct g2|].
  destruct moved; [by simplify_eq|]. by eapply lock_piece_inv.
Qed.

Lemma draw_grid_core (g : TetrisGame.t) :
  core (draw_grid g) = core g ∧ state (draw_grid g) = state g.
Proof.
  unfold draw_grid. destruct g; simpl.
  repeat (case_decide; simpl); done.
Qed.

Lemma save_high_score_core (g : TetrisGame.t) :
  core (save_high_score g) = core g.
Proof. by destruct g. Qed.

Lemma frame_inv (now : Z) (events : list Event) (g g' : TetrisGame.t)
  (running : bool) :
  frame shuffle now events g = Ok (running, g') → game_inv g → game_inv g'.
Proof.
  unfold frame. intros H Hinv. inv_bind H as [r g1] Hev.
  inv_bind H as g2 Hup. simplify_eq.
  apply handle_events_inv in Hev; [|done].
  apply update_inv in Hup; [|done].
  apply (game_inv_core g2); [|done].
  destruct (draw_grid_core g2) as [Hcore _].
  destruct (state g2); by rewrite ?save_high_score_core.
Qed.

(** Every state the program passes through has a board of 20 rows of 10
    cells, the level its cleared lines call for, a falling piece whose
    shape is a rotation of its type's base shape, and three fresh pieces
    queued. *)
Lemma reachable_inv (g : TetrisGame.t) : reachable shuffle g → game_inv g.
Proof.
  induction 1 as [now stored g Hinit|now events g running g' _ IH Hframe].
  - unfold init in Hinit. inv_bind Hinit as g0 Hreset. simplify_eq.
    apply reset_game_inv in Hreset as (Hinv & _).
    eapply game_inv_core; [|done]. by destruct g0.
  - by eapply frame_inv.
Qed.

(** In every state of a run the level is the one the cleared lines call
    for, which is what [calculate_score_spec] asks of the state. *)
Lemma reachable_level_ok (g : TetrisGame.t) :
  reachable shuffle g → level_ok g.
Proof. intros Hr. by apply reachable_inv in Hr as (_ & ? & _). Qed.

(** In every state of a run the board has 20 rows of 10 cells and there
    is a falling piece. *)
Lemma reachable_board_and_piece (g : TetrisGame.t) :
  reachable shuffle g → wf_grid (grid g) ∧ ∃ p, current_piece g = Some p.
Proof.
  intros Hr. apply reachable_inv in Hr as (? & _ & (p & ? & _) & _). eauto.
Qed.

(** The falling piece of every state of a run is unchanged by four
    rotations. *)
Lemma reachable_rotate_four_times (g : TetrisGame.t) (p : Tetrimino.t) :
  reachable shuffle g → current_piece g = Some p →
  Nat.iter 4 Tetrimino.rotate (Tetrimino.shape p) = Tetrimino.shape p.
Proof.
  intros Hr Hp. apply reachable_inv in Hr as (_ & _ & (p' & Hp' & k & Hk) & _).
  simplify_eq. rewrite Hk.
  rewrite <- Nat.iter_add, Nat.add_comm, Nat.iter_add.
  by rewrite rotate_base_four_times.
Qed.

Lemma has_cell_occupied (sh : list (list Z)) :
  has_cell sh = true → ∃ dr dc, occupied sh dr dc.
Proof.
  unfold has_cell. intros (row & Hrow & Hex)%existsb_exists.
  apply existsb_exists in Hex as (v & Hv & Hne%bool_decide_eq_true).
  apply list_elem_of_In, list_elem_of_lookup in Hrow as [dr Hdr].
  apply list_elem_of_In, list_elem_of_lookup in Hv as [dc Hdc].
  by exists dr, dc, row, v.
Qed.

(** A rotation of a base shape has an occupied cell. *)
Lemma rotation_of_base_occupied (p : Tetrimino.t) :
  rotation_of_base p → ∃ dr dc, occupied (Tetrimino.shape p) dr dc.
Proof.
  intros [k ->]. generalize (Tetrimino.piece_type p). intros pt.
  apply has_cell_occupied.
  rewrite (Nat.div_mod_eq k 4).
  pose proof (Nat.mod_upper_bound k 4 ltac:(done)) as Hlt.
  generalize dependent (k `mod` 4)%nat. generalize (k `div` 4)%nat.
  intros q r Hr. induction q as [|q IH].
  - destruct pt; do 4 (destruct r as [|r]; [reflexivity|]); lia.
  - replace (4 * S q + r)%nat with ((4 * q + r) + 4)%nat by lia.
    rewrite Nat.iter_add.
    by rewrite rotate_base_four_times.
Qed.

(** The [while self.move_piece(0, 1)] loop ends within the rounds the
    model allows it, when the board is well shaped and the falling piece
    has an occupied cell. *)
Lemma drop_loop_terminates (fuel : nat) (d : Z) (g : TetrisGame.t)
  (p : Tetrimino.t) :
  wf_grid (grid g) →
  current_piece g = Some p →
  (∃ dr dc, occupied (Tetrimino.shape p) dr dc) →
  (Z.to_nat (GRID_HEIGHT - Tetrimino.y p) < fuel)%nat →
  ∃ d' g', drop_loop fuel d g = Ok (d', g').
Proof.
  revert d g p. induction fuel as [|fuel IH]; intros d g p Hwf Hp Hocc Hfuel;
    [lia|].
  simpl. destruct (decide (state g = PLAYING)) as [Hst|Hst].
  - rewrite (move_piece_unfold g p 0 1 false Hst Hp). cbv zeta.
    set (q := moved_piece p 0 1 false).
    destruct (valid_position_total (Tetrimino.x q) (Tetrimino.y q)
                (Tetrimino.shape q) (grid g) Hwf) as (ok & Hok & _).
    rewrite Hok. simpl. destruct ok; [|by eauto].
    destruct Hocc as (dr & dc & Hocc).
    pose proof (valid_position_bounds _ _ _ _ Hwf Hok dr dc Hocc) as [_ Hy].
    apply (IH _ _ q).
    + by destruct g.
    + by destruct g.
    + by exists dr, dc.
    + simpl in *. lia.
  - rewrite move_piece_not_playing by done. simpl. by eauto.
Qed.

(** In a state of a run, the drop loop of [hard_drop] ends. *)
Lemma hard_drop_loop_terminates (g : TetrisGame.t) (p : Tetrimino.t) :
  reachable shuffle g → current_piece g = Some p →
  ∃ d' g',
    drop_loop (S (Z.to_nat (GRID_HEIGHT - Tetrimino.y p))) 0 g = Ok (d', g').
Proof.
  intros Hr Hp. apply reachable_inv in Hr as (Hwf & _ & (p' & Hp' & Hrot) & _).
  rewrite Hp in Hp'. injection Hp' as <-.
  eapply drop_loop_terminates;
    [done|done|by apply rotation_of_base_occupied|lia].
Qed.

End invariant.

(** ** Restart and the drop interval *)

(** The restart key resets the level and keeps [drop_speed]. *)
Lemma restart_fields (shuffle : nat → list PieceType → list PieceType)
  (now : Z) (g g' : TetrisGame.t) (running : bool) :
  state g = GAME_OVER →
  handle_key shuffle now K_r g = Ok (running, g') →
  state g' = PLAYING ∧ level g' = 1 ∧ calculate_drop_speed g' = 500 ∧
  drop_speed g' = drop_speed g.
Proof.
  unfold handle_key. intros -> H. inv_bind H as g1 Hreset. simplify_eq.
  apply reset_game_inv in Hreset as (_ & _ & Hl & _ & Hst & Hd).
  unfold calculate_drop_speed. rewrite Hl, Hst, Hd. by destruct g.
Qed.

(** C7 fails on the code: [reset_game] assigns [level = 1] but not
    [drop_speed].  The recorded game ends in GameOver at level 2 with
    [drop_speed = 450]; after the restart key the game is Playing at
    level 1, [drop_speed] is still 450, and the formula gives 500. *)
Theorem restart_keeps_old_drop_speed :
  (g ← run_program level2_inputs;
   Ok (state g, lines_cleared g, level g, drop_speed g))
  = Ok (GAME_OVER, 10, 2, 450) ∧
  (g ← run_program (level2_inputs ++ [(1000, keys [K_r])]);
   Ok (state g, lines_cleared g, level g, drop_speed g, calculate_drop_speed g))
  = Ok (PLAYING, 0, 1, 450, 500).
Proof. split; vm_compute; reflexivity. Qed.

(** ** The high-score list *)

(** Every frame drawn in the GameOver phase appends the score to the
    list and dumps the list. *)
Lemma frame_game_over_saves (shuffle : nat → list PieceType → list PieceType)
  (now : Z) (events : list Event) (g : TetrisGame.t) :
  state g = GAME_OVER → no_restart events →
  ∃ running g', frame shuffle now events g = Ok (running, g') ∧
    state g' = GAME_OVER ∧ score g' = score g ∧
    high_scores g' = take 10 (Py.sorted_desc (high_scores g ++ [score g])) ∧
    score_file g' = high_scores g' :: score_file g.
Proof.
  intros Hst Hno. unfold frame.
  destruct (handle_events_game_over shuffle now events g Hst Hno)
    as (running & ->).
  simpl. unfold update. rewrite decide_True by (by rewrite Hst). simpl.
  rewrite Hst. exists running. eexists. split; [done|].
  unfold save_high_score, draw_grid.
  destruct g; simpl in *. repeat (case_decide; simpl); done.
Qed.

(** C8 fails on the code: [run] calls [save_high_score] in every frame
    drawn in the GameOver phase.  The recorded game ends with score 2390
    and the list already written once; three further frames without any
    event append the score three more times and write the file three more
    times. *)
Theorem high_score_saved_every_frame :
  (g ← run_program level2_inputs;
   Ok (state g, score g, high_scores g, score_file g))
  = Ok (GAME_OVER, 2390, [2390], [[2390]]) ∧
  (g ← run_program (level2_inputs ++ [(1000, []); (1017, []); (1034, [])]);
   Ok (state g, score g, high_scores g, score_file g))
  = Ok (GAME_OVER, 2390, [2390; 2390; 2390; 2390],
        [[2390; 2390; 2390; 2390]; [2390; 2390; 2390]; [2390; 2390]; [2390]]).
Proof. split; vm_compute; reflexivity. Qed.

(** * Further properties of the engine *)

(** ** Rotation is a quarter turn *)

#[local] Arguments Py.zip_star : simpl never.

Lemma zip_star_cons {A} (r r' : list A) (rs : list (list A)) :
  Py.zip_star (r :: r' :: rs) = zip_with cons r (Py.zip_star (r' :: rs)).
Proof. reflexivity. Qed.

Lemma zip_star_single {A} (r : list A) :
  Py.zip_star [r] = (λ v, [v]) <$> r.
Proof. reflexivity. Qed.

Lemma zip_star_rect (R C : nat) (m : list (list Z)) :
  rect (S R) C m → rect C (S R) (Py.zip_star m).
Proof.
  revert m. induction R as [|R IH]; intros m [Hlen Hrows].
  - destruct m as [|r [|??]]; simpl in Hlen; simplify_eq.
    apply Forall_cons in Hrows as [Hr _]. rewrite zip_star_single. split.
    + by rewrite length_fmap.
    + apply Forall_fmap, Forall_true. done.
  - destruct m as [|r [|r' rs]]; simpl in Hlen; simplify_eq.
    apply Forall_cons in Hrows as [Hr Hrows].
    destruct (IH (r' :: rs)) as [Hl Hc]. { split; [simpl; lia|done]. }
    rewrite zip_star_cons. split.
    + rewrite length_zip_with_l_eq; [done|]. by rewrite Hl.
    + apply Forall_forall. intros col [i Hi]%list_elem_of_lookup.
      rewrite lookup_zip_with in Hi.
      destruct (r !! i) as [x|]; [|done].
      destruct (Py.zip_star (r' :: rs) !! i) as [y|] eqn:Hy; [|done].
      eapply Forall_lookup_1 in Hc; [|done].
      injection Hi as <-. simpl. by f_equal.
Qed.

Lemma zip_star_cell (R C : nat) (m : list (list Z)) (i j : nat) :
  rect R C m → matrix_cell (Py.zip_star m) j i = matrix_cell m i j.
Proof.
  unfold matrix_cell. revert R i. induction m as [|r rs IH]; intros R i [Hlen Hrows].
  { by rewrite !lookup_nil. }
  apply Forall_cons in Hrows as [Hr Hrows].
  destruct rs as [|r' rs].
  - rewrite zip_star_single, list_lookup_fmap.
    destruct i as [|i]; simpl.
    + by destruct (r !! j).
    + by destruct (r !! j).
  - rewrite zip_star_cons, lookup_zip_with.
    destruct R as [|R]; [done|]. simpl in Hlen.
    assert (Hrect : rect R C (r' :: rs)) by (split; [simpl; lia|done]).
    destruct R as [|R]; [done|].
    destruct (zip_star_rect R C (r' :: rs) Hrect) as [Hl Hc].
    specialize (IH (S R)).
    destruct (r !! j) as [x|] eqn:Hx; simpl.
    + destruct (lookup_lt_is_Some_2 (Py.zip_star (r' :: rs)) j) as [col Hcol].
      { rewrite Hl, <- Hr. by eapply lookup_lt_Some. }
      rewrite Hcol. simpl. destruct i as [|i]; simpl; [done|].
      rewrite <- (IH i Hrect), Hcol. done.
    + destruct i as [|i]; simpl; [done|].
      rewrite <- (IH i Hrect).
      rewrite (lookup_ge_None_2 (Py.zip_star (r' :: rs)) j); [done|].
      rewrite Hl, <- Hr. by apply lookup_ge_None_1.
Qed.

Lemma rect_reverse (R C : nat) (m : list (list Z)) :
  rect R C m → rect R C (reverse m).
Proof. intros [? ?]. split; [by rewrite length_reverse|by apply Forall_reverse]. Qed.

Lemma rect_ext (R C : nat) (m1 m2 : list (list Z)) :
  rect R C m1 → rect R C m2 →
  (∀ i j, (i < R)%nat → (j < C)%nat → matrix_cell m1 i j = matrix_cell m2 i j) → m1 = m2.
Proof.
  intros [Hl1 Hr1] [Hl2 Hr2] Hcell.
  apply (list_eq_same_length _ _ R); [done..|].
  intros i row1 row2 Hi H1 H2.
  apply (list_eq_same_length _ _ C).
  - by eapply Forall_lookup_1 in Hr2.
  - by eapply Forall_lookup_1 in Hr1.
  - intros j x y Hj Hx Hy. specialize (Hcell i j Hi Hj).
    unfold matrix_cell in Hcell. rewrite H1, H2 in Hcell. simpl in Hcell. congruence.
Qed.

(** [rotate] on a matrix of [R >= 1] rows of [C] cells: the result has [C]
    rows of [R] cells, and its cell [(c, R-1-r)] is cell [(r, c)] of the
    argument. *)

Lemma rotate_rect_cells (R C : nat) (sh : list (list Z)) :
  rect (S R) C sh →
  rect C (S R) (Tetrimino.rotate sh) ∧
  ∀ r c, (r ≤ R)%nat →
    matrix_cell (Tetrimino.rotate sh) c (R - r) = matrix_cell sh r c.
Proof.
  intros Hrect. unfold Tetrimino.rotate. split.
  - by apply zip_star_rect, rect_reverse.
  - intros r c Hr.
    rewrite (zip_star_cell (S R) C) by (by apply rect_reverse).
    unfold matrix_cell. destruct Hrect as [Hlen _].
    rewrite reverse_lookup by lia. rewrite Hlen.
    by replace (S R - S (R - r))%nat with r by lia.
Qed.

Lemma rotate_twice_cells (R C : nat) (sh : list (list Z)) :
  rect (S R) (S C) sh →
  rect (S R) (S C) (Tetrimino.rotate (Tetrimino.rotate sh)) ∧
  ∀ r c, (r ≤ R)%nat → (c ≤ C)%nat →
    matrix_cell (Tetrimino.rotate (Tetrimino.rotate sh)) (R - r) (C - c) = matrix_cell sh r c.
Proof.
  intros Hrect.
  destruct (rotate_rect_cells R (S C) sh Hrect) as [Hrect1 Hc1].
  destruct (rotate_rect_cells C (S R) _ Hrect1) as [Hrect2 Hc2].
  split; [done|]. intros r c Hr Hc.
  rewrite <- (Hc1 r c Hr). rewrite <- (Hc2 c (R - r)%nat Hc). done.
Qed.

Lemma rotate_four_rect (R C : nat) (sh : list (list Z)) :
  rect (S R) (S C) sh → Nat.iter 4 Tetrimino.rotate sh = sh.
Proof.
  intros Hrect. simpl.
  destruct (rotate_twice_cells R C sh Hrect) as [Hrect2 Hc2].
  destruct (rotate_twice_cells R C _ Hrect2) as [Hrect4 Hc4].
  apply (rect_ext (S R) (S C)); [done..|].
  intros i j Hi Hj.
  specialize (Hc2 i j ltac:(lia) ltac:(lia)).
  specialize (Hc4 (R - i)%nat (C - j)%nat ltac:(lia) ltac:(lia)).
  replace (R - (R - i))%nat with i in Hc4 by lia.
  replace (C - (C - j))%nat with j in Hc4 by lia.
  congruence.
Qed.

(** X1: [rotate] turns a matrix of [R + 1] rows of [C] cells a quarter turn
    clockwise: the result has [C] rows of [R + 1] cells, and the value at
    row [r], column [c] of the argument is found at row [c], column
    [R - r] of the result.  When the rows are empty ([C = 0]) the result
    is the empty list. *)

Theorem rotate_is_quarter_turn (R C : nat) (sh : list (list Z)) :
  rect (S R) C sh →
  rect C (S R) (Tetrimino.rotate sh) ∧
  (∀ r c, (r ≤ R)%nat → (c < C)%nat →
     ∃ v, matrix_cell sh r c = Some v ∧
          matrix_cell (Tetrimino.rotate sh) c (R - r) = Some v) ∧
  (C = 0%nat → Tetrimino.rotate sh = []).
Proof.
  intros Hrect. destruct (rotate_rect_cells R C sh Hrect) as [Hrot Hcell].
  split_and!; [done| |].
  - intros r c Hr Hc. rewrite (Hcell r c Hr).
    destruct Hrect as [Hlen Hrows]. unfold matrix_cell.
    destruct (lookup_lt_is_Some_2 sh r) as [row Hrow]; [lia|].
    rewrite Hrow. simpl.
    eapply Forall_lookup_1 in Hrows; [|done].
    destruct (lookup_lt_is_Some_2 row c) as [v Hv]; [lia|]. eauto.
  - intros ->. destruct Hrot as [Hlen _].
    by destruct (Tetrimino.rotate sh).
Qed.

Lemma rotate_is_quarter_turn_witness :
  rect 2 3 (SHAPES_shape kT) ∧
  Tetrimino.rotate (SHAPES_shape kT) = [[1; 0]; [1; 1]; [1; 0]] ∧
  rect 3 2 (Tetrimino.rotate (SHAPES_shape kT)).
Proof.
  assert (H : rect 2 3 (SHAPES_shape kT)).
  { split; [reflexivity|]. repeat constructor. }
  split; [exact H|]. split; [reflexivity|].
  exact (proj1 (rotate_is_quarter_turn 1 3 (SHAPES_shape kT) H)).
Defined.

(** X2: four rotations restore every matrix with at least one row and one
    column whose rows all have the same length, not only the seven shapes
    of [SHAPES]; two rotations give the matrix turned upside down, of the
    same size. *)

Theorem rotate_four_times_rectangle (R C : nat) (sh : list (list Z)) :
  rect (S R) (S C) sh →
  Nat.iter 4 Tetrimino.rotate sh = sh ∧
  rect (S R) (S C) (Nat.iter 2 Tetrimino.rotate sh) ∧
  ∀ r c, (r ≤ R)%nat → (c ≤ C)%nat →
    matrix_cell (Nat.iter 2 Tetrimino.rotate sh) (R - r) (C - c)
    = matrix_cell sh r c.
Proof.
  intros Hrect. split; [by eapply rotate_four_rect|].
  by apply rotate_twice_cells.
Qed.

Lemma rotate_four_times_rectangle_witness :
  Nat.iter 4 Tetrimino.rotate [[1; 2; 3]; [4; 5; 6]] = [[1; 2; 3]; [4; 5; 6]].
Proof.
  refine (proj1 (rotate_four_times_rectangle 1 2 [[1; 2; 3]; [4; 5; 6]] _)).
  split; [reflexivity|]. repeat constructor.
Defined.

(** ** The landing row: [get_ghost_y] and [hard_drop] *)

Lemma ghost_loop_spec (fuel : nat) (p : Tetrimino.t) (y0 : Z)
  (grid : list (list Z)) :
  wf_grid grid →
  (∃ dr dc, occupied (Tetrimino.shape p) dr dc) →
  (Z.to_nat (GRID_HEIGHT - y0) < fuel)%nat →
  ∃ gy, Tetrimino.ghost_loop fuel p y0 grid = Ok gy ∧ y0 ≤ gy ∧
    Tetrimino._valid_position (Tetrimino.x p) (gy + 1) (Tetrimino.shape p) grid
      = Ok false ∧
    ∀ y', y0 < y' ≤ gy →
      Tetrimino._valid_position (Tetrimino.x p) y' (Tetrimino.shape p) grid
        = Ok true.
Proof.
  intros Hwf (dr & dc & Hocc). revert y0.
  induction fuel as [|fuel IH]; intros y0 Hfuel; [lia|]. simpl.
  destruct (valid_position_total (Tetrimino.x p) (y0 + 1) (Tetrimino.shape p)
              grid Hwf) as ([|] & Hok & _); rewrite Hok; simpl.
  - pose proof (valid_position_bounds _ _ _ _ Hwf Hok dr dc Hocc) as [_ Hy].
    destruct (IH (y0 + 1)) as (gy & Hrun & Hle & Hstop & Hall); [lia|].
    exists gy. split_and!; [done|lia|done|].
    intros y' Hy'. destruct (decide (y' = y0 + 1)) as [->|]; [done|].
    apply Hall. lia.
  - exists y0. split_and!; [done|lia|done|]. intros; lia.
Qed.

(** The loop reads the piece's column and shape only. *)

Lemma ghost_loop_ext (fuel : nat) (p q : Tetrimino.t) (y0 : Z)
  (grid : list (list Z)) :
  Tetrimino.x p = Tetrimino.x q → Tetrimino.shape p = Tetrimino.shape q →
  Tetrimino.ghost_loop fuel p y0 grid = Tetrimino.ghost_loop fuel q y0 grid.
Proof.
  intros Hx Hs. revert y0. induction fuel as [|fuel IH]; intros y0; [done|].
  simpl. rewrite Hx, Hs.
  destruct (Tetrimino._valid_position _ _ _ _) as [[|]|]; simpl; auto.
Qed.

(** The drop loop of [hard_drop] follows the loop of [get_ghost_y] round
    by round. *)

Lemma drop_loop_ghost (fuel : nat) (d : Z) (g : TetrisGame.t)
  (p : Tetrimino.t) (gy : Z) :
  state g = PLAYING → current_piece g = Some p →
  Tetrimino.ghost_loop fuel p (Tetrimino.y p) (grid g) = Ok gy →
  drop_loop fuel d g
  = Ok (d + (gy - Tetrimino.y p),
        set_current_piece (Some (Tetrimino.set_y gy p)) g).
Proof.
  revert d g p. induction fuel as [|fuel IH]; intros d g p Hst Hp Hg; [done|].
  simpl in *. rewrite (move_piece_unfold g p 0 1 false Hst Hp). cbv zeta.
  set (q := moved_piece p 0 1 false).
  assert (Hxq : Tetrimino.x q = Tetrimino.x p) by (simpl; lia).
  change (Tetrimino.y q) with (Tetrimino.y p + 1).
  change (Tetrimino.shape q) with (Tetrimino.shape p).
  rewrite Hxq.
  destruct (Tetrimino._valid_position _ _ _ _) as [[|]|]; simpl in *; [| |done].
  - rewrite (ghost_loop_ext fuel p q) in Hg by done.
    rewrite (IH (d + 1) (set_current_piece (Some q) g) q);
      [|by destruct g..|by destruct g].
    f_equal. f_equal; [simpl; lia|]. destruct g, p; simpl.
    by rewrite Z.add_0_r.
  - simplify_eq. f_equal. f_equal; [lia|].
    destruct g, p; simpl in *. by simplify_eq.
Qed.

(** X3: on a board of 20 rows of 10 cells, for a piece with an occupied
    cell, [get_ghost_y] returns a row [gy] at or below the piece's row such
    that the piece does not fit one row further down, while it fits at
    every row strictly below its own down to [gy]. *)

Theorem ghost_row_is_lowest (p : Tetrimino.t) (grid : list (list Z)) :
  wf_grid grid →
  (∃ dr dc, occupied (Tetrimino.shape p) dr dc) →
  ∃ gy, Tetrimino.get_ghost_y p grid = Ok gy ∧ Tetrimino.y p ≤ gy ∧
    Tetrimino._valid_position (Tetrimino.x p) (gy + 1) (Tetrimino.shape p) grid
      = Ok false ∧
    ∀ y', Tetrimino.y p < y' ≤ gy →
      Tetrimino._valid_position (Tetrimino.x p) y' (Tetrimino.shape p) grid
        = Ok true.
Proof.
  intros Hwf Hocc. unfold Tetrimino.get_ghost_y.
  apply ghost_loop_spec; [done..|lia].
Qed.

Lemma ghost_row_is_lowest_witness :
  ∃ gy, Tetrimino.get_ghost_y (Tetrimino.init kT) empty_grid = Ok gy ∧
    Tetrimino.y (Tetrimino.init kT) ≤ gy ∧
    Tetrimino._valid_position (Tetrimino.x (Tetrimino.init kT)) (gy + 1)
      (Tetrimino.shape (Tetrimino.init kT)) empty_grid = Ok false ∧
    ∀ y', Tetrimino.y (Tetrimino.init kT) < y' ≤ gy →
      Tetrimino._valid_position (Tetrimino.x (Tetrimino.init kT)) y'
        (Tetrimino.shape (Tetrimino.init kT)) empty_grid = Ok true.
Proof.
  apply (ghost_row_is_lowest (Tetrimino.init kT) empty_grid).
  - apply wf_grid_empty.
  - exists 0%nat, 1%nat, [0; 1; 0], 1. split_and!; [reflexivity..|lia].
Defined.

(** X4: in the Playing phase [hard_drop] is [lock_piece] on the game whose
    falling piece has been put at the row [get_ghost_y] returns and whose
    score has grown by two points per row travelled. *)

Theorem hard_drop_locks_at_ghost_row
  (shuffle : nat → list PieceType → list PieceType) (g : TetrisGame.t)
  (p : Tetrimino.t) :
  state g = PLAYING → current_piece g = Some p →
  wf_grid (grid g) →
  (∃ dr dc, occupied (Tetrimino.shape p) dr dc) →
  ∃ gy, Tetrimino.get_ghost_y p (grid g) = Ok gy ∧
    hard_drop shuffle g
    = lock_piece shuffle
        (set_score (score g + (gy - Tetrimino.y p) * 2)
           (set_current_piece (Some (Tetrimino.set_y gy p)) g)).
Proof.
  intros Hst Hp Hwf Hocc.
  destruct (ghost_loop_spec (S (Z.to_nat (GRID_HEIGHT - Tetrimino.y p))) p
              (Tetrimino.y p) (grid g) Hwf Hocc) as (gy & Hgy & _); [lia|].
  exists gy. split; [done|].
  unfold hard_drop. rewrite Hp.
  rewrite (drop_loop_ghost _ 0 g p gy Hst Hp Hgy). simpl.
  do 2 f_equal. by destruct g.
Qed.

Lemma hard_drop_locks_at_ghost_row_witness :
  ∃ gy, Tetrimino.get_ghost_y (Tetrimino.init kT) (grid sample_game) = Ok gy ∧
    hard_drop fixed_shuffle sample_game
    = lock_piece fixed_shuffle
        (set_score (score sample_game + (gy - Tetrimino.y (Tetrimino.init kT)) * 2)
           (set_current_piece (Some (Tetrimino.set_y gy (Tetrimino.init kT)))
              sample_game)).
Proof.
  apply (hard_drop_locks_at_ghost_row fixed_shuffle sample_game
           (Tetrimino.init kT)).
  - reflexivity.
  - reflexivity.
  - apply wf_grid_empty.
  - exists 0%nat, 1%nat, [0; 1; 0], 1. split_and!; [reflexivity..|lia].
Defined.

(** ** Moving there and back *)

(** X5: when the falling piece is at a valid position and a shift by
    [(dx, dy)] succeeds, the opposite shift succeeds too and gives back
    the game object the first shift started from. *)

Theorem move_piece_back_and_forth (g g1 : TetrisGame.t) (p : Tetrimino.t)
  (dx dy : Z) :
  state g = PLAYING →
  current_piece g = Some p →
  Tetrimino._valid_position (Tetrimino.x p) (Tetrimino.y p)
    (Tetrimino.shape p) (grid g) = Ok true →
  move_piece g dx dy false = Ok (true, g1) →
  move_piece g1 (- dx) (- dy) false = Ok (true, g).
Proof.
  intros Hst Hp Hvalid Hmove.
  rewrite (move_piece_unfold g p dx dy false Hst Hp) in Hmove. cbv zeta in Hmove.
  inv_bind Hmove as ok Hok. simplify_eq.
  set (q := moved_piece p dx dy false).
  rewrite (move_piece_unfold _ q (- dx) (- dy) false); [|by destruct g..].
  cbv zeta.
  assert (Hback : moved_piece q (- dx) (- dy) false = p).
  { subst q. unfold moved_piece. destruct p; simpl. f_equal; lia. }
  rewrite Hback.
  replace (grid (set_current_piece (Some q) g)) with (grid g) by (by destruct g).
  rewrite Hvalid. simpl. do 2 f_equal. clear Hback. subst q.
  destruct g; simpl in *. by subst.
Qed.

Lemma move_piece_back_and_forth_witness :
  move_piece
    (set_current_piece (Some (moved_piece (Tetrimino.init kT) 1 2 false))
       sample_game) (- 1) (- 2) false
  = Ok (true, sample_game).
Proof.
  apply (move_piece_back_and_forth sample_game _ (Tetrimino.init kT) 1 2).
  - reflexivity.
  - reflexivity.
  - vm_compute. reflexivity.
  - vm_compute. reflexivity.
Defined.

(** ** Which cells the cell loop of [lock_piece] writes *)

Lemma row_cell_cons (x dx c value : Z) (rest : list Z) :
  (∃ (dc : nat) v, (value :: rest) !! dc = Some v ∧ v ≠ 0 ∧
                   c = x + dx + Z.of_nat dc) ↔
  (value ≠ 0 ∧ c = x + dx) ∨
  (∃ (dc : nat) v, rest !! dc = Some v ∧ v ≠ 0 ∧
                   c = x + (dx + 1) + Z.of_nat dc).
Proof.
  split.
  - intros ([|dc] & v & Hl & Hne & ->); simplify_eq/=.
    + left. split; [done|lia].
    + right. exists dc, v. split_and!; [done..|lia].
  - intros [[Hne ->]|(dc & v & Hl & Hne & ->)].
    + exists 0%nat, value. split_and!; [done..|lia].
    + exists (S dc), v. split_and!; [done..|lia].
Qed.

Lemma lock_row_writes p (grid_y dx : Z) (row : list Z) (acc acc' : LockAcc) :
  lock_row p grid_y dx row acc = Ok acc' →
  ∀ r c, (r, c) ∈ acc'.2 ↔
    (r, c) ∈ acc.2 ∨
    (r = grid_y ∧ 0 ≤ grid_y < GRID_HEIGHT ∧
     ∃ (dc : nat) v, row !! dc = Some v ∧ v ≠ 0 ∧
                     c = Tetrimino.x p + dx + Z.of_nat dc).
Proof.
  revert dx acc. induction row as [|value rest IH]; intros dx acc H r c;
    simpl in H.
  { simplify_eq. split; [by left|]. intros [?|(_ & _ & dc & v & Hl & _)]; [done|].
    by rewrite lookup_nil in Hl. }
  rewrite row_cell_cons.
  destruct (decide (value ≠ 0)) as [Hv|Hv].
  - destruct (decide (0 ≤ grid_y < GRID_HEIGHT)) as [Hy|Hy].
    + destruct acc as [[grid locked] writes].
      inv_bind H as r0 Hr0. inv_bind H as r1 Hr1. inv_bind H as g1 Hg1.
      rewrite (IH _ _ H r c). simpl. rewrite elem_of_cons.
      assert (Hpair : (r, c) = (grid_y, Tetrimino.x p + dx)
                      ↔ r = grid_y ∧ c = Tetrimino.x p + dx).
      { split; [intros [= -> ->]|intros [-> ->]]; done. }
      rewrite Hpair. tauto.
    + rewrite (IH _ _ H r c). tauto.
  - rewrite (IH _ _ H r c). tauto.
Qed.

Lemma shape_cell_cons (x y dy r c : Z) (row : list Z) (rest : list (list Z)) :
  (∃ dr dc : nat, occupied (row :: rest) dr dc ∧
     r = y + dy + Z.of_nat dr ∧ c = x + Z.of_nat dc) ↔
  (r = y + dy ∧ ∃ (dc : nat) v, row !! dc = Some v ∧ v ≠ 0 ∧
                                c = x + 0 + Z.of_nat dc) ∨
  (∃ dr dc : nat, occupied rest dr dc ∧
     r = y + (dy + 1) + Z.of_nat dr ∧ c = x + Z.of_nat dc).
Proof.
  split.
  - intros ([|dr] & dc & (rw & v & Hl & Hv & Hne) & -> & ->); simplify_eq/=.
    + left. split; [lia|]. exists dc, v. split_and!; [done..|lia].
    + right. exists dr, dc. split_and!; [by exists rw, v|lia|done].
  - intros [(-> & dc & v & Hl & Hne & ->)
           |(dr & dc & (rw & v & Hl & Hv & Hne) & -> & ->)].
    + exists 0%nat, dc. split_and!; [by exists row, v|lia..].
    + exists (S dr), dc. split_and!; [by exists rw, v|lia|done].
Qed.

Lemma lock_rows_writes p (dy : Z) (sh : list (list Z)) (acc acc' : LockAcc) :
  lock_rows p dy sh acc = Ok acc' →
  ∀ r c, (r, c) ∈ acc'.2 ↔
    (r, c) ∈ acc.2 ∨
    (0 ≤ r < GRID_HEIGHT ∧
     ∃ dr dc : nat, occupied sh dr dc ∧
       r = Tetrimino.y p + dy + Z.of_nat dr ∧
       c = Tetrimino.x p + Z.of_nat dc).
Proof.
  revert dy acc. induction sh as [|row rest IH]; intros dy acc H r c;
    simpl in H.
  { simplify_eq. split; [by left|].
    intros [?|(_ & dr & dc & (rw & v & Hl & _) & _)]; [done|].
    by rewrite lookup_nil in Hl. }
  inv_bind H as acc1 Hrow.
  rewrite (IH _ _ H r c), (lock_row_writes _ _ _ _ _ _ Hrow r c).
  rewrite shape_cell_cons.
  destruct (decide (r = Tetrimino.y p + dy)) as [->|Hne]; tauto.
Qed.

(** X6: for a piece at a valid position on a board of 20 rows of 10 cells,
    the cell loop of [lock_piece] returns; afterwards every board cell
    covered by an occupied cell of the piece at a row [>= 0] holds the
    piece's colour, and every other board cell is as before. *)

Theorem lock_cells_writes_piece_cells (p : Tetrimino.t) (g : TetrisGame.t) :
  wf_grid (grid g) →
  Tetrimino._valid_position (Tetrimino.x p) (Tetrimino.y p)
    (Tetrimino.shape p) (grid g) = Ok true →
  ∃ grid' locked' writes,
    lock_cells p g = Ok (grid', locked', writes) ∧
    (∀ r c, piece_cell p r c → 0 ≤ r →
       board_cell grid' c r = Some (Tetrimino.color p)) ∧
    (∀ r c, ¬ (piece_cell p r c ∧ 0 ≤ r) →
       board_cell grid' c r = board_cell (grid g) c r).
Proof.
  intros Hwf Hvalid. unfold lock_cells.
  destruct (lock_rows_spec (grid g) p 0 (Tetrimino.shape p)
              (grid g, locked_positions g, []))
    as ([[grid' locked'] writes] & Hrun & Hinv).
  - split_and!; [done|constructor|intros ?? []%elem_of_nil|done].
  - intros dr dc Hocc.
    by destruct (valid_position_bounds _ _ _ _ Hwf Hvalid dr dc Hocc).
  - exists grid', locked', writes. split; [done|].
    destruct Hinv as (_ & _ & Hset & Hframe).
    pose proof (lock_rows_writes _ _ _ _ _ Hrun) as Hw. simpl in Hw.
    split.
    + intros r c (dr & dc & Hocc & -> & ->) Hr. apply Hset, Hw. right.
      destruct (valid_position_bounds _ _ _ _ Hwf Hvalid dr dc Hocc).
      split; [lia|]. exists dr, dc. split_and!; [done|lia|done].
    + intros r c Hn. apply Hframe. rewrite Hw.
      intros [[]%elem_of_nil|(Hr & dr & dc & Hocc & -> & ->)].
      apply Hn. split; [|lia]. exists dr, dc. split_and!; [done|lia|done].
Qed.

Lemma lock_cells_writes_piece_cells_witness :
  ∃ grid' locked' writes,
    lock_cells (Tetrimino.set_y 18 (Tetrimino.init kT)) sample_game
      = Ok (grid', locked', writes) ∧
    (∀ r c, piece_cell (Tetrimino.set_y 18 (Tetrimino.init kT)) r c → 0 ≤ r →
       board_cell grid' c r = Some (Tetrimino.color (Tetrimino.init kT))) ∧
    (∀ r c, ¬ (piece_cell (Tetrimino.set_y 18 (Tetrimino.init kT)) r c ∧ 0 ≤ r) →
       board_cell grid' c r = board_cell empty_grid c r).
Proof.
  apply (lock_cells_writes_piece_cells
           (Tetrimino.set_y 18 (Tetrimino.init kT)) sample_game).
  - apply wf_grid_empty.
  - vm_compute. reflexivity.
Defined.

(** ** A piece outside the columns *)

Lemma index_out_of_range {A} (l : list A) (i : Z) :
  i >= Z.of_nat (length l) ∨ i < - Z.of_nat (length l) →
  Py.index l i = Raise IndexError.
Proof.
  intros Hi. unfold Py.index.
  rewrite decide_False by lia. by rewrite decide_False by lia.
Qed.

Lemma setitem_cases {A} (l : list A) (i : Z) (v : A) :
  (∃ l', Py.setitem l i v = Ok l' ∧ length l' = length l) ∨
  Py.setitem l i v = Raise IndexError.
Proof.
  unfold Py.setitem, Py.index.
  repeat case_decide; simpl; [left..|by right];
    (eexists; split; [done|]; by rewrite length_insert).
Qed.

(** The assignment [self.grid[grid_y][grid_x] = color] in a board row:
    either it is carried out and the board keeps its shape, or the column
    index is refused. *)

Lemma grid_assign_cases grid (gy gx color : Z) :
  wf_grid grid → 0 ≤ gy < GRID_HEIGHT →
  (∃ r r' grid', Py.getitem grid gy = Ok r ∧ Py.setitem r gx color = Ok r' ∧
                 Py.setitem grid gy r' = Ok grid' ∧ wf_grid grid') ∨
  (∃ r, Py.getitem grid gy = Ok r ∧ Py.setitem r gx color = Raise IndexError).
Proof.
  intros Hwf Hy.
  destruct (wf_grid_row grid gy Hwf Hy) as (r & Hr & Hget & Hlen).
  destruct (setitem_cases r gx color) as [(r' & Hset & Hlen')|Hset];
    [|right; eauto].
  left. exists r, r', (<[Z.to_nat gy:=r']> grid).
  destruct Hwf as [Hh Hrows]. split_and!; [done..| |].
  - apply setitem_in_range. lia.
  - split; [by rewrite length_insert|].
    apply Forall_insert; [done|]. by rewrite Hlen'.
Qed.

Lemma lock_row_result p (grid_y dx : Z) (row : list Z) (acc : LockAcc) :
  wf_grid acc.1.1 →
  (∃ acc', lock_row p grid_y dx row acc = Ok acc' ∧ wf_grid acc'.1.1) ∨
  lock_row p grid_y dx row acc = Raise IndexError.
Proof.
  revert dx acc. induction row as [|value rest IH]; intros dx acc Hwf; simpl.
  { left. by exists acc. }
  destruct (decide (value ≠ 0)); [|by apply IH].
  destruct (decide (0 ≤ grid_y < GRID_HEIGHT)) as [Hy|]; [|by apply IH].
  destruct acc as [[grid locked] writes]. simpl in Hwf.
  destruct (grid_assign_cases grid grid_y (Tetrimino.x p + dx)
              (Tetrimino.color p) Hwf Hy)
    as [(r & r' & grid' & -> & Hr' & Hg' & Hwf')|(r & -> & Hr')]; simpl;
    rewrite Hr'; simpl; [|by right].
  rewrite Hg'. simpl. by apply IH.
Qed.

Lemma lock_row_refused p (grid_y dx : Z) (row : list Z) (acc : LockAcc) :
  wf_grid acc.1.1 → 0 ≤ grid_y < GRID_HEIGHT →
  (∃ (dc : nat) v, row !! dc = Some v ∧ v ≠ 0 ∧
     (Tetrimino.x p + dx + Z.of_nat dc >= GRID_WIDTH ∨
      Tetrimino.x p + dx + Z.of_nat dc < - GRID_WIDTH)) →
  lock_row p grid_y dx row acc = Raise IndexError.
Proof.
  revert dx acc. induction row as [|value rest IH]; intros dx acc Hwf Hy Hbad.
  { destruct Hbad as (dc & v & Hl & _). by rewrite lookup_nil in Hl. }
  simpl. destruct acc as [[grid locked] writes]. simpl in Hwf.
  assert (Hrest : ∀ acc1, wf_grid acc1.1.1 →
    (∃ (dc : nat) v, rest !! dc = Some v ∧ v ≠ 0 ∧
       (Tetrimino.x p + (dx + 1) + Z.of_nat dc >= GRID_WIDTH ∨
        Tetrimino.x p + (dx + 1) + Z.of_nat dc < - GRID_WIDTH)) →
    lock_row p grid_y (dx + 1) rest acc1 = Raise IndexError)
    by (intros; by apply IH).
  destruct Hbad as ([|dc] & v & Hl & Hne & Hcol); simplify_eq/=.
  - rewrite decide_True by done. rewrite decide_True by done.
    destruct (wf_grid_row grid grid_y Hwf Hy) as (r & _ & -> & Hlen). simpl.
    unfold Py.setitem.
    rewrite (index_out_of_range r (Tetrimino.x p + dx)); [reflexivity|].
    rewrite Hlen. pose proof GRID_WIDTH_eq. lia.
  - assert (Hlater : ∃ (dc : nat) v, rest !! dc = Some v ∧ v ≠ 0 ∧
       (Tetrimino.x p + (dx + 1) + Z.of_nat dc >= GRID_WIDTH ∨
        Tetrimino.x p + (dx + 1) + Z.of_nat dc < - GRID_WIDTH)).
    { exists dc, v. split_and!; [done..|]. lia. }
    destruct (decide (value ≠ 0)); [|by apply Hrest].
    rewrite decide_True by done.
    destruct (grid_assign_cases grid grid_y (Tetrimino.x p + dx)
                (Tetrimino.color p) Hwf Hy)
      as [(r & r' & grid' & -> & Hr' & Hg' & Hwf')|(r & -> & Hr')]; simpl;
      rewrite Hr'; simpl; [|done].
    rewrite Hg'. simpl. by apply Hrest.
Qed.

Lemma lock_rows_refused p (dy : Z) (sh : list (list Z)) (acc : LockAcc) :
  wf_grid acc.1.1 →
  (∃ dr dc : nat, occupied sh dr dc ∧
     0 ≤ Tetrimino.y p + dy + Z.of_nat dr < GRID_HEIGHT ∧
     (Tetrimino.x p + Z.of_nat dc >= GRID_WIDTH ∨
      Tetrimino.x p + Z.of_nat dc < - GRID_WIDTH)) →
  lock_rows p dy sh acc = Raise IndexError.
Proof.
  revert dy acc. induction sh as [|row rest IH]; intros dy acc Hwf Hbad.
  { destruct Hbad as (dr & dc & (rw & v & Hl & _) & _).
    by rewrite lookup_nil in Hl. }
  simpl.
  destruct Hbad as ([|dr] & dc & (rw & v & Hl & Hv & Hne) & Hy & Hcol);
    simplify_eq/=.
  - rewrite lock_row_refused; [done|done|lia|].
    exists dc, v. split_and!; [done..|]. lia.
  - destruct (lock_row_result p (Tetrimino.y p + dy) 0 row acc Hwf)
      as [(acc1 & -> & Hwf1)| ->]; simpl; [|done].
    apply IH; [done|]. exists dr, dc. split_and!; [by exists rw, v|lia..].
Qed.

(** X7: [lock_piece] tests the row of a cell and not its column.  When an
    occupied cell of the piece lies in a board row and its column is
    [>= GRID_WIDTH] or [< - GRID_WIDTH], the cell loop raises
    [IndexError].  (A column from [- GRID_WIDTH] to [-1] is accepted by
    Python and counts from the right wall.) *)

Theorem lock_cells_column_out_of_range (p : Tetrimino.t) (g : TetrisGame.t)
  (r c : Z) :
  wf_grid (grid g) →
  piece_cell p r c →
  0 ≤ r < GRID_HEIGHT →
  c >= GRID_WIDTH ∨ c < - GRID_WIDTH →
  lock_cells p g = Raise IndexError.
Proof.
  intros Hwf (dr & dc & Hocc & -> & ->) Hr Hc. unfold lock_cells.
  apply lock_rows_refused; [done|].
  exists dr, dc. split_and!; [done|lia..].
Qed.

Lemma lock_cells_column_out_of_range_witness :
  lock_cells (Tetrimino.set_x 8 (Tetrimino.init kT)) sample_game
  = Raise IndexError.
Proof.
  apply (lock_cells_column_out_of_range
           (Tetrimino.set_x 8 (Tetrimino.init kT)) sample_game 1 10).
  - apply wf_grid_empty.
  - exists 1%nat, 2%nat. split_and!; [|reflexivity..].
    exists [1; 1; 1], 1. split_and!; [reflexivity..|lia].
  - rewrite GRID_HEIGHT_eq. lia.
  - left. rewrite GRID_WIDTH_eq. lia.
Defined.

(** ** What the steps of [lock_piece] change *)

Lemma dict_get_set_eq {K V} `{EqDecision K} (d : Py.dict K V) (k : K) (v : V) :
  Py.dict_get (Py.dict_set d k v) k = Ok v.
Proof.
  induction d as [|[k' v'] d IH]; simpl.
  - by rewrite decide_True.
  - destruct (decide (k' = k)) as [->|Hne]; simpl.
    + by rewrite decide_True.
    + by rewrite decide_False.
Qed.

Lemma dict_get_set_ne {K V} `{EqDecision K} (d : Py.dict K V) (k k' : K) (v : V) :
  k ≠ k' → Py.dict_get (Py.dict_set d k v) k' = Py.dict_get d k'.
Proof.
  intros Hne. induction d as [|[k0 v0] d IH]; simpl.
  - by rewrite decide_False.
  - destruct (decide (k0 = k)) as [->|Hne0]; simpl.
    + by rewrite !decide_False.
    + by rewrite IH.
Qed.

Lemma clear_lines_form (g g' : TetrisGame.t) (n : Z) :
  clear_lines g = Ok (n, g') →
  (n = 0 ∧ g' = g) ∨
  ∃ rows grid', rows ≠ [] ∧ n = Z.of_nat (length rows) ∧
    g' = set_locked_positions (shift_locked rows (locked_positions g))
           (set_grid grid'
              (set_screen_shake (if decide (length rows = 4%nat) then 8 else 4)
                 (create_line_clear_effect rows g))).
Proof.
  unfold clear_lines. intros H. inv_bind H as lines Hscan.
  destruct lines as [|y ys]; [left; by simplify_eq|].
  inv_bind H as grid' Hrm. simplify_eq. right.
  exists (y :: ys), grid'. split_and!; [done..|].
  clear Hscan Hrm. destruct g; simpl. by case_decide.
Qed.

Lemma spawn_next_piece_form
  (shuffle : nat → list PieceType → list PieceType) (g g' : TetrisGame.t) :
  spawn_next_piece shuffle g = Ok g' →
  ∃ p rest new bag n st,
    next_pieces g = p :: rest ∧ (st = state g ∨ st = GAME_OVER) ∧
    g' = set_state st
           (set_total_pieces (total_pieces g + 1)
              (set_can_hold true
                 (set_next_pieces (rest ++ new)
                    (with_bag bag n (set_current_piece (Some p) g))))).
Proof.
  unfold spawn_next_piece. intros H.
  destruct (next_pieces g) as [|p rest] eqn:Hq; [done|]. simpl in H.
  inv_bind H as g1 Hgen.
  apply (generate_next_pieces_fields _ _ _ p) in Hgen
    as (new & bag & n & -> & _ & _); [|by destruct g].
  exists p, rest, new, bag, n.
  destruct g; simpl in *.
  destruct (Tetrimino._valid_position _ _ _ _) as [[|]|]; simplify_eq/=.
  - eexists. split; [done|]. split; [|reflexivity]. by left.
  - eexists. split; [done|]. split; [|reflexivity]. by right.
Qed.

Lemma calculate_score_other_fields (g : TetrisGame.t) (n : Z) :
  let g' := calculate_score n g in
  stats g' = stats g ∧ total_pieces g' = total_pieces g ∧
  can_hold g' = can_hold g ∧ hold_piece g' = hold_piece g ∧
  state g' = state g ∧ high_scores g' = high_scores g ∧
  (drop_speed g = calculate_drop_speed g →
   drop_speed g' = calculate_drop_speed g').
Proof.
  unfold calculate_score, calculate_drop_speed.
  destruct g; simpl. repeat (case_decide; simpl); split_and!; done.
Qed.

(** What [lock_piece] does to the counters, the hold flag, the phase and
    the drop interval. *)

Lemma lock_piece_fields
  (shuffle : nat → list PieceType → list PieceType) (g g' : TetrisGame.t)
  (p : Tetrimino.t) :
  current_piece g = Some p →
  lock_piece shuffle g = Ok g' →
  ∃ n, Py.dict_get (stats g) (Tetrimino.piece_type p) = Ok n ∧
    stats g' = Py.dict_set (stats g) (Tetrimino.piece_type p) (n + 1) ∧
    total_pieces g' = total_pieces g + 1 ∧
    can_hold g' = true ∧ hold_piece g' = hold_piece g ∧
    high_scores g' = high_scores g ∧
    (state g' = state g ∨ state g' = GAME_OVER) ∧
    (drop_speed g = calculate_drop_speed g →
     drop_speed g' = calculate_drop_speed g').
Proof.
  unfold lock_piece. intros Hp H. rewrite Hp in H.
  inv_bind H as [[grid' locked'] writes] Hlock.
  inv_bind H as n Hstat. inv_bind H as [lines g2] Hclear.
  exists n. split; [by destruct g|].
  set (g1 := set_stats _ _) in Hclear.
  pose proof (calculate_score_other_fields g2 lines) as Hcs. cbv zeta in Hcs.
  destruct Hcs as (Hs & Ht & _ & Hh & Hst & Hhs & Hsp).
  apply spawn_next_piece_form in H
    as (q & rest & new & bag & k & st & _ & Hstq & ->).
  assert (Hg2 : stats g2 = stats g1 ∧ total_pieces g2 = total_pieces g1 ∧
                hold_piece g2 = hold_piece g1 ∧ state g2 = state g1 ∧
                high_scores g2 = high_scores g1 ∧
                drop_speed g2 = drop_speed g1 ∧ level g2 = level g1).
  { apply clear_lines_form in Hclear
      as [[_ ->]|(rows & grid2 & _ & _ & ->)]; [done|].
    destruct g1; simpl. by case_decide. }
  destruct Hg2 as (Hs2 & Ht2 & Hh2 & Hst2 & Hhs2 & Hd2 & Hl2).
  generalize dependent (calculate_score lines g2). intros g3 Hstq Hs Ht Hh Hst Hhs Hsp.
  assert (Hg1 : stats g1 = Py.dict_set (stats g) (Tetrimino.piece_type p) (n + 1)
                ∧ total_pieces g1 = total_pieces g ∧
                hold_piece g1 = hold_piece g ∧ state g1 = state g ∧
                high_scores g1 = high_scores g ∧
                drop_speed g1 = drop_speed g ∧ level g1 = level g)
    by (by destruct g).
  destruct Hg1 as (Hs1 & Ht1 & Hh1 & Hst1 & Hhs1 & Hd1 & Hl1).
  assert (Hcalc : calculate_drop_speed g2 = calculate_drop_speed g)
    by (unfold calculate_drop_speed; congruence).
  clearbody g1. clear Hclear Hlock Hstat.
  destruct g3; simpl in *. split_and!; try congruence.
  intros Hd. unfold calculate_drop_speed in *. simpl in *. apply Hsp.
  congruence.
Qed.

(** X8: a [lock_piece] that returns has counted the piece: the entry of
    its type in [stats] is one higher, the other entries are as before,
    [total_pieces] is one higher, and holding is allowed again while the
    hold slot is untouched. *)

Theorem lock_piece_counts_the_piece
  (shuffle : nat → list PieceType → list PieceType) (g g' : TetrisGame.t)
  (p : Tetrimino.t) :
  current_piece g = Some p →
  lock_piece shuffle g = Ok g' →
  ∃ n, Py.dict_get (stats g) (Tetrimino.piece_type p) = Ok n ∧
    Py.dict_get (stats g') (Tetrimino.piece_type p) = Ok (n + 1) ∧
    (∀ pt, pt ≠ Tetrimino.piece_type p →
       Py.dict_get (stats g') pt = Py.dict_get (stats g) pt) ∧
    total_pieces g' = total_pieces g + 1 ∧
    can_hold g' = true ∧ hold_piece g' = hold_piece g.
Proof.
  intros Hp H.
  destruct (lock_piece_fields shuffle g g' p Hp H)
    as (n & Hn & Hs & Ht & Hc & Hh & _).
  exists n. rewrite Hs. split_and!; [done| |  |done..].
  - apply dict_get_set_eq.
  - intros pt Hne. by apply dict_get_set_ne.
Qed.

Lemma lock_piece_counts_the_piece_witness :
  ∃ g' n, lock_piece fixed_shuffle sample_game = Ok g' ∧
    Py.dict_get (stats sample_game) kT = Ok n ∧
    Py.dict_get (stats g') kT = Ok (n + 1) ∧
    total_pieces g' = total_pieces sample_game + 1.
Proof.
  pose (g' := match lock_piece fixed_shuffle sample_game with
              | Ok g => g
              | Raise _ => sample_game
              end).
  assert (H : lock_piece fixed_shuffle sample_game = Ok g')
    by (vm_compute; reflexivity).
  destruct (lock_piece_counts_the_piece fixed_shuffle sample_game g'
              (Tetrimino.init kT) eq_refl H) as (n & Hn & Hn' & _ & Ht & _).
  exists g', n. split_and!; [exact H|exact Hn|exact Hn'|exact Ht].
Defined.

(** ** Scoring a count that [line_scores] does not list *)

(** X9: [line_scores.get(lines_cleared, 0)] gives 0 for a count outside
    1..4: the score then grows by the combo bonus only, while the line
    total and the combo counter grow as for any other count. *)

Theorem calculate_score_unlisted_count (g : TetrisGame.t) (n : Z) :
  n < 0 ∨ 4 < n →
  let g' := calculate_score n g in
  score g' = score g + (if decide (combo g > 0)
                        then 50 * combo g * level g else 0) ∧
  lines_cleared g' = lines_cleared g + n ∧
  combo g' = combo g + 1.
Proof.
  intros Hn. unfold calculate_score, line_scores_get.
  destruct g; simpl. repeat (case_decide; simpl); split_and!; try done; lia.
Qed.

Lemma calculate_score_unlisted_count_witness :
  let g' := calculate_score 5 sample_game in
  score g' = score sample_game
             + (if decide (combo sample_game > 0)
                then 50 * combo sample_game * level sample_game else 0) ∧
  lines_cleared g' = lines_cleared sample_game + 5 ∧
  combo g' = combo sample_game + 1.
Proof. apply (calculate_score_unlisted_count sample_game 5). right. lia. Defined.

(** ** The bag and the queue *)

Lemma draw_pieces_bag (shuffle : nat → list PieceType → list PieceType)
  (rl : list PieceType) (g : TetrisGame.t) :
  piece_bag g = reverse rl →
  draw_pieces shuffle (length rl) g = Ok (rl, set_piece_bag [] g).
Proof.
  revert g. induction rl as [|a rl IH]; intros g Hbag.
  { simpl. do 2 f_equal. destruct g; simpl in *. by subst. }
  simpl. unfold get_next_piece.
  rewrite reverse_cons in Hbag.
  assert (Hpop : Py.pop_back (piece_bag g) = Ok (a, reverse rl)).
  { unfold Py.pop_back. rewrite Hbag, reverse_app, reverse_involutive. done. }
  assert (∃ b bag, piece_bag g = b :: bag) as (b & bag & Hb).
  { rewrite Hbag. destruct (reverse rl); simpl; eauto. }
  rewrite Hb. cbv zeta iota. rewrite Hpop. simpl.
  rewrite (IH (set_piece_bag (reverse rl) g)) by (by destruct g).
  simpl. do 2 f_equal. by destruct g.
Qed.

(** X10: starting from an empty bag, seven calls of [get_next_piece] make
    one call of [random.shuffle], return each of the seven piece types
    once, and leave the bag empty again. *)

Theorem seven_draws_are_a_permutation
  (shuffle : nat → list PieceType → list PieceType) (g : TetrisGame.t) :
  (∀ n, shuffle n SHAPES_keys ≡ₚ SHAPES_keys) →
  piece_bag g = [] →
  ∃ pts g', draw_pieces shuffle 7 g = Ok (pts, g') ∧
    pts ≡ₚ SHAPES_keys ∧ piece_bag g' = [] ∧
    shuffles g' = S (shuffles g).
Proof.
  intros Hperm Hbag.
  set (l := shuffle (shuffles g) SHAPES_keys).
  assert (Hl : l ≡ₚ SHAPES_keys) by apply Hperm.
  assert (Hlen : length (reverse l) = 7%nat).
  { by rewrite length_reverse, Hl. }
  pose proof (draw_pieces_bag shuffle (reverse l) (refill_bag shuffle g)) as Hd.
  rewrite Hlen in Hd.
  assert (Hstep : get_next_piece shuffle g
                  = get_next_piece shuffle (refill_bag shuffle g)).
  { unfold get_next_piece. rewrite Hbag.
    destruct (piece_bag (refill_bag shuffle g)) eqn:Hb;
      [|cbv zeta iota; by rewrite Hb].
    assert (l = []) as Hnil by (destruct g; simpl in *; by subst).
    rewrite Hnil in Hlen. done. }
  exists (reverse l), (set_piece_bag [] (refill_bag shuffle g)).
  split_and!.
  - change (draw_pieces shuffle 7 g) with
      ('(pt, g) ← get_next_piece shuffle g;
       '(pts, g) ← draw_pieces shuffle 6 g; Ok (pt :: pts, g)).
    rewrite Hstep. apply Hd. rewrite reverse_involutive. by destruct g.
  - by rewrite reverse_Permutation.
  - by destruct g.
  - by destruct g.
Qed.

Lemma seven_draws_are_a_permutation_witness :
  ∃ pts g', draw_pieces fixed_shuffle 7 (set_piece_bag [] sample_game)
            = Ok (pts, g') ∧
    pts ≡ₚ SHAPES_keys ∧ piece_bag g' = [] ∧
    shuffles g' = S (shuffles (set_piece_bag [] sample_game)).
Proof.
  apply (seven_draws_are_a_permutation fixed_shuffle
           (set_piece_bag [] sample_game)).
  - intros n. reflexivity.
  - reflexivity.
Defined.

(** X11: [reset_game] shuffles a fresh bag and deals four pieces from its
    end: the falling piece and the three queued ones are new pieces of
    the last four types of the shuffled list, the first three stay in the
    bag, so the seven types are each present once.  The board, the score,
    the line total, the level and the hold slot are reset; the phase and
    [drop_speed] are not assigned. *)

Theorem reset_game_deals_from_a_fresh_bag
  (shuffle : nat → list PieceType → list PieceType) (now : Z)
  (g : TetrisGame.t) :
  (∀ n, shuffle n SHAPES_keys ≡ₚ SHAPES_keys) →
  ∃ g' p, reset_game shuffle now g = Ok g' ∧
    current_piece g' = Some p ∧ length (next_pieces g') = 3%nat ∧
    Forall fresh_piece (p :: next_pieces g') ∧
    piece_bag g' ++ reverse (Tetrimino.piece_type <$> p :: next_pieces g')
      = shuffle (shuffles g) SHAPES_keys ∧
    (Tetrimino.piece_type <$> p :: next_pieces g') ++ piece_bag g'
      ≡ₚ SHAPES_keys ∧
    shuffles g' = S (shuffles g) ∧
    grid g' = empty_grid ∧ score g' = 0 ∧ lines_cleared g' = 0 ∧
    level g' = 1 ∧ hold_piece g' = None ∧ can_hold g' = true ∧
    start_time g' = now ∧ state g' = state g ∧ drop_speed g' = drop_speed g.
Proof.
  intros Hperm.
  pose proof (Hperm (shuffles g)) as Hl.
  assert (Hlen : length (shuffle (shuffles g) SHAPES_keys) = 7%nat)
    by (by rewrite Hl).
  destruct (shuffle (shuffles g) SHAPES_keys)
    as [|a [|b [|c [|d [|e [|f [|h [|??]]]]]]]] eqn:Heq; try done.
  assert (Hrun : reset_game shuffle now g = Ok
    (set_next_pieces [Tetrimino.init f; Tetrimino.init e; Tetrimino.init d]
       (set_current_piece (Some (Tetrimino.init h))
          (set_shuffles (S (shuffles g))
             (set_piece_bag [a; b; c]
                (set_start_time now
                   (set_total_pieces 0
                      (set_stats ((λ piece, (piece, 0)) <$> SHAPES_keys)
                         (set_can_hold true
                            (set_hold_piece None
                               (set_combo 0
                                  (set_level 1
                                     (set_lines_cleared 0
                                        (set_score 0
                                           (set_locked_positions []
                                              (set_grid empty_grid g)))))))))))))))).
  { unfold reset_game, generate_next_pieces, get_next_piece, refill_bag.
    destruct g; simpl in *. rewrite Heq. reflexivity. }
  eexists _, (Tetrimino.init h). split; [exact Hrun|].
  split_and!; try (by destruct g).
  - destruct g; simpl. repeat constructor; by eexists.
  - etransitivity; [|exact Hl].
    replace (piece_bag _) with [a; b; c] by (by destruct g).
    replace (next_pieces _)
      with [Tetrimino.init f; Tetrimino.init e; Tetrimino.init d]
      by (by destruct g).
    simpl. rewrite (Permutation_app_comm [h; f; e; d] [a; b; c]). simpl.
    do 3 f_equiv. apply (reverse_Permutation [d; e; f; h]).
Qed.

Lemma reset_game_deals_from_a_fresh_bag_witness :
  ∃ g' p, reset_game fixed_shuffle 0 sample_game = Ok g' ∧
    current_piece g' = Some p ∧
    (Tetrimino.piece_type <$> p :: next_pieces g') ++ piece_bag g'
      ≡ₚ SHAPES_keys.
Proof.
  destruct (reset_game_deals_from_a_fresh_bag fixed_shuffle 0 sample_game)
    as (g' & p & H1 & H2 & _ & _ & _ & H3 & _).
  - intros n. reflexivity.
  - by exists g', p.
Defined.

(** X12: with three pieces queued, [spawn_next_piece] makes the first of
    them the falling piece, moves the other two up and appends one new
    piece; it allows holding again and counts the piece in
    [total_pieces]. *)

Theorem spawn_shifts_queue
  (shuffle : nat → list PieceType → list PieceType) (g : TetrisGame.t)
  (a b c : Tetrimino.t) :
  (∀ n, shuffle n SHAPES_keys ≡ₚ SHAPES_keys) →
  wf_grid (grid g) →
  next_pieces g = [a; b; c] →
  ∃ g' pt, spawn_next_piece shuffle g = Ok g' ∧
    current_piece g' = Some a ∧
    next_pieces g' = [b; c; Tetrimino.init pt] ∧
    can_hold g' = true ∧ total_pieces g' = total_pieces g + 1 ∧
    hold_piece g' = hold_piece g ∧ score g' = score g.
Proof.
  intros Hperm Hwf Hq.
  destruct (spawn_next_piece_ok shuffle Hperm g a [b; c] Hwf Hq)
    as (ok & g' & _ & Hsp & _).
  exists g'. pose proof Hsp as Hrun. unfold spawn_next_piece in Hrun.
  rewrite Hq in Hrun. simpl in Hrun. inv_bind Hrun as g1 Hgen.
  apply (generate_next_pieces_fields _ _ _ a) in Hgen
    as (new & bag & n & -> & Hlen & Hnew); [|by destruct g].
  assert (Hnl : length new = 1%nat) by (destruct g; simpl in *; lia).
  destruct new as [|x [|??]]; simplify_eq/=.
  apply Forall_cons in Hnew as [[pt ->] _]. exists pt.
  destruct g; simpl in *.
  destruct (Tetrimino._valid_position _ _ _ _) as [[|]|]; by simplify_eq/=.
Qed.

Lemma spawn_shifts_queue_witness :
  ∃ g' pt, spawn_next_piece fixed_shuffle sample_game = Ok g' ∧
    current_piece g' = Some (Tetrimino.init kJ) ∧
    next_pieces g' = [Tetrimino.init kZ; Tetrimino.init kS; Tetrimino.init pt] ∧
    can_hold g' = true ∧ total_pieces g' = total_pieces sample_game + 1 ∧
    hold_piece g' = hold_piece sample_game ∧ score g' = score sample_game.
Proof.
  apply (spawn_shifts_queue fixed_shuffle sample_game).
  - intros n. reflexivity.
  - apply wf_grid_empty.
  - reflexivity.
Defined.

(** ** Hold *)

(** X13: a second [hold_current_piece] right after one that returned
    changes nothing; after a hold that found holding allowed and a
    falling piece, holding is not allowed. *)

Theorem hold_twice (shuffle : nat → list PieceType → list PieceType)
  (g g' : TetrisGame.t) :
  hold_current_piece shuffle g = Ok g' →
  hold_current_piece shuffle g' = Ok g' ∧
  (can_hold g = true → current_piece g ≠ None → can_hold g' = false).
Proof.
  unfold hold_current_piece at 1. intros H.
  destruct (can_hold g) eqn:Hcan; simpl in H.
  - destruct (current_piece g) as [p|] eqn:Hp.
    + inv_bind H as g1 Hg1. simplify_eq.
      split; [|by destruct g1]. unfold hold_current_piece.
      by destruct g1.
    + simplify_eq. split; [|done]. unfold hold_current_piece.
      by rewrite Hcan, Hp.
  - simplify_eq. split; [|done]. unfold hold_current_piece. by rewrite Hcan.
Qed.

Lemma hold_twice_witness :
  ∃ g', hold_current_piece fixed_shuffle sample_game = Ok g' ∧
    hold_current_piece fixed_shuffle g' = Ok g' ∧ can_hold g' = false.
Proof.
  pose (g' := match hold_current_piece fixed_shuffle sample_game with
              | Ok g => g
              | Raise _ => sample_game
              end).
  assert (H : hold_current_piece fixed_shuffle sample_game = Ok g')
    by (vm_compute; reflexivity).
  destruct (hold_twice fixed_shuffle sample_game g' H) as [H1 H2].
  exists g'. split_and!; [exact H|exact H1|].
  apply H2; [reflexivity|discriminate].
Defined.

(** ** Events *)

(** X14: [handle_events] stops at a [QUIT] event: the events before it are
    handled, those after it are not looked at, and the answer is [False]
    whatever the earlier events answered. *)

Theorem quit_event_ends_handling
  (shuffle : nat → list PieceType → list PieceType) (now : Z)
  (before after : list Event) (g : TetrisGame.t) :
  handle_events shuffle now (before ++ QUIT :: after) g
  = ('(_, g') ← handle_events shuffle now before g; Ok (false, g')).
Proof.
  revert g. induction before as [|e before IH]; intros g; [done|].
  destruct e as [|k|]; simpl; [done| |by apply IH].
  destruct (handle_key shuffle now k g) as [[[|] g1]|]; simpl; [|done..].
  apply IH.
Qed.

(** X15: in the Playing phase, the pause key, any keys but the pause key,
    and the pause key again leave the game object as it was; while the
    pause lasts [update] does nothing, however late the clock. *)

Theorem pause_resume_round_trip
  (shuffle : nat → list PieceType → list PieceType) (now : Z)
  (ks : list Key) (g : TetrisGame.t) :
  state g = PLAYING →
  K_p ∉ ks →
  handle_events shuffle now (keys (K_p :: ks ++ [K_p])) g = Ok (true, g) ∧
  ∃ g1, handle_events shuffle now (keys (K_p :: ks)) g = Ok (true, g1) ∧
        update shuffle now g1 = Ok g1.
Proof.
  intros Hst Hks.
  assert (Hpaused : ∀ ks, K_p ∉ ks →
            handle_events shuffle now (keys ks) (set_state PAUSED g)
            = Ok (true, set_state PAUSED g) ∧
            handle_events shuffle now (keys (ks ++ [K_p])) (set_state PAUSED g)
            = Ok (true, g)).
  { clear ks Hks. induction ks as [|k ks IH]; intros Hks.
    - split; [done|]. simpl. unfold handle_key.
      replace (state (set_state PAUSED g)) with PAUSED by (by destruct g).
      simpl. do 2 f_equal. destruct g; simpl in *. by subst.
    - apply not_elem_of_cons in Hks as [Hk Hks].
      assert (Hkey : handle_key shuffle now k (set_state PAUSED g)
                     = Ok (true, set_state PAUSED g)).
      { unfold handle_key.
        replace (state (set_state PAUSED g)) with PAUSED by (by destruct g).
        by destruct k. }
      destruct (IH Hks) as [IH1 IH2].
      split; simpl; rewrite Hkey; simpl; done. }
  destruct (Hpaused ks Hks) as [H1 H2].
  assert (Hfirst : handle_key shuffle now K_p g = Ok (true, set_state PAUSED g)).
  { unfold handle_key. by rewrite Hst. }
  split.
  - simpl. rewrite Hfirst. simpl. apply H2.
  - exists (set_state PAUSED g). split.
    + simpl. rewrite Hfirst. simpl. apply H1.
    + unfold update. rewrite decide_True; [done|]. by destruct g.
Qed.

Lemma pause_resume_round_trip_witness :
  handle_events fixed_shuffle 0
    (keys (K_p :: [K_LEFT; K_SPACE; K_c] ++ [K_p])) sample_game
  = Ok (true, sample_game) ∧
  ∃ g1, handle_events fixed_shuffle 0 (keys (K_p :: [K_LEFT; K_SPACE; K_c]))
          sample_game = Ok (true, g1) ∧
        update fixed_shuffle 0 g1 = Ok g1.
Proof.
  apply (pause_resume_round_trip fixed_shuffle 0 [K_LEFT; K_SPACE; K_c]
           sample_game).
  - reflexivity.
  - intros Hel.
    repeat (apply elem_of_cons in Hel as [Hel|Hel]; [discriminate|]).
    by apply elem_of_nil in Hel.
Defined.

(** ** The high-score list *)

#[local] Instance flip_le_total : Total (flip Z.le).
Proof. intros x y. unfold flip. lia. Qed.

#[local] Instance flip_le_trans : Transitive (flip Z.le).
Proof. intros x y z. unfold flip. lia. Qed.

(** X16: [save_high_score] leaves [high_scores] sorted from high to low
    and of length [min (n + 1) 10]; the list kept and the entries dropped
    are together the old list and the score, no dropped entry is above a
    kept one; the list kept is what is dumped, and the score itself is
    not changed. *)

Theorem save_high_score_keeps_top_ten (g : TetrisGame.t) :
  let g' := save_high_score g in
  StronglySorted (flip Z.le) (high_scores g') ∧
  length (high_scores g') = (S (length (high_scores g)) `min` 10)%nat ∧
  (∃ dropped, high_scores g' ++ dropped ≡ₚ high_scores g ++ [score g] ∧
              ∀ k d, k ∈ high_scores g' → d ∈ dropped → d ≤ k) ∧
  score_file g' = high_scores g' :: score_file g ∧
  score g' = score g.
Proof.
  set (sorted := Py.sorted_desc (high_scores g ++ [score g])).
  assert (Hs : StronglySorted (flip Z.le) sorted)
    by (apply StronglySorted_merge_sort; apply _).
  assert (Hp : sorted ≡ₚ high_scores g ++ [score g])
    by apply merge_sort_Permutation.
  assert (Hhs : high_scores (save_high_score g) = take 10 sorted)
    by (by destruct g).
  cbv zeta. rewrite Hhs.
  rewrite <- (take_drop 10 sorted) in Hs, Hp.
  apply StronglySorted_app in Hs as (Hcross & Hs1 & _).
  split_and!.
  - done.
  - rewrite length_take. unfold sorted, Py.sorted_desc.
    rewrite merge_sort_Permutation, length_app.
    change (length [score g]) with 1%nat. lia.
  - exists (drop 10 sorted). split; [done|]. intros k d Hk Hd.
    apply (Hcross k d Hk Hd).
  - by destruct g.
  - by destruct g.
Qed.

(** ** The engine calls of a frame raise nothing *)

Lemma fresh_in_columns (pt : PieceType) : in_columns (Tetrimino.init pt).
Proof. intros dr dc Hocc. by apply fresh_piece_in_board in Hocc as [? _]. Qed.

Lemma safe_inv_core (g g' : TetrisGame.t) :
  core g' = core g → stats g' = stats g → safe_inv g → safe_inv g'.
Proof.
  intros Hc Hs (Hinv & Hst & Hcol). split_and!.
  - by apply (game_inv_core g).
  - unfold stats_ok. by rewrite Hs.
  - unfold core in Hc. simplify_eq. intros p Hp. apply Hcol. congruence.
Qed.

Lemma stats_ok_set (d : Py.dict PieceType Z) (pt : PieceType) (v : Z) :
  (∀ k, ∃ n, Py.dict_get d k = Ok n) →
  ∀ k, ∃ n, Py.dict_get (Py.dict_set d pt v) k = Ok n.
Proof.
  intros Hd k. destruct (decide (pt = k)) as [->|Hne].
  - rewrite dict_get_set_eq. eauto.
  - rewrite dict_get_set_ne by done. apply Hd.
Qed.

Section safety.

Variable shuffle : nat → list PieceType → list PieceType.
Hypothesis shuffle_perm : ∀ n, shuffle n SHAPES_keys ≡ₚ SHAPES_keys.

Lemma reset_game_ok (now : Z) (g : TetrisGame.t) :
  ∃ g' pt, reset_game shuffle now g = Ok g' ∧
    stats g' = (λ piece, (piece, 0)) <$> SHAPES_keys ∧
    current_piece g' = Some (Tetrimino.init pt).
Proof.
  unfold reset_game. cbv zeta. set (G := set_start_time now _).
  assert (Hc : current_piece G = None) by (by destruct g).
  assert (Hs : stats G = (λ piece, (piece, 0)) <$> SHAPES_keys)
    by (by destruct g).
  clearbody G. unfold generate_next_pieces. rewrite Hc.
  destruct (get_next_piece_ok shuffle shuffle_perm G) as (pt & bag & n & ->).
  cbn [mbind Res_bind].
  match goal with |- context [fill_next_pieces shuffle ?k ?G'] =>
    destruct (fill_next_pieces_ok shuffle shuffle_perm k G')
      as (new & bag' & n' & ->) end.
  eexists _, pt. split; [done|]. destruct G; simpl in *. by subst.
Qed.

Lemma reset_game_safe (now : Z) (g : TetrisGame.t) :
  ∃ g', reset_game shuffle now g = Ok g' ∧ safe_inv g' ∧ state g' = state g.
Proof.
  destruct (reset_game_ok now g) as (g' & pt & Hrun & Hstats & Hcur).
  exists g'. split; [done|].
  destruct (reset_game_inv shuffle now g g' Hrun) as (Hinv & _ & _ & _ & Hst & _).
  split; [|done]. split_and!; [done| |].
  - unfold stats_ok. rewrite Hstats. intros []; by eexists.
  - intros p Hp. rewrite Hcur in Hp. injection Hp as <-.
    apply fresh_in_columns.
Qed.

Lemma move_piece_safe (g : TetrisGame.t) (dx dy : Z) (rot : bool) :
  safe_inv g →
  ∃ ok g', move_piece g dx dy rot = Ok (ok, g') ∧ safe_inv g' ∧
           state g' = state g.
Proof.
  intros Hsafe. pose proof Hsafe as (Hinv & Hstats & Hcol).
  assert (Hex : ∃ ok g', move_piece g dx dy rot = Ok (ok, g') ∧
            (g' = g ∨ ∃ q, g' = set_current_piece (Some q) g ∧ in_columns q)).
  { destruct Hinv as (Hwf & _ & (p & Hp & _) & _).
    destruct (decide (state g = PLAYING)) as [Hst|Hst].
    - rewrite (move_piece_unfold g p dx dy rot Hst Hp). cbv zeta.
      set (q := moved_piece p dx dy rot).
      destruct (valid_position_total (Tetrimino.x q) (Tetrimino.y q)
                  (Tetrimino.shape q) (grid g) Hwf) as (ok & Hok & _).
      rewrite Hok. simpl. exists ok. eexists. split; [done|].
      destruct ok; [right|by left]. exists q. split; [done|].
      intros dr dc Hocc.
      by destruct (valid_position_bounds _ _ _ _ Hwf Hok dr dc Hocc).
    - rewrite move_piece_not_playing by done.
      exists false, g. split; [done|by left]. }
  destruct Hex as (ok & g' & Hrun & Hg'). exists ok, g'. split; [done|].
  destruct (move_piece_inv _ _ _ _ _ _ Hrun Hinv) as [Hinv' Hst'].
  split; [|done]. split_and!; [done| |].
  - destruct Hg' as [->|(q & -> & _)]; [done|]. unfold stats_ok. by destruct g.
  - destruct Hg' as [->|(q & -> & Hq)]; [done|].
    intros p' Hp'. destruct g; simpl in *. by simplify_eq.
Qed.

Lemma spawn_next_piece_safe (g : TetrisGame.t) :
  game_inv g → stats_ok g →
  ∃ g', spawn_next_piece shuffle g = Ok g' ∧ safe_inv g'.
Proof.
  intros Hinv Hstats. pose proof Hinv as (Hwf & _ & _ & Hlen & Hnext).
  destruct (next_pieces g) as [|p rest] eqn:Hq; [done|].
  destruct (spawn_next_piece_ok shuffle shuffle_perm g p rest Hwf Hq)
    as (ok & g' & _ & Hrun & Hcur & _).
  exists g'. split; [done|]. split_and!.
  - by eapply spawn_next_piece_inv.
  - apply spawn_next_piece_form in Hrun
      as (? & ? & ? & ? & ? & ? & _ & _ & ->).
    unfold stats_ok. by destruct g.
  - intros p' Hp'. rewrite Hcur in Hp'. injection Hp' as <-.
    apply Forall_cons in Hnext as [[pt ->] _]. apply fresh_in_columns.
Qed.

Lemma lock_piece_safe (g : TetrisGame.t) :
  safe_inv g → ∃ g', lock_piece shuffle g = Ok g' ∧ safe_inv g'.
Proof.
  intros (Hinv & Hstats & Hcol).
  pose proof Hinv as (Hwf & Hlvl & (p & Hp & Hrot) & Hlen & Hnext).
  assert (Hex : ∃ g_pre, lock_piece shuffle g = spawn_next_piece shuffle g_pre
                         ∧ game_inv g_pre ∧ stats_ok g_pre).
  { unfold lock_piece. rewrite Hp. unfold lock_cells.
    destruct (lock_rows_spec (grid g) p 0 (Tetrimino.shape p)
                (grid g, locked_positions g, []))
      as ([[grid' locked'] writes] & -> & Hwf' & _).
    - split_and!; [done|constructor|intros ?? []%elem_of_nil|done].
    - by apply Hcol.
    - simpl. destruct (Hstats (Tetrimino.piece_type p)) as [n Hn].
      replace (stats (set_locked_positions locked' (set_grid grid' g)))
        with (stats g) by (by destruct g).
      rewrite Hn. simpl.
      set (g1 := set_stats _ _).
      assert (Hwf1 : wf_grid (grid g1)) by (by destruct g).
      assert (Hst1 : stats_ok g1).
      { unfold stats_ok.
        replace (stats g1)
          with (Py.dict_set (stats g) (Tetrimino.piece_type p) (n + 1))
          by (by destruct g).
        by apply stats_ok_set. }
      destruct (clear_lines_count_and_height g1 Hwf1) as (g2 & Hcl & Hwf2).
      revert Hcl. generalize ((clearFullRows_spec (grid g1)).2). intros cnt Hcl.
      rewrite Hcl. simpl. eexists. split; [done|].
      pose proof Hcl as Hform.
      apply clear_lines_fields in Hcl as (Hn0 & Hl & Hlc & Hc & Hq & _).
      assert (Hlvl2 : level_ok g2).
      { unfold level_ok. rewrite Hl, Hlc. by destruct g. }
      destruct (calculate_score_inv g2 _ Hn0 Hlvl2)
        as (Hlvl3 & Hg3 & Hc3 & Hq3 & _).
      split.
      + unfold game_inv. rewrite Hg3, Hc3, Hq3, Hc, Hq.
        split_and!; [done..| | |]; destruct g; simpl; eauto.
      + pose proof (calculate_score_other_fields g2 cnt) as Hcs.
        cbv zeta in Hcs. destruct Hcs as (Hs & _).
        unfold stats_ok. rewrite Hs.
        apply clear_lines_form in Hform
          as [[_ ->]|(rows & grid2 & _ & _ & ->)]; [done|].
        replace (stats _) with (stats g1); [done|].
        destruct g1; simpl. by case_decide. }
  destruct Hex as (g_pre & -> & Hinv_pre & Hstats_pre).
  by apply spawn_next_piece_safe.
Qed.

Lemma drop_loop_safe_inv (fuel : nat) (d d' : Z) (g g' : TetrisGame.t) :
  drop_loop fuel d g = Ok (d', g') → safe_inv g →
  safe_inv g' ∧ state g' = state g.
Proof.
  revert d g. induction fuel as [|fuel IH]; intros d g H Hsafe; [done|].
  simpl in H.
  destruct (move_piece_safe g 0 1 false Hsafe) as (ok & g1 & Hm & Hs1 & Hst1).
  rewrite Hm in H. simpl in H. destruct ok; [|by simplify_eq].
  apply IH in H as [? ?]; [|done]. split; [done|congruence].
Qed.

Lemma hard_drop_safe (g : TetrisGame.t) :
  safe_inv g → ∃ g', hard_drop shuffle g = Ok g' ∧ safe_inv g'.
Proof.
  intros Hsafe. unfold hard_drop.
  destruct (current_piece g) as [p|] eqn:Hp; [|by eauto].
  pose proof Hsafe as ((Hwf & _ & (p' & Hp' & Hrot) & _) & _).
  rewrite Hp in Hp'. injection Hp' as <-.
  destruct (drop_loop_terminates (S (Z.to_nat (GRID_HEIGHT - Tetrimino.y p)))
              0 g p Hwf Hp (rotation_of_base_occupied p Hrot))
    as (d' & g1 & Hrun); [lia|].
  rewrite Hrun. simpl.
  apply drop_loop_safe_inv in Hrun as [Hs1 _]; [|done].
  apply lock_piece_safe. apply (safe_inv_core g1); [by destruct g1..|done].
Qed.

Lemma hold_current_piece_safe (g : TetrisGame.t) :
  safe_inv g → ∃ g', hold_current_piece shuffle g = Ok g' ∧ safe_inv g'.
Proof.
  intros Hsafe. pose proof Hsafe as (Hinv & Hst & Hcol).
  assert (Hex : ∃ g', hold_current_piece shuffle g = Ok g' ∧ stats_ok g' ∧
                  (∀ p, current_piece g' = Some p → in_columns p)).
  { pose proof Hinv as (_ & _ & (p & Hp & _) & _).
    unfold hold_current_piece. rewrite Hp.
    destruct (can_hold g); simpl; [|by exists g].
    destruct (hold_piece g) as [h|].
    - simpl. eexists. split; [done|]. split.
      + unfold stats_ok. by destruct g.
      + intros q Hq.
        assert (q = Tetrimino.init (Tetrimino.piece_type h))
          by (destruct g; simpl in *; by simplify_eq).
        subst. apply fresh_in_columns.
    - destruct (spawn_next_piece_safe
                  (set_hold_piece
                     (Some (Tetrimino.init (Tetrimino.piece_type p))) g))
        as (g1 & -> & Hs1).
      + apply (game_inv_core g); [by destruct g|done].
      + unfold stats_ok. by destruct g.
      + simpl. eexists. split; [done|]. destruct Hs1 as (_ & Hst1 & Hc1).
        split.
        * unfold stats_ok. by destruct g1.
        * intros q Hq. apply Hc1. by destruct g1. }
  destruct Hex as (g' & Hrun & Hst' & Hcol'). exists g'. split; [done|].
  split_and!; [|done..]. by eapply hold_current_piece_inv.
Qed.

Lemma handle_key_safe (now : Z) (k : Key) (g : TetrisGame.t) :
  safe_inv g →
  ∃ r g', handle_key shuffle now k g = Ok (r, g') ∧ safe_inv g'.
Proof.
  intros Hsafe. unfold handle_key.
  assert (Hreset : ∀ st, ∃ r g',
            (g ← reset_game shuffle now (set_state st g); Ok (true, g))
            = Ok (r, g') ∧ safe_inv g').
  { intros st.
    destruct (reset_game_safe now (set_state st g)) as (g' & -> & Hs & _).
    simpl. eauto. }
  assert (Hmove : ∀ dx dy rot, ∃ r g',
            ('(_, g) ← move_piece g dx dy rot; Ok (true, g)) = Ok (r, g')
            ∧ safe_inv g').
  { intros. destruct (move_piece_safe g dx dy rot Hsafe)
      as (ok & g' & -> & Hs & _). simpl. eauto. }
  assert (Hstate : ∀ st, safe_inv (set_state st g)).
  { intros. apply (safe_inv_core g); [by destruct g..|done]. }
  destruct (state g), k; eauto.
  - destruct (move_piece_safe g 0 1 false Hsafe) as (ok & g' & -> & Hs & _).
    simpl. eexists _, _. split; [done|]. destruct ok; [|done].
    apply (safe_inv_core g'); [by destruct g'..|done].
  - destruct (hard_drop_safe g Hsafe) as (g' & -> & Hs). simpl. eauto.
  - destruct (hold_current_piece_safe g Hsafe) as (g' & -> & Hs). simpl. eauto.
Qed.

Lemma handle_events_safe (now : Z) (events : list Event) (g : TetrisGame.t) :
  safe_inv g →
  ∃ r g', handle_events shuffle now events g = Ok (r, g') ∧ safe_inv g'.
Proof.
  revert g. induction events as [|e events IH]; intros g Hsafe; simpl.
  { eauto. }
  destruct e as [|k|]; [by eauto| |by apply IH].
  destruct (handle_key_safe now k g Hsafe) as (r & g1 & -> & Hs1). simpl.
  destruct r; [by apply IH|by eauto].
Qed.

Lemma update_safe (now : Z) (g : TetrisGame.t) :
  safe_inv g → ∃ g', update shuffle now g = Ok g' ∧ safe_inv g'.
Proof.
  intros Hsafe. unfold update.
  destruct (decide (state g ≠ PLAYING)); [by eauto|].
  case_decide; [|by eauto].
  destruct (move_piece_safe g 0 1 false Hsafe) as (ok & g1 & -> & Hs1 & _).
  simpl.
  assert (Hex : ∃ g2, (if ok then Ok g1 else lock_piece shuffle g1) = Ok g2
                      ∧ safe_inv g2).
  { destruct ok; [by eauto|by apply lock_piece_safe]. }
  destruct Hex as (g2 & -> & Hs2). simpl. eexists. split; [done|].
  apply (safe_inv_core g2); [by destruct g2..|done].
Qed.

Lemma frame_safe (now : Z) (events : list Event) (g : TetrisGame.t) :
  safe_inv g →
  ∃ r g', frame shuffle now events g = Ok (r, g') ∧ safe_inv g'.
Proof.
  intros Hsafe. unfold frame.
  destruct (handle_events_safe now events g Hsafe) as (r & g1 & -> & Hs1).
  simpl. destruct (update_safe now g1 Hs1) as (g2 & -> & Hs2). simpl.
  eexists _, _. split; [done|].
  apply (safe_inv_core g2); [| |done].
  - destruct (draw_grid_core g2) as [Hcore _].
    destruct (state g2); by rewrite ?save_high_score_core.
  - assert (Hd : stats (draw_grid g2) = stats g2).
    { unfold draw_grid. destruct g2; simpl.
      repeat (case_decide; simpl); done. }
    destruct (state g2); rewrite <- ?Hd; try done.
    by destruct (draw_grid g2).
Qed.

Lemma init_safe (now : Z) (stored : list Z) :
  ∃ g, init shuffle now stored = Ok g ∧ safe_inv g.
Proof.
  unfold init.
  match goal with |- context [reset_game shuffle now ?G] =>
    destruct (reset_game_safe now G) as (g & -> & Hs & _) end.
  simpl. eexists. split; [done|].
  apply (safe_inv_core g); [by destruct g..|done].
Qed.

Lemma reachable_safe (g : TetrisGame.t) : reachable shuffle g → safe_inv g.
Proof.
  induction 1 as [now stored g Hinit|now events g running g' _ IH Hframe].
  - destruct (init_safe now stored) as (g0 & Hrun & Hs). congruence.
  - destruct (frame_safe now events g IH) as (r & g1 & Hrun & Hs). congruence.
Qed.

End safety.

Lemma start_game_reachable : reachable fixed_shuffle start_game.
Proof. apply (reachable_init fixed_shuffle 0 []). vm_compute. reflexivity. Qed.

(** X17: when [random.shuffle] returns a permutation of the bag, every
    state the program passes through has, besides a board of 20 rows of
    10 cells and three queued pieces, a falling piece all of whose
    occupied cells are between the side walls (also after a hold swap or
    a spawn onto occupied cells), and a [stats] entry for each of the
    seven piece types. *)
Theorem every_state_is_safe
  (shuffle : nat → list PieceType → list PieceType) (g : TetrisGame.t) :
  (∀ n, shuffle n SHAPES_keys ≡ₚ SHAPES_keys) →
  reachable shuffle g →
  game_inv g ∧ (∀ pt, ∃ n, Py.dict_get (stats g) pt = Ok n) ∧
  ∃ p, current_piece g = Some p ∧ in_columns p.
Proof.
  intros Hperm Hr.
  destruct (reachable_safe shuffle Hperm g Hr) as (Hinv & Hst & Hcol).
  split_and!; [done..|].
  destruct Hinv as (_ & _ & (p & Hp & _) & _). exists p. split; [done|].
  by apply Hcol.
Qed.

Lemma every_state_is_safe_witness :
  game_inv start_game ∧
  (∀ pt, ∃ n, Py.dict_get (stats start_game) pt = Ok n) ∧
  ∃ p, current_piece start_game = Some p ∧ in_columns p.
Proof.
  apply (every_state_is_safe fixed_shuffle start_game).
  - intros n. reflexivity.
  - apply start_game_reachable.
Defined.

(** X18: when [random.shuffle] returns a permutation of the bag, the two
    engine calls of a frame never raise: in every state the program
    passes through, [handle_events] returns for any events and clock
    reading, and [update] on the state it leaves returns for any clock
    reading.  There is no [IndexError] from the board, the bag or the
    queue, no [KeyError] from [stats], a falling piece wherever one is
    needed, and the loop of [hard_drop] ends.  (The drawing methods and
    [save_high_score], which [run] calls after them, are not covered.) *)
Theorem events_and_update_never_raise
  (shuffle : nat → list PieceType → list PieceType) (g : TetrisGame.t)
  (now now' : Z) (events : list Event) :
  (∀ n, shuffle n SHAPES_keys ≡ₚ SHAPES_keys) →
  reachable shuffle g →
  ∃ running g1 g2,
    handle_events shuffle now events g = Ok (running, g1) ∧
    update shuffle now' g1 = Ok g2.
Proof.
  intros Hperm Hr. apply (reachable_safe shuffle Hperm) in Hr.
  destruct (handle_events_safe shuffle Hperm now events g Hr)
    as (running & g1 & Hev & Hs1).
  destruct (update_safe shuffle Hperm now' g1 Hs1) as (g2 & Hup & _).
  by exists running, g1, g2.
Qed.

Lemma events_and_update_never_raise_witness :
  ∃ running g1 g2,
    handle_events fixed_shuffle 17
      (keys [K_SPACE; K_UP; K_LEFT; K_SPACE; K_c]) start_game
      = Ok (running, g1) ∧
    update fixed_shuffle 600 g1 = Ok g2.
Proof.
  apply (events_and_update_never_raise fixed_shuffle start_game 17 600
           (keys [K_SPACE; K_UP; K_LEFT; K_SPACE; K_c])).
  - intros n. reflexivity.
  - apply start_game_reachable.
Defined.

(** X19: in every state the program passes through, [get_ghost_y] on the
    falling piece returns, so the ghost piece [draw_grid] draws in the
    Playing phase has a row. *)

Theorem ghost_row_exists_in_every_state
  (shuffle : nat → list PieceType → list PieceType) (g : TetrisGame.t)
  (p : Tetrimino.t) :
  reachable shuffle g → current_piece g = Some p →
  ∃ gy, Tetrimino.get_ghost_y p (grid g) = Ok gy ∧ Tetrimino.y p ≤ gy.
Proof.
  intros Hr Hp.
  apply reachable_inv in Hr as (Hwf & _ & (p' & Hp' & Hrot) & _).
  rewrite Hp in Hp'. injection Hp' as <-.
  pose proof (rotation_of_base_occupied p Hrot) as Hocc.
  destruct (ghost_loop_spec (S (Z.to_nat (GRID_HEIGHT - Tetrimino.y p))) p
              (Tetrimino.y p) (grid g) Hwf Hocc) as (gy & Hgy & Hle & _);
    [lia|].
  by exists gy.
Qed.

Lemma ghost_row_exists_in_every_state_witness :
  ∃ gy, Tetrimino.get_ghost_y (Tetrimino.init kL) (grid start_game) = Ok gy ∧
        Tetrimino.y (Tetrimino.init kL) ≤ gy.
Proof.
  apply (ghost_row_exists_in_every_state fixed_shuffle start_game
           (Tetrimino.init kL)).
  - apply start_game_reachable.
  - reflexivity.
Defined.

(** ** The drop interval as long as nobody restarts *)

Lemma speed_inv_fields (g g' : TetrisGame.t) :
  drop_speed g' = drop_speed g → level g' = level g →
  (state g' = MENU → state g = MENU) →
  speed_inv g → speed_inv g'.
Proof.
  unfold speed_inv, calculate_drop_speed. intros -> -> Hst [Hd Hm].
  split; [done|]. intros Hmenu. by apply Hm, Hst.
Qed.

Section speed.

Variable shuffle : nat → list PieceType → list PieceType.

Lemma move_piece_speed (g g' : TetrisGame.t) (dx dy : Z) (rot ok : bool) :
  move_piece g dx dy rot = Ok (ok, g') → speed_inv g →
  speed_inv g' ∧ state g' = state g.
Proof.
  intros H Hs. apply move_piece_cases in H as [->|(p & _ & ->)]; [done|].
  split; [|by destruct g].
  apply (speed_inv_fields g); [by destruct g..|done].
Qed.

Lemma lock_piece_speed (g g' : TetrisGame.t) :
  lock_piece shuffle g = Ok g' → state g ≠ MENU → speed_inv g →
  speed_inv g' ∧ state g' ≠ MENU.
Proof.
  intros H Hst [Hd Hm]. destruct (current_piece g) as [p|] eqn:Hp.
  - destruct (lock_piece_fields shuffle g g' p Hp H)
      as (n & _ & _ & _ & _ & _ & _ & Hst' & Hd').
    assert (state g' ≠ MENU) by (destruct Hst' as [->| ->]; done).
    split; [|done]. split; [by apply Hd'|done].
  - unfold lock_piece in H. rewrite Hp in H. by simplify_eq.
Qed.

Lemma drop_loop_speed (fuel : nat) (d d' : Z) (g g' : TetrisGame.t) :
  drop_loop fuel d g = Ok (d', g') → speed_inv g →
  speed_inv g' ∧ state g' = state g.
Proof.
  revert d g. induction fuel as [|fuel IH]; intros d g H Hs; [done|].
  simpl in H. inv_bind H as [moved g1] Hmove.
  apply move_piece_speed in Hmove as [Hs1 Hst1]; [|done].
  destruct moved; [|by simplify_eq].
  apply IH in H as [? ?]; [|done]. split; congruence.
Qed.

Lemma hard_drop_speed (g g' : TetrisGame.t) :
  hard_drop shuffle g = Ok g' → state g ≠ MENU → speed_inv g →
  speed_inv g' ∧ state g' ≠ MENU.
Proof.
  unfold hard_drop. intros H Hst Hs.
  destruct (current_piece g); [|by simplify_eq].
  inv_bind H as [d g1] Hdrop.
  apply drop_loop_speed in Hdrop as [Hs1 Hst1]; [|done].
  apply lock_piece_speed in H; [done|by destruct g1; simpl in *; congruence|].
  apply (speed_inv_fields g1); [by destruct g1..|done].
Qed.

Lemma hold_current_piece_speed (g g' : TetrisGame.t) :
  hold_current_piece shuffle g = Ok g' → state g ≠ MENU → speed_inv g →
  speed_inv g' ∧ state g' ≠ MENU.
Proof.
  unfold hold_current_piece. intros H Hst Hs.
  destruct (can_hold g); simpl in H; [|by simplify_eq].
  destruct (current_piece g) as [p|]; [|by simplify_eq].
  inv_bind H as g1 Hg1. simplify_eq.
  destruct (hold_piece g) as [h|].
  - simplify_eq. split; [|by destruct g].
    apply (speed_inv_fields g); [by destruct g..|done].
  - apply spawn_next_piece_form in Hg1
      as (q & rest & new & bag & n & st & _ & Hst' & ->).
    assert (st ≠ MENU).
    { destruct Hst' as [->| ->]; [by destruct g|done]. }
    split; [|by destruct g].
    apply (speed_inv_fields g); [by destruct g..| |done].
    intros Hmenu. by destruct g.
Qed.

Lemma handle_key_speed (now : Z) (k : Key) (g g' : TetrisGame.t) (r : bool) :
  handle_key shuffle now k g = Ok (r, g') → k ≠ K_r →
  speed_inv g → speed_inv g'.
Proof.
  unfold handle_key. intros H Hk Hs.
  destruct (state g) eqn:Hst.
  - (* Menu *)
    destruct k; simplify_eq; try done.
    inv_bind H as g1 Hreset. simplify_eq.
    apply reset_game_inv in Hreset as (_ & _ & Hl & _ & Hst' & Hd').
    destruct Hs as [Hd Hm]. specialize (Hm Hst).
    unfold speed_inv, calculate_drop_speed in *.
    rewrite Hl, Hd', Hst'. split; [|done].
    replace (drop_speed (set_state PLAYING g)) with (drop_speed g)
      by (by destruct g).
    rewrite Hd, Hm. done.
  - (* Playing *)
    assert (Hne : state g ≠ MENU) by (by rewrite Hst).
    destruct k; simplify_eq; try done.
    + inv_bind H as [b g1] Hmove. simplify_eq.
      by apply move_piece_speed in Hmove as [? _].
    + inv_bind H as [b g1] Hmove. simplify_eq.
      by apply move_piece_speed in Hmove as [? _].
    + inv_bind H as [b g1] Hmove. simplify_eq.
      apply move_piece_speed in Hmove as [? _]; [|done].
      destruct b; [|done].
      apply (speed_inv_fields g1); [by destruct g1..|done].
    + inv_bind H as [b g1] Hmove. simplify_eq.
      by apply move_piece_speed in Hmove as [? _].
    + inv_bind H as g1 Hg1. simplify_eq.
      by apply hard_drop_speed in Hg1 as [? _].
    + inv_bind H as g1 Hg1. simplify_eq.
      by apply hold_current_piece_speed in Hg1 as [? _].
    + apply (speed_inv_fields g); [by destruct g..| |done].
      intros Hmenu. by destruct g.
  - (* Paused *)
    destruct k; simplify_eq; try done.
    apply (speed_inv_fields g); [by destruct g..| |done].
    intros Hmenu. by destruct g.
  - (* GameOver *)
    destruct k; simplify_eq; done.
Qed.

Lemma handle_events_speed (now : Z) (events : list Event) (g g' : TetrisGame.t)
  (r : bool) :
  handle_events shuffle now events g = Ok (r, g') → no_restart events →
  speed_inv g → speed_inv g'.
Proof.
  unfold no_restart.
  revert g. induction events as [|e events IH]; intros g H Hno Hs; simpl in H.
  - by simplify_eq.
  - apply not_elem_of_cons in Hno as [He Hno].
    destruct e as [|k|]; [by simplify_eq| |by eapply IH].
    inv_bind H as [r1 g1] Hkey.
    apply handle_key_speed in Hkey; [|congruence|done].
    destruct r1; [by eapply IH|by simplify_eq].
Qed.

Lemma update_speed (now : Z) (g g' : TetrisGame.t) :
  update shuffle now g = Ok g' → speed_inv g → speed_inv g'.
Proof.
  unfold update. intros H Hs.
  destruct (decide (state g ≠ PLAYING)) as [|Hst]; [by simplify_eq|].
  case_decide; [|by simplify_eq].
  inv_bind H as [moved g1] Hmove. inv_bind H as g2 Hg2. simplify_eq.
  apply move_piece_speed in Hmove as [Hs1 Hst1]; [|done].
  assert (Hs2 : speed_inv g2 ∧ state g2 ≠ MENU).
  { assert (state g1 ≠ MENU).
    { rewrite Hst1. intros Hm. apply Hst. intros Hp. congruence. }
    destruct moved; [by simplify_eq|]. by eapply lock_piece_speed. }
  destruct Hs2 as [Hs2 Hm2].
  apply (speed_inv_fields g2); [by destruct g2..| |done].
  intros Hmenu. by destruct g2.
Qed.

Lemma frame_speed (now : Z) (events : list Event) (g g' : TetrisGame.t)
  (r : bool) :
  frame shuffle now events g = Ok (r, g') → no_restart events →
  speed_inv g → speed_inv g'.
Proof.
  unfold frame. intros H Hno Hs. inv_bind H as [r1 g1] Hev.
  inv_bind H as g2 Hup. simplify_eq.
  apply handle_events_speed in Hev; [|done..].
  apply update_speed in Hup; [|done].
  assert (Hd : drop_speed (draw_grid g2) = drop_speed g2 ∧
               level (draw_grid g2) = level g2 ∧
               state (draw_grid g2) = state g2).
  { unfold draw_grid. destruct g2; simpl.
    repeat (case_decide; simpl); done. }
  destruct Hd as (Hd1 & Hd2 & Hd3).
  destruct (state g2) eqn:Hst; [done|..].
  - apply (speed_inv_fields g2); [done..|congruence|done].
  - apply (speed_inv_fields g2); [done..|congruence|done].
  - apply (speed_inv_fields g2); [| | |done].
    + by destruct (draw_grid g2).
    + by destruct (draw_grid g2).
    + intros Hm. destruct (draw_grid g2); simpl in *. congruence.
Qed.

Lemma run_speed (inputs : list (Z * list Event)) (g g' : TetrisGame.t) :
  run shuffle inputs g = Ok g' → Forall (λ i, no_restart i.2) inputs →
  speed_inv g → speed_inv g'.
Proof.
  revert g. induction inputs as [|[now events] inputs IH]; intros g H Hno Hs;
    simpl in H; [by simplify_eq|].
  apply Forall_cons in Hno as [Hno1 Hno].
  inv_bind H as [r g1] Hframe.
  apply frame_speed in Hframe; [|done..].
  destruct r; [by eapply IH|by simplify_eq].
Qed.

Lemma init_speed (now : Z) (stored : list Z) (g : TetrisGame.t) :
  init shuffle now stored = Ok g → speed_inv g.
Proof.
  unfold init. intros H. inv_bind H as g0 Hreset. simplify_eq.
  apply reset_game_inv in Hreset as (_ & _ & Hl & _).
  unfold speed_inv, calculate_drop_speed. destruct g0; simpl in *.
  subst. done.
Qed.

End speed.

(** X20: from the start of the program on, as long as no frame carries
    the restart key, [drop_speed] is the interval [calculate_drop_speed]
    gives for the level: starting the game from the menu and every level
    change keep the two together. *)
Theorem drop_speed_follows_level_without_restart
  (shuffle : nat → list PieceType → list PieceType) (now : Z)
  (stored : list Z) (inputs : list (Z * list Event)) (g0 g : TetrisGame.t) :
  init shuffle now stored = Ok g0 →
  Forall (λ i, no_restart i.2) inputs →
  run shuffle inputs g0 = Ok g →
  drop_speed g = calculate_drop_speed g.
Proof.
  intros Hinit Hno Hrun.
  apply init_speed in Hinit.
  by apply (run_speed shuffle inputs g0 g Hrun Hno) in Hinit as [? _].
Qed.

Lemma drop_speed_follows_level_without_restart_witness :
  ∃ g, run fixed_shuffle
         [(0, keys [K_SPACE]); (600, keys [K_LEFT; K_SPACE]); (1200, [])]
         start_game = Ok g ∧
       drop_speed g = calculate_drop_speed g.
Proof.
  pose (inputs := [(0, keys [K_SPACE]); (600, keys [K_LEFT; K_SPACE]);
                   (1200, [])] : list (Z * list Event)).
  pose (g := match run fixed_shuffle inputs start_game with
             | Ok g => g
             | Raise _ => start_game
             end).
  assert (Hrun : run fixed_shuffle inputs start_game = Ok g)
    by (vm_compute; reflexivity).
  exists g. split; [exact Hrun|].
  apply (drop_speed_follows_level_without_restart fixed_shuffle 0 [] inputs
           start_game g).
  - vm_compute. reflexivity.
  - repeat constructor; unfold no_restart; simpl;
      intros Hel; repeat (apply elem_of_cons in Hel as [Hel|Hel]; [discriminate|]);
      by apply elem_of_nil in Hel.
  - exact Hrun.
Defined.

(** ** The counters *)

Lemma no_loss_refl (g : TetrisGame.t) : no_loss g g.
Proof. unfold no_loss. lia. Qed.

Lemma no_loss_trans (g1 g2 g3 : TetrisGame.t) :
  no_loss g1 g2 → no_loss g2 g3 → no_loss g1 g3.
Proof. unfold no_loss. lia. Qed.

Lemma counters_same (g g' : TetrisGame.t) :
  counters g' = counters g → counters_inv g →
  counters_inv g' ∧ no_loss g g'.
Proof.
  unfold counters, counters_inv, no_loss. intros Hc Hinv. simplify_eq.
  repeat match goal with H : _ = _ |- _ => rewrite H; clear H end.
  split; [done|lia].
Qed.

Lemma calculate_score_counters (g : TetrisGame.t) (n : Z) :
  0 ≤ n → counters_inv g →
  counters_inv (calculate_score n g) ∧ no_loss g (calculate_score n g) ∧
  state (calculate_score n g) = state g.
Proof.
  unfold counters_inv, no_loss, calculate_score, line_scores_get,
    calculate_drop_speed.
  intros Hn Hinv. destruct g; simpl in *. destruct_and!.
  repeat (case_decide; simpl); split_and!; try done; try lia; try nia.
Qed.

Lemma clear_lines_counters (g g' : TetrisGame.t) (n : Z) :
  clear_lines g = Ok (n, g') → counters_inv g →
  counters_inv g' ∧ no_loss g g' ∧ 0 ≤ n ∧ state g' = state g.
Proof.
  intros H Hinv.
  apply clear_lines_form in H as [[-> ->]|(rows & grid' & Hne & -> & ->)].
  { split_and!; [done|apply no_loss_refl|done..]. }
  unfold counters_inv, no_loss in *. destruct g; simpl in *. destruct_and!.
  case_decide; simpl; split_and!; try done; lia.
Qed.

Section counting.

Variable shuffle : nat → list PieceType → list PieceType.

Lemma spawn_next_piece_counters (g g' : TetrisGame.t) :
  spawn_next_piece shuffle g = Ok g' → counters_inv g →
  counters_inv g' ∧ no_loss g g' ∧
  (state g' = state g ∨ state g' = GAME_OVER).
Proof.
  intros H Hinv.
  apply spawn_next_piece_form in H
    as (p & rest & new & bag & n & st & _ & Hst & ->).
  unfold counters_inv, no_loss in *. destruct g; simpl in *. destruct_and!.
  split_and!; try done; lia.
Qed.

Lemma move_piece_counters (g g' : TetrisGame.t) (dx dy : Z) (rot ok : bool) :
  move_piece g dx dy rot = Ok (ok, g') →
  counters g' = counters g ∧ state g' = state g.
Proof.
  intros H. apply move_piece_cases in H as [->|(p & _ & ->)]; [done|].
  by destruct g.
Qed.

Lemma lock_piece_counters (g g' : TetrisGame.t) :
  lock_piece shuffle g = Ok g' → counters_inv g →
  counters_inv g' ∧ no_loss g g' ∧
  (state g' = state g ∨ state g' = GAME_OVER).
Proof.
  unfold lock_piece. intros H Hinv.
  destruct (current_piece g) as [p|] eqn:Hp.
  2: { simplify_eq. split_and!; [done|apply no_loss_refl|by left]. }
  inv_bind H as [[grid' locked'] writes] Hlock.
  inv_bind H as n Hstat. inv_bind H as [lines g2] Hclear.
  set (g1 := set_stats _ _) in Hclear.
  assert (H1 : counters g1 = counters g ∧ state g1 = state g)
    by (by destruct g).
  destruct H1 as [Hc1 Hst1].
  destruct (counters_same g g1 Hc1 Hinv) as [Hinv1 Hl1].
  apply clear_lines_counters in Hclear as (Hinv2 & Hl2 & Hn & Hst2); [|done].
  destruct (calculate_score_counters g2 lines Hn Hinv2) as (Hinv3 & Hl3 & Hst3).
  apply spawn_next_piece_counters in H as (Hinv4 & Hl4 & Hst4); [|done].
  split_and!; [done| |].
  - eauto using no_loss_trans.
  - destruct Hst4 as [Hst4|Hst4]; [left|right]; congruence.
Qed.

Lemma drop_loop_counters (fuel : nat) (d d' : Z) (g g' : TetrisGame.t) :
  drop_loop fuel d g = Ok (d', g') →
  counters g' = counters g ∧ state g' = state g ∧ d ≤ d'.
Proof.
  revert d g. induction fuel as [|fuel IH]; intros d g H; [done|].
  simpl in H. inv_bind H as [moved g1] Hmove.
  apply move_piece_counters in Hmove as [Hc1 Hst1].
  destruct moved; [|injection H as <- <-; split_and!; [done..|lia]].
  apply IH in H as (? & ? & ?). split_and!; [congruence..|lia].
Qed.

Lemma hard_drop_counters (g g' : TetrisGame.t) :
  hard_drop shuffle g = Ok g' → counters_inv g →
  counters_inv g' ∧ no_loss g g' ∧
  (state g' = state g ∨ state g' = GAME_OVER).
Proof.
  unfold hard_drop. intros H Hinv.
  destruct (current_piece g).
  2: { simplify_eq. split_and!; [done|apply no_loss_refl|by left]. }
  inv_bind H as [d g1] Hdrop.
  apply drop_loop_counters in Hdrop as (Hc1 & Hst1 & Hd).
  destruct (counters_same g g1 Hc1 Hinv) as [Hinv1 Hl1].
  apply lock_piece_counters in H as (Hinv2 & Hl2 & Hst2).
  - split_and!; [done| |].
    + eapply no_loss_trans; [exact Hl1|]. eapply no_loss_trans; [|exact Hl2].
      unfold no_loss. destruct g1; simpl. lia.
    + replace (state g) with (state g1). by destruct g1.
  - unfold counters_inv in *. destruct g1; simpl in *. destruct_and!.
    split_and!; try done; lia.
Qed.

Lemma hold_current_piece_counters (g g' : TetrisGame.t) :
  hold_current_piece shuffle g = Ok g' → counters_inv g →
  counters_inv g' ∧ no_loss g g' ∧
  (state g' = state g ∨ state g' = GAME_OVER).
Proof.
  unfold hold_current_piece. intros H Hinv.
  destruct (can_hold g); simpl in H.
  2: { simplify_eq. split_and!; [done|apply no_loss_refl|by left]. }
  destruct (current_piece g) as [p|].
  2: { simplify_eq. split_and!; [done|apply no_loss_refl|by left]. }
  inv_bind H as g1 Hg1. simplify_eq.
  destruct (hold_piece g) as [h|].
  - simplify_eq.
    destruct (counters_same g
                (set_can_hold false
                   (set_hold_piece (Some (Tetrimino.init (Tetrimino.piece_type p)))
                      (set_current_piece
                         (Some (Tetrimino.init (Tetrimino.piece_type h))) g))))
      as [? ?]; [by destruct g|done|].
    split_and!; [done..|]. left. by destruct g.
  - apply spawn_next_piece_counters in Hg1 as (Hinv1 & Hl1 & Hst1).
    + destruct (counters_same g1 (set_can_hold false g1)) as [? ?];
        [by destruct g1|done|].
      split_and!; [done| |].
      * eapply no_loss_trans; [|done].
        eapply no_loss_trans; [|exact Hl1]. unfold no_loss. destruct g; simpl. lia.
      * replace (state (set_can_hold false g1)) with (state g1)
          by (by destruct g1).
        replace (state g) with
          (state (set_hold_piece
                    (Some (Tetrimino.init (Tetrimino.piece_type p))) g))
          by (by destruct g).
        done.
    + by eapply counters_same; [|done]; destruct g.
Qed.

Lemma reset_game_counters (now : Z) (g g' : TetrisGame.t) :
  reset_game shuffle now g = Ok g' →
  score g' = 0 ∧ lines_cleared g' = 0 ∧ level g' = 1 ∧ combo g' = 0 ∧
  total_pieces g' = 0 ∧ state g' = state g ∧
  (drop_speed g', screen_shake g', flash_effect g', line_clear_animation g',
   line_clear_rows g')
  = (drop_speed g, screen_shake g, flash_effect g, line_clear_animation g,
     line_clear_rows g).
Proof.
  unfold reset_game, generate_next_pieces. intros H.
  destruct g; simpl in H. inv_bind H as g2 Hcur. inv_bind Hcur as [pt g1] Hget.
  apply get_next_piece_fields in Hget as (bag & n & ->). simplify_eq.
  apply fill_next_pieces_fields in H as (new & bag' & n' & -> & _ & _).
  done.
Qed.

Lemma handle_key_counters (now : Z) (k : Key) (g g' : TetrisGame.t) (r : bool) :
  handle_key shuffle now k g = Ok (r, g') → counters_inv g →
  counters_inv g' ∧
  (state g ≠ MENU → state g' ≠ MENU ∧ (k ≠ K_r → no_loss g g')).
Proof.
  unfold handle_key. intros H Hinv.
  assert (Hreset : ∀ st g1, reset_game shuffle now (set_state st g) = Ok g1 →
                            counters_inv g1 ∧ state g1 = st).
  { intros st g1 Hr.
    apply reset_game_counters in Hr as (? & ? & ? & ? & ? & ? & ?).
    unfold counters_inv in *. destruct g, g1; simpl in *. simplify_eq.
    destruct_and!. split_and!; try done; lia. }
  assert (Hmove : ∀ dx dy rot b g1, move_piece g dx dy rot = Ok (b, g1) →
            counters_inv g1 ∧ (state g ≠ MENU → state g1 ≠ MENU ∧ no_loss g g1)).
  { intros ????? Hm. apply move_piece_counters in Hm as [Hc Hst].
    destruct (counters_same g g1 Hc Hinv). split; [done|]. by rewrite Hst. }
  assert (Hstep : ∀ g1, counters_inv g1 ∧ no_loss g g1 ∧
                    (state g1 = state g ∨ state g1 = GAME_OVER) →
            counters_inv g1 ∧
            (state g ≠ MENU → state g1 ≠ MENU ∧ (k ≠ K_r → no_loss g g1))).
  { intros g1 (? & ? & Hst). split; [done|]. intros Hm. split; [|done].
    destruct Hst as [->| ->]; done. }
  assert (Hset : ∀ st, st ≠ MENU → counters_inv (set_state st g) ∧
            (state g ≠ MENU → state (set_state st g) ≠ MENU
                              ∧ (k ≠ K_r → no_loss g (set_state st g)))).
  { intros st Hst.
    destruct (counters_same g (set_state st g)) as [? ?]; [by destruct g|done|].
    split; [done|]. intros _. split; [by destruct g|done]. }
  destruct (state g) eqn:Hst.
  - destruct k; simplify_eq; try (by split; [done|]; intros ?; split; [congruence|]; intros _;
      apply no_loss_refl).
    inv_bind H as g1 Hr. simplify_eq. by apply Hreset in Hr as [? _].
  - destruct k; simplify_eq; try (by split; [done|]; intros ?; split; [congruence|]; intros _;
      apply no_loss_refl); try (by apply Hset).
    + inv_bind H as [b g1] Hm. simplify_eq. apply Hmove in Hm as [? Hm].
      split; [done|]. intros Hne. by destruct (Hm Hne).
    + inv_bind H as [b g1] Hm. simplify_eq. apply Hmove in Hm as [? Hm].
      split; [done|]. intros Hne. by destruct (Hm Hne).
    + inv_bind H as [b g1] Hm. simplify_eq. apply Hmove in Hm as [Hi Hm].
      destruct b; [|split; [done|]; intros Hne; by destruct (Hm Hne)].
      assert (Hi' : counters_inv (set_score (score g1 + 1) g1)).
      { unfold counters_inv in *. destruct g1; simpl in *. destruct_and!.
        split_and!; try done; lia. }
      split; [done|]. intros Hne. destruct (Hm Hne) as [? Hl].
      split; [by destruct g1|]. intros _.
      eapply no_loss_trans; [exact Hl|].
      unfold no_loss. destruct g1; simpl. lia.
    + inv_bind H as [b g1] Hm. simplify_eq. apply Hmove in Hm as [? Hm].
      split; [done|]. intros Hne. by destruct (Hm Hne).
    + inv_bind H as g1 Hg1. simplify_eq. apply Hstep.
      rewrite <- Hst. by apply hard_drop_counters.
    + inv_bind H as g1 Hg1. simplify_eq. apply Hstep.
      rewrite <- Hst. by apply hold_current_piece_counters.
  - destruct k; simplify_eq; try (by split; [done|]; intros ?; split; [congruence|]; intros _;
      apply no_loss_refl); by apply Hset.
  - destruct k; simplify_eq; try (by split; [done|]; intros ?; split; [congruence|]; intros _;
      apply no_loss_refl).
    inv_bind H as g1 Hr. simplify_eq. apply Hreset in Hr as [? ->].
    split; [done|]. intros _. split; done.
Qed.

Lemma handle_events_counters (now : Z) (events : list Event)
  (g g' : TetrisGame.t) (r : bool) :
  handle_events shuffle now events g = Ok (r, g') → counters_inv g →
  counters_inv g' ∧
  (state g ≠ MENU → state g' ≠ MENU ∧ (no_restart events → no_loss g g')).
Proof.
  unfold no_restart.
  revert g. induction events as [|e events IH]; intros g H Hinv; simpl in H.
  { simplify_eq. split; [done|]. intros ?. split; [done|]. intros _.
    apply no_loss_refl. }
  destruct e as [|k|].
  - simplify_eq. split; [done|]. intros ?. split; [done|]. intros _.
    apply no_loss_refl.
  - inv_bind H as [r1 g1] Hkey.
    apply handle_key_counters in Hkey as [Hinv1 Hk]; [|done].
    assert (Hrest : counters_inv g' ∧
              (state g1 ≠ MENU →
               state g' ≠ MENU ∧ (KEYDOWN K_r ∉ events → no_loss g1 g'))).
    { destruct r1; [by eapply IH|]. simplify_eq. split; [done|].
      intros ?. split; [done|]. intros _. apply no_loss_refl. }
    destruct Hrest as [Hinv' Hrest]. split; [done|]. intros Hne.
    destruct (Hk Hne) as [Hne1 Hl1]. destruct (Hrest Hne1) as [Hne' Hl'].
    split; [done|]. intros [Hk1 Hno]%not_elem_of_cons.
    eapply no_loss_trans; [apply Hl1; congruence|by apply Hl'].
  - apply IH in H as [Hinv' Hrest]; [|done]. split; [done|]. intros Hne.
    destruct (Hrest Hne) as [? Hl]. split; [done|].
    intros [_ Hno]%not_elem_of_cons. by apply Hl.
Qed.

Lemma update_counters (now : Z) (g g' : TetrisGame.t) :
  update shuffle now g = Ok g' → counters_inv g →
  counters_inv g' ∧ no_loss g g' ∧ (state g ≠ MENU → state g' ≠ MENU).
Proof.
  unfold update. intros H Hinv.
  destruct (decide (state g ≠ PLAYING)) as [|Hst].
  { simplify_eq. split_and!; [done|apply no_loss_refl|done]. }
  case_decide.
  2: { simplify_eq. split_and!; [done|apply no_loss_refl|done]. }
  inv_bind H as [moved g1] Hmove. inv_bind H as g2 Hg2. simplify_eq.
  apply move_piece_counters in Hmove as [Hc1 Hst1].
  destruct (counters_same g g1 Hc1 Hinv) as [Hinv1 Hl1].
  assert (H2 : counters_inv g2 ∧ no_loss g1 g2 ∧
               (state g2 = state g1 ∨ state g2 = GAME_OVER)).
  { destruct moved; [|by apply lock_piece_counters].
    simplify_eq. split_and!; [done|apply no_loss_refl|by left]. }
  destruct H2 as (Hinv2 & Hl2 & Hst2).
  destruct (counters_same g2 (set_drop_time now g2)) as [? ?];
    [by destruct g2|done|].
  split_and!; [done|eauto using no_loss_trans|].
  intros Hne. replace (state (set_drop_time now g2)) with (state g2)
    by (by destruct g2).
  destruct Hst2 as [->| ->]; [congruence|done].
Qed.

Lemma draw_grid_counters (g : TetrisGame.t) :
  counters_inv g →
  counters_inv (draw_grid g) ∧ no_loss g (draw_grid g) ∧
  state (draw_grid g) = state g.
Proof.
  unfold counters_inv, no_loss, draw_grid. intros Hinv.
  destruct g; simpl in *. destruct_and!.
  repeat (case_decide; simpl in *); split_and!; try done; lia.
Qed.

Lemma frame_counters (now : Z) (events : list Event) (g g' : TetrisGame.t)
  (r : bool) :
  frame shuffle now events g = Ok (r, g') → counters_inv g →
  counters_inv g' ∧
  (state g ≠ MENU → state g' ≠ MENU ∧ (no_restart events → no_loss g g')).
Proof.
  unfold frame. intros H Hinv. inv_bind H as [r1 g1] Hev.
  inv_bind H as g2 Hup. simplify_eq.
  apply handle_events_counters in Hev as [Hinv1 Hev]; [|done].
  apply update_counters in Hup as (Hinv2 & Hl2 & Hst2); [|done].
  destruct (draw_grid_counters g2 Hinv2) as (Hinv3 & Hl3 & Hst3).
  assert (H3 : ∀ g3, g3 = draw_grid g2 ∨ g3 = save_high_score (draw_grid g2) →
            counters_inv g3 ∧ no_loss g2 g3 ∧ state g3 = state g2).
  { intros g3 [->| ->]; [done|].
    destruct (counters_same (draw_grid g2) (save_high_score (draw_grid g2)))
      as [? ?]; [by destruct (draw_grid g2)|done|].
    split_and!; [done|eauto using no_loss_trans|].
    rewrite <- Hst3. by destruct (draw_grid g2). }
  assert (Hfin : ∀ g3, counters_inv g3 ∧ no_loss g2 g3 ∧ state g3 = state g2 →
            counters_inv g3 ∧
            (state g ≠ MENU →
             state g3 ≠ MENU ∧ (no_restart events → no_loss g g3))).
  { intros g3 (? & ? & Hst). split; [done|]. intros Hne.
    destruct (Hev Hne) as [Hne1 Hl1]. split; [rewrite Hst; by apply Hst2|].
    intros Hno. eauto using no_loss_trans. }
  destruct (state g2) eqn:Hs2; apply Hfin.
  - split_and!; [done|apply no_loss_refl|done].
  - apply H3. by left.
  - apply H3. by left.
  - apply H3. by right.
Qed.

Lemma run_counters (inputs : list (Z * list Event)) (g g' : TetrisGame.t) :
  run shuffle inputs g = Ok g' → counters_inv g →
  counters_inv g' ∧
  (state g ≠ MENU →
   state g' ≠ MENU ∧ (Forall (λ i, no_restart i.2) inputs → no_loss g g')).
Proof.
  revert g. induction inputs as [|[now events] inputs IH]; intros g H Hinv;
    simpl in H.
  { simplify_eq. split; [done|]. intros ?. split; [done|]. intros _.
    apply no_loss_refl. }
  inv_bind H as [r g1] Hframe.
  apply frame_counters in Hframe as [Hinv1 Hf]; [|done].
  assert (Hrest : counters_inv g' ∧
            (state g1 ≠ MENU →
             state g' ≠ MENU ∧
             (Forall (λ i, no_restart i.2) inputs → no_loss g1 g'))).
  { destruct r; [by eapply IH|]. simplify_eq. split; [done|].
    intros ?. split; [done|]. intros _. apply no_loss_refl. }
  destruct Hrest as [Hinv' Hrest]. split; [done|]. intros Hne.
  destruct (Hf Hne) as [Hne1 Hl1]. destruct (Hrest Hne1) as [Hne' Hl'].
  split; [done|]. intros [Hno1 Hno]%Forall_cons.
  eapply no_loss_trans; [by apply Hl1|by apply Hl'].
Qed.

Lemma init_counters (now : Z) (stored : list Z) (g : TetrisGame.t) :
  init shuffle now stored = Ok g → counters_inv g.
Proof.
  unfold init. intros H. inv_bind H as g0 Hreset. simplify_eq.
  apply reset_game_counters in Hreset as (? & ? & ? & ? & ? & ? & ?).
  unfold counters_inv. destruct g0; simpl in *. simplify_eq.
  split_and!; try done; lia.
Qed.

Lemma reachable_counters (g : TetrisGame.t) :
  reachable shuffle g → counters_inv g.
Proof.
  induction 1 as [now stored g Hinit|now events g running g' _ IH Hframe].
  - by eapply init_counters.
  - by apply frame_counters in Hframe as [? _].
Qed.

End counting.

(** X21: in every state the program passes through the score, the line
    total, the combo counter and [total_pieces] are not negative, the
    level is at least 1, [drop_speed] is between 50 and 500, the effect
    counters are within 0..8 (shake), 0..10 (flash) and 0..30 (line
    animation), and the list of animated rows is empty once the line
    animation has run out. *)
Theorem counters_stay_in_range
  (shuffle : nat → list PieceType → list PieceType) (g : TetrisGame.t) :
  reachable shuffle g → counters_inv g.
Proof. apply reachable_counters. Qed.

Lemma counters_stay_in_range_witness : counters_inv start_game.
Proof.
  apply (counters_stay_in_range fixed_shuffle start_game).
  apply start_game_reachable.
Defined.

(** X22: once the game has left the menu it never shows the menu again,
    and over frames without the restart key the score, the line total,
    the level and [total_pieces] never go down. *)
Theorem started_game_never_loses_points
  (shuffle : nat → list PieceType → list PieceType)
  (inputs : list (Z * list Event)) (g g' : TetrisGame.t) :
  reachable shuffle g → state g ≠ MENU →
  run shuffle inputs g = Ok g' →
  state g' ≠ MENU ∧
  (Forall (λ i, no_restart i.2) inputs → no_loss g g').
Proof.
  intros Hr Hne Hrun. apply reachable_counters in Hr.
  destruct (run_counters shuffle inputs g g' Hrun Hr) as [_ H]. by apply H.
Qed.

Lemma started_game_never_loses_points_witness :
  ∃ g g', reachable fixed_shuffle g ∧ state g = PLAYING ∧
    run fixed_shuffle [(600, keys [K_DOWN; K_SPACE]); (1200, keys [K_p])] g
      = Ok g' ∧
    state g' ≠ MENU ∧
    (Forall (λ i, no_restart i.2)
       [(600, keys [K_DOWN; K_SPACE]); (1200, keys [K_p])] → no_loss g g').
Proof.
  pose (g := match frame fixed_shuffle 0 (keys [K_SPACE]) start_game with
             | Ok (_, g) => g
             | Raise _ => start_game
             end).
  pose (inputs := [(600, keys [K_DOWN; K_SPACE]); (1200, keys [K_p])]
                  : list (Z * list Event)).
  pose (g' := match run fixed_shuffle inputs g with
              | Ok g' => g'
              | Raise _ => g
              end).
  assert (Hg : reachable fixed_shuffle g).
  { apply (reachable_frame fixed_shuffle 0 (keys [K_SPACE]) start_game true g).
    - apply start_game_reachable.
    - vm_compute. reflexivity. }
  assert (Hrun : run fixed_shuffle inputs g = Ok g')
    by (vm_compute; reflexivity).
  assert (Hst : state g = PLAYING) by (vm_compute; reflexivity).
  assert (Hne : state g ≠ MENU) by (rewrite Hst; discriminate).
  exists g, g'.
  split; [exact Hg|]. split; [exact Hst|]. split; [exact Hrun|].
  exact (started_game_never_loses_points fixed_shuffle inputs g g' Hg Hne Hrun).
Defined.
